(** * cuDNN graph API of the OpenXLA NVGPU runtime

    A shallow embedding of
    [runtime/src/openxla/runtime/nvgpu/cudnn_api.cpp]: tensor and operation
    construction, operation-graph construction by a backward work-list
    traversal, executable compilation and execution.

    Conventions of the embedding:
    - [int64_t] is [Z] with two's-complement wrap-around written out
      ([wrap64]); [size_t] counts are [nat];
    - reference-counted heap objects ([CuDNNTensor]) live in an explicit
      heap, a [CuDNNTensor*] is an address of that heap;
    - the cuDNN backend reached through [openxla_cudnn_dynamic_symbols_t]
      is a record of functions, every call into it is recorded in a log;
      [ScopedCuDNNStubs], which installs the table for the duration of a
      call, has no counterpart: the table is passed to whoever needs it;
    - [StatusOr<T>], assertion failures and undefined behaviour are the
      constructors of [Result]. *)

From Stdlib Require Import ZArith List Lia Floats.
From stdpp Require Import base list gmap sets strings sorting.

Local Open Scope Z_scope.

(** ** 64-bit integers *)

Module Int64.

Definition modulus : Z := 2 ^ 64.
Definition half_modulus : Z := 2 ^ 63.
Definition min_signed : Z := - half_modulus.
Definition max_signed : Z := half_modulus - 1.

(** Reduction of a mathematical integer to [int64_t]: the value the
    compiled code computes. In C++ a signed operation whose result leaves
    [int64_t] is undefined; the operations below give the reduced value
    there, so a statement that a call has no undefined behaviour bounds the
    operands so that no operation is reduced. *)
Definition wrap64 (z : Z) : Z := (z + half_modulus) mod modulus - half_modulus.

Definition add (a b : Z) : Z := wrap64 (a + b).
Definition sub (a b : Z) : Z := wrap64 (a - b).
Definition mul (a b : Z) : Z := wrap64 (a * b).
(** C++ [/] truncates toward zero. The code divides by the stride of a
    convolution only, which [CreateConvolution] fixes to 1: a division by
    zero or of [min_signed] by -1, where the code traps, is met by none of
    the properties. *)
Definition div (a b : Z) : Z := wrap64 (a ÷ b).

Definition in_range (z : Z) : Prop := min_signed <= z <= max_signed.

End Int64.

(** ** Helper functions for setting up cuDNN descriptors *)

(** [for (int64_t d = k - 1; d >= 0; --d) strides[d] = dims[d] * strides[d + 1];] *)
Fixpoint row_major_loop (k : nat) (dims strides : list Z) : list Z :=
  match k with
  | O => strides
  | S d =>
      row_major_loop d dims
        (<[d := Int64.mul (dims !!! d) (strides !!! S d)]> strides)
  end.

(** [dims.size() - 2] is computed in [size_t] and converted to [int64_t]:
    for ranks 0 and 1 the counter starts negative and the loop body never
    runs, which is what the truncated subtraction on [nat] gives. *)
Definition GetRowMajorStrides (dims : list Z) : list Z :=
  row_major_loop (length dims - 1)%nat dims (replicate (length dims) 1).

(** [for (int64_t d = hi; d >= 2; --d) strides[d] = strides[d + 1] * dims[d + 1];]
    with [n] the number of iterations left and [d = n + 1]. *)
Fixpoint channels_last_loop (n : nat) (dims strides : list Z) : list Z :=
  match n with
  | O => strides
  | S n' =>
      let d := S n in
      channels_last_loop n' dims
        (<[d := Int64.mul (strides !!! S d) (dims !!! S d)]> strides)
  end.

(** The body of [GetChannelsLastStrides] after its rank assertion. *)
Definition channels_last_strides (dims : list Z) : list Z :=
  let n := length dims in
  let strides := replicate n 1 in
  let strides := <[1%nat := 1]> strides in
  let strides :=
    <[(n - 1)%nat := Int64.mul (strides !!! 1%nat) (dims !!! 1%nat)]> strides in
  let strides := channels_last_loop (n - 3)%nat dims strides in
  <[0%nat := Int64.mul (strides !!! 2%nat) (dims !!! 2%nat)]> strides.

(** ** Status codes and results *)

Inductive iree_status_code_t : Set :=
| IREE_STATUS_INVALID_ARGUMENT
| IREE_STATUS_INTERNAL.

Record Status : Set := iree_make_status {
  status_code : iree_status_code_t;
  status_message : string
}.

Inductive cudnnStatus_t : Set :=
| CUDNN_STATUS_SUCCESS
| CUDNN_STATUS_FAILURE (code : Z).

(** The [IREE_ASSERT]s of the file, by place. *)
Inductive Assertion : Set :=
| AssertBufferIsDevice       (* GetDevicePointers *)
| AssertPtrsMatchUids        (* Execute: ptrs.size() == uids.size() *)
| AssertNoWorkspace          (* Execute: plans_[0].getWorkspaceSize() == 0 *)
| AssertChannelsLastRank.    (* GetChannelsLastStrides *)

(** Outcome of a call: a value, an [iree::Status] error, a failed
    assertion (the process aborts), undefined behaviour of the C++ program
    (a dangling reference, indexing outside a vector), or the traversal
    budget of the embedding running out. *)
Inductive Result (A : Type) : Type :=
| Ok (a : A)
| Failed (s : Status)
| AssertionFailure (a : Assertion)
| UndefinedBehaviour
| OutOfFuel.

Arguments Ok {A} a.
Arguments Failed {A} s.
Arguments AssertionFailure {A} a.
Arguments UndefinedBehaviour {A}.
Arguments OutOfFuel {A}.

(** ** cuDNN descriptors *)

Inductive cudnnDataType_t : Set :=
| CUDNN_DATA_FLOAT
| CUDNN_DATA_TYPE (code : Z).

Inductive cudnnPointwiseMode_t : Set :=
| CUDNN_POINTWISE_RELU_FWD
| CUDNN_POINTWISE_MODE (code : Z).

Inductive cudnnConvolutionMode_t : Set :=
| CUDNN_CONVOLUTION
| CUDNN_CROSS_CORRELATION.

Definition cudnnHandle_t : Set := Z.
Definition cudnnBackendDescriptor_t : Set := Z.
Definition CUdeviceptr : Set := Z.

(** [cudnn_frontend::Tensor]. *)
Record Tensor : Set := mkTensor {
  getDim : list Z;
  getStride : list Z;
  getId : Z;
  getAlignment : Z;
  getDataType : cudnnDataType_t;
  isVirtual : bool
}.

(** [cudnn_frontend::PointWiseDesc]; a field no setter touched is [None]. *)
Record PointWiseDesc : Set := mkPointWiseDesc {
  pw_mode : option cudnnPointwiseMode_t;
  pw_compute_type : option cudnnDataType_t;
  pw_clipping : option (float * float)
}.

(** [cudnn_frontend::ConvDesc]. *)
Record ConvDesc : Set := mkConvDesc {
  conv_compute_type : option cudnnDataType_t;
  conv_math_mode : option cudnnConvolutionMode_t;
  conv_spatial_dim_count : Z;
  conv_spatial_stride : list Z;
  conv_pre_padding : list Z;
  conv_post_padding : list Z;
  conv_dilation : list Z
}.

Inductive cudnnBackendDescriptorType_t : Set :=
| CUDNN_BACKEND_OPERATION_POINTWISE_DESCRIPTOR
| CUDNN_BACKEND_OPERATION_CONVOLUTION_FORWARD_DESCRIPTOR.

(** [cudnn_frontend::Operation]; a field no setter touched is [None]. *)
Record Operation : Set := mkOperation {
  op_type : cudnnBackendDescriptorType_t;
  op_xDesc : option Tensor;
  op_bDesc : option Tensor;
  op_wDesc : option Tensor;
  op_yDesc : option Tensor;
  op_pwDesc : option PointWiseDesc;
  op_cDesc : option ConvDesc;
  op_alpha : option float;
  op_alpha2 : option float;
  op_beta : option float
}.

(** [cudnn_frontend::OperationGraph]. *)
Record OperationGraph : Set := mkOperationGraph {
  og_handle : cudnnHandle_t;
  og_operations : list Operation;
  getTag : string
}.

(** [cudnn_frontend::ExecutionPlan]. *)
Record ExecutionPlan : Set := mkExecutionPlan {
  plan_handle : cudnnHandle_t;
  plan_engine_config : cudnnBackendDescriptor_t;
  plan_tag : string;
  getWorkspaceSize : Z
}.

(** [cudnn_frontend::VariantPack]; [None] is the null workspace pointer. *)
Record VariantPack : Set := mkVariantPack {
  pack_workspace : option CUdeviceptr;
  pack_data_pointers : list CUdeviceptr;
  pack_uids : list Z
}.

(** [iree_hal_buffer_t]: what [GetDevicePointers] reads of a buffer. *)
Inductive iree_hal_cuda_buffer_type_t : Set :=
| IREE_HAL_CUDA_BUFFER_TYPE_DEVICE
| IREE_HAL_CUDA_BUFFER_TYPE_HOST.

#[global] Instance iree_hal_cuda_buffer_type_eq_dec :
  EqDecision iree_hal_cuda_buffer_type_t.
Proof. solve_decision. Defined.

Record iree_hal_buffer_t : Set := mkBuffer {
  iree_hal_cuda_buffer_type : iree_hal_cuda_buffer_type_t;
  iree_hal_cuda_buffer_device_pointer : CUdeviceptr;
  iree_hal_buffer_byte_offset : Z
}.

(** ** The backend

    [openxla_cudnn_dynamic_symbols_t] is the table of cuDNN entry points.
    Each entry is a function of the descriptor it is given: the status a
    [build()] finishes with, the candidates of the heuristics, the
    workspace a plan asks for, the status of a dispatch. *)
Record openxla_cudnn_dynamic_symbols_t : Type := mkSymbols {
  tensor_status : Tensor -> cudnnStatus_t;
  pointwise_desc_status : PointWiseDesc -> cudnnStatus_t;
  conv_desc_status : ConvDesc -> cudnnStatus_t;
  operation_status : Operation -> cudnnStatus_t;
  operation_graph_status : cudnnHandle_t -> list Operation -> cudnnStatus_t;
  operation_graph_tag : list Operation -> string;
  get_heuristics_list :
    list string -> OperationGraph -> (cudnnBackendDescriptor_t -> bool) ->
    list cudnnStatus_t * list cudnnBackendDescriptor_t;
  execution_plan_status :
    cudnnHandle_t -> cudnnBackendDescriptor_t -> string -> cudnnStatus_t;
  execution_plan_workspace_size :
    cudnnHandle_t -> cudnnBackendDescriptor_t -> string -> Z;
  variant_pack_status : VariantPack -> cudnnStatus_t;
  cudnnBackendExecute :
    cudnnHandle_t -> ExecutionPlan -> VariantPack -> cudnnStatus_t;
  cudnnGetErrorString : cudnnStatus_t -> string
}.

(** Calls that leave this file, in the order they are made. *)
Inductive Event : Type :=
| EvTensorBuild (t : Tensor)
| EvPointWiseDescBuild (d : PointWiseDesc)
| EvConvDescBuild (d : ConvDesc)
| EvOperationBuild (op : Operation)
| EvOperationGraphBuild (handle : cudnnHandle_t) (ops : list Operation)
| EvHeuristics (modes : list string) (graph : OperationGraph)
| EvExecutionPlanBuild (handle : cudnnHandle_t)
    (config : cudnnBackendDescriptor_t) (tag : string)
| EvDevicePointer (buffer : iree_hal_buffer_t)
| EvVariantPackBuild (pack : VariantPack)
| EvBackendExecute (handle : cudnnHandle_t) (plan : ExecutionPlan)
    (pack : VariantPack).

(** ** Tensors of the graph and the heap they live in *)

(** A [CuDNNTensor*]. *)
Abbreviation ptr := nat (only parsing).

(** [CuDNNTensor] with its two kinds, [Kind::kArg] and [Kind::kOpResult].
    [inputs_] holds references to the tensors the operation consumed. *)
Inductive CuDNNTensor : Set :=
| CuDNNArgTensor (tensor_ : Tensor)
| CuDNNOpResultTensor (inputs_ : list ptr) (operation_ : Operation)
    (tensor_ : Tensor).

Definition tensor (t : CuDNNTensor) : Tensor :=
  match t with
  | CuDNNArgTensor tensor_ => tensor_
  | CuDNNOpResultTensor _ _ tensor_ => tensor_
  end.

Definition inputs (t : CuDNNTensor) : list ptr :=
  match t with
  | CuDNNArgTensor _ => []
  | CuDNNOpResultTensor inputs_ _ _ => inputs_
  end.

Record State : Type := mkState {
  heap : list CuDNNTensor;
  backend_log : list Event
}.

(** ** The monad of the runtime: state and [Result] *)

Definition M (A : Type) : Type := State -> Result A * State.

#[global] Instance M_ret : MRet M := fun A a s => (Ok a, s).

#[global] Instance M_bind : MBind M := fun A B f m s =>
  match m s with
  | (Ok a, s') => f a s'
  | (Failed e, s') => (Failed e, s')
  | (AssertionFailure a, s') => (AssertionFailure a, s')
  | (UndefinedBehaviour, s') => (UndefinedBehaviour, s')
  | (OutOfFuel, s') => (OutOfFuel, s')
  end.

Definition fail {A : Type} (e : Status) : M A := fun s => (Failed e, s).
Definition abort {A : Type} (a : Assertion) : M A :=
  fun s => (AssertionFailure a, s).
Definition undefined {A : Type} : M A := fun s => (UndefinedBehaviour, s).
Definition lift {A : Type} (r : Result A) : M A := fun s => (r, s).

Definition emit (e : Event) : M unit :=
  fun s => (Ok tt, mkState (heap s) (backend_log s ++ [e])).

(** [new T(...)] wrapped in a [vm::ref]. *)
Definition new (t : CuDNNTensor) : M ptr :=
  fun s => (Ok (length (heap s)), mkState (heap s ++ [t]) (backend_log s)).

(** Use of a [CuDNNTensor&]: a reference to no live object is undefined. *)
Definition deref (p : ptr) : M CuDNNTensor :=
  fun s => match heap s !! p with
           | Some t => (Ok t, s)
           | None => (UndefinedBehaviour, s)
           end.

(** Modelled from the spec: [IREE_ASSERT] and [IREE_ASSERT_EQ] of
    [iree/base/assert.h]; a failed assertion is fatal, the call aborts
    instead of returning an error. *)
Definition IREE_ASSERT (site : Assertion) (condition : bool) : M unit :=
  if condition then mret tt else abort site.

(** [IREE_RETURN_IF_ERROR]: [None] is [iree_ok_status()]. *)
Definition IREE_RETURN_IF_ERROR (status : option Status) : M unit :=
  match status with
  | None => mret tt
  | Some e => fail e
  end.

(** Modelled from the spec: [CUDNN_CONVERT_STATUS] of [status_util.h]; a
    backend status other than success becomes an internal error carrying
    the backend's message. *)
Definition CUDNN_CONVERT_STATUS (syms : openxla_cudnn_dynamic_symbols_t)
    (status : cudnnStatus_t) : option Status :=
  match status with
  | CUDNN_STATUS_SUCCESS => None
  | _ => Some (iree_make_status IREE_STATUS_INTERNAL
                 (cudnnGetErrorString syms status))
  end.

(** Modelled from the spec: [CUDNN_RETURN_IF_ERROR] of [status_util.h]. *)
Definition CUDNN_RETURN_IF_ERROR (syms : openxla_cudnn_dynamic_symbols_t)
    (status : cudnnStatus_t) (what : string) : M unit :=
  IREE_RETURN_IF_ERROR (CUDNN_CONVERT_STATUS syms status).

(** ** Builders of [cudnn_frontend]

    A builder is the descriptor under construction, a setter replaces one
    field, and [build] hands the descriptor to the backend. The status the
    backend finishes the build with is read through [syms]. *)

Notation "b |> f" := (f b) (at level 45, left associativity, only parsing).

Module TensorBuilder.
Definition init : Tensor := mkTensor [] [] (-1) (-1) CUDNN_DATA_FLOAT false.
Definition setDim (dims : list Z) (b : Tensor) : Tensor :=
  mkTensor dims (getStride b) (getId b) (getAlignment b) (getDataType b)
    (isVirtual b).
Definition setStride (strides : list Z) (b : Tensor) : Tensor :=
  mkTensor (getDim b) strides (getId b) (getAlignment b) (getDataType b)
    (isVirtual b).
Definition setId (uid : Z) (b : Tensor) : Tensor :=
  mkTensor (getDim b) (getStride b) uid (getAlignment b) (getDataType b)
    (isVirtual b).
Definition setAlignment (alignment : Z) (b : Tensor) : Tensor :=
  mkTensor (getDim b) (getStride b) (getId b) alignment (getDataType b)
    (isVirtual b).
Definition setDataType (dtype : cudnnDataType_t) (b : Tensor) : Tensor :=
  mkTensor (getDim b) (getStride b) (getId b) (getAlignment b) dtype
    (isVirtual b).
Definition setVirtual (is_virtual : bool) (b : Tensor) : Tensor :=
  mkTensor (getDim b) (getStride b) (getId b) (getAlignment b)
    (getDataType b) is_virtual.
(** [cloneFrom(from, id)] copies every field of [from] and gives the
    copy the id [id]. *)
Definition cloneFrom (from : Tensor) (id : Z) (b : Tensor) : Tensor :=
  mkTensor (getDim from) (getStride from) id (getAlignment from)
    (getDataType from) (isVirtual from).
Definition build (b : Tensor) : M Tensor :=
  emit (EvTensorBuild b);; mret b.
End TensorBuilder.

Module PointWiseDescBuilder.
Definition init : PointWiseDesc := mkPointWiseDesc None None None.
Definition setMode (mode : cudnnPointwiseMode_t) (b : PointWiseDesc)
    : PointWiseDesc :=
  mkPointWiseDesc (Some mode) (pw_compute_type b) (pw_clipping b).
Definition setComputeType (dtype : cudnnDataType_t) (b : PointWiseDesc)
    : PointWiseDesc :=
  mkPointWiseDesc (pw_mode b) (Some dtype) (pw_clipping b).
Definition setClipping (lower upper : float) (b : PointWiseDesc)
    : PointWiseDesc :=
  mkPointWiseDesc (pw_mode b) (pw_compute_type b) (Some (lower, upper)).
Definition build (b : PointWiseDesc) : M PointWiseDesc :=
  emit (EvPointWiseDescBuild b);; mret b.
End PointWiseDescBuilder.

Module ConvDescBuilder.
Definition init : ConvDesc := mkConvDesc None None 0 [] [] [] [].
Definition setComputeType (dtype : cudnnDataType_t) (b : ConvDesc) : ConvDesc :=
  mkConvDesc (Some dtype) (conv_math_mode b) (conv_spatial_dim_count b)
    (conv_spatial_stride b) (conv_pre_padding b) (conv_post_padding b)
    (conv_dilation b).
Definition setMathMode (mode : cudnnConvolutionMode_t) (b : ConvDesc) : ConvDesc :=
  mkConvDesc (conv_compute_type b) (Some mode) (conv_spatial_dim_count b)
    (conv_spatial_stride b) (conv_pre_padding b) (conv_post_padding b)
    (conv_dilation b).
Definition setSpatialDimCount (n : Z) (b : ConvDesc) : ConvDesc :=
  mkConvDesc (conv_compute_type b) (conv_math_mode b) n
    (conv_spatial_stride b) (conv_pre_padding b) (conv_post_padding b)
    (conv_dilation b).
Definition setSpatialStride (strides : list Z) (b : ConvDesc) : ConvDesc :=
  mkConvDesc (conv_compute_type b) (conv_math_mode b)
    (conv_spatial_dim_count b) strides (conv_pre_padding b)
    (conv_post_padding b) (conv_dilation b).
Definition setPrePadding (paddings : list Z) (b : ConvDesc) : ConvDesc :=
  mkConvDesc (conv_compute_type b) (conv_math_mode b)
    (conv_spatial_dim_count b) (conv_spatial_stride b) paddings
    (conv_post_padding b) (conv_dilation b).
Definition setPostPadding (paddings : list Z) (b : ConvDesc) : ConvDesc :=
  mkConvDesc (conv_compute_type b) (conv_math_mode b)
    (conv_spatial_dim_count b) (conv_spatial_stride b) (conv_pre_padding b)
    paddings (conv_dilation b).
Definition setDilation (dilations : list Z) (b : ConvDesc) : ConvDesc :=
  mkConvDesc (conv_compute_type b) (conv_math_mode b)
    (conv_spatial_dim_count b) (conv_spatial_stride b) (conv_pre_padding b)
    (conv_post_padding b) dilations.
Definition build (b : ConvDesc) : M ConvDesc :=
  emit (EvConvDescBuild b);; mret b.
End ConvDescBuilder.

Module OperationBuilder.
Definition init (type : cudnnBackendDescriptorType_t) : Operation :=
  mkOperation type None None None None None None None None None.
Definition setxDesc (t : Tensor) (b : Operation) : Operation :=
  mkOperation (op_type b) (Some t) (op_bDesc b) (op_wDesc b) (op_yDesc b)
    (op_pwDesc b) (op_cDesc b) (op_alpha b) (op_alpha2 b) (op_beta b).
Definition setbDesc (t : Tensor) (b : Operation) : Operation :=
  mkOperation (op_type b) (op_xDesc b) (Some t) (op_wDesc b) (op_yDesc b)
    (op_pwDesc b) (op_cDesc b) (op_alpha b) (op_alpha2 b) (op_beta b).
Definition setwDesc (t : Tensor) (b : Operation) : Operation :=
  mkOperation (op_type b) (op_xDesc b) (op_bDesc b) (Some t) (op_yDesc b)
    (op_pwDesc b) (op_cDesc b) (op_alpha b) (op_alpha2 b) (op_beta b).
Definition setyDesc (t : Tensor) (b : Operation) : Operation :=
  mkOperation (op_type b) (op_xDesc b) (op_bDesc b) (op_wDesc b) (Some t)
    (op_pwDesc b) (op_cDesc b) (op_alpha b) (op_alpha2 b) (op_beta b).
Definition setpwDesc (d : PointWiseDesc) (b : Operation) : Operation :=
  mkOperation (op_type b) (op_xDesc b) (op_bDesc b) (op_wDesc b) (op_yDesc b)
    (Some d) (op_cDesc b) (op_alpha b) (op_alpha2 b) (op_beta b).
Definition setcDesc (d : ConvDesc) (b : Operation) : Operation :=
  mkOperation (op_type b) (op_xDesc b) (op_bDesc b) (op_wDesc b) (op_yDesc b)
    (op_pwDesc b) (Some d) (op_alpha b) (op_alpha2 b) (op_beta b).
Definition setAlpha (a : float) (b : Operation) : Operation :=
  mkOperation (op_type b) (op_xDesc b) (op_bDesc b) (op_wDesc b) (op_yDesc b)
    (op_pwDesc b) (op_cDesc b) (Some a) (op_alpha2 b) (op_beta b).
Definition setAlpha2 (a : float) (b : Operation) : Operation :=
  mkOperation (op_type b) (op_xDesc b) (op_bDesc b) (op_wDesc b) (op_yDesc b)
    (op_pwDesc b) (op_cDesc b) (op_alpha b) (Some a) (op_beta b).
Definition setBeta (a : float) (b : Operation) : Operation :=
  mkOperation (op_type b) (op_xDesc b) (op_bDesc b) (op_wDesc b) (op_yDesc b)
    (op_pwDesc b) (op_cDesc b) (op_alpha b) (op_alpha2 b) (Some a).
Definition build (b : Operation) : M Operation :=
  emit (EvOperationBuild b);; mret b.
End OperationBuilder.

(** [GetChannelsLastStrides]: the rank assertion, then the strides. *)
Definition GetChannelsLastStrides (dims : list Z) : M (list Z) :=
  IREE_ASSERT AssertChannelsLastRank
    ((length dims =? 4)%nat || (length dims =? 5)%nat);;
  mret (channels_last_strides dims).

(** ** Wrappers around cuDNN APIs exported to the user *)

Definition CreateTensor (syms : openxla_cudnn_dynamic_symbols_t)
    (dims strides : list Z) (uid : Z) (dtype : cudnnDataType_t)
    (alignment : Z) : M ptr :=
  result ← TensorBuilder.build
    (TensorBuilder.init
       |> TensorBuilder.setDim dims
       |> TensorBuilder.setStride strides
       |> TensorBuilder.setId uid
       |> TensorBuilder.setAlignment alignment
       |> TensorBuilder.setDataType dtype);
  IREE_RETURN_IF_ERROR (CUDNN_CONVERT_STATUS syms (tensor_status syms result));;
  new (CuDNNArgTensor result).

Definition CreatePointwiseRelu (syms : openxla_cudnn_dynamic_symbols_t)
    (input : ptr) (lower_clip upper_clip : float) (uid alignment : Z)
    (is_virtual : bool) : M ptr :=
  input_ ← deref input;
  (* Prepare tensor descriptor for activation output. *)
  result ← TensorBuilder.build
    (TensorBuilder.init
       |> TensorBuilder.cloneFrom (tensor input_) uid
       |> TensorBuilder.setAlignment alignment
       |> TensorBuilder.setVirtual is_virtual);
  IREE_RETURN_IF_ERROR (CUDNN_CONVERT_STATUS syms (tensor_status syms result));;
  (* Prepare activation descriptor. *)
  activation ← PointWiseDescBuilder.build
    (PointWiseDescBuilder.init
       |> PointWiseDescBuilder.setMode CUDNN_POINTWISE_RELU_FWD
       |> PointWiseDescBuilder.setClipping lower_clip upper_clip);
  IREE_RETURN_IF_ERROR
    (CUDNN_CONVERT_STATUS syms (pointwise_desc_status syms activation));;
  (* Create operation. *)
  operation ← OperationBuilder.build
    (OperationBuilder.init CUDNN_BACKEND_OPERATION_POINTWISE_DESCRIPTOR
       |> OperationBuilder.setxDesc (tensor input_)
       |> OperationBuilder.setyDesc result
       |> OperationBuilder.setpwDesc activation);
  IREE_RETURN_IF_ERROR
    (CUDNN_CONVERT_STATUS syms (operation_status syms operation));;
  new (CuDNNOpResultTensor [input] operation result).

Definition CreatePointwiseUnary (syms : openxla_cudnn_dynamic_symbols_t)
    (mode : cudnnPointwiseMode_t) (x : ptr) (alpha : float)
    (uid alignment : Z) (is_virtual : bool) : M ptr :=
  x_ ← deref x;
  (* Prepare tensor descriptor for the output. *)
  result ← TensorBuilder.build
    (TensorBuilder.init
       |> TensorBuilder.cloneFrom (tensor x_) uid
       |> TensorBuilder.setAlignment alignment
       |> TensorBuilder.setVirtual is_virtual);
  IREE_RETURN_IF_ERROR (CUDNN_CONVERT_STATUS syms (tensor_status syms result));;
  (* Prepare an operation descriptor. *)
  desc ← PointWiseDescBuilder.build
    (PointWiseDescBuilder.init
       |> PointWiseDescBuilder.setMode mode
       |> PointWiseDescBuilder.setComputeType CUDNN_DATA_FLOAT);
  IREE_RETURN_IF_ERROR
    (CUDNN_CONVERT_STATUS syms (pointwise_desc_status syms desc));;
  (* Create a pointwise operation. *)
  operation ← OperationBuilder.build
    (OperationBuilder.init CUDNN_BACKEND_OPERATION_POINTWISE_DESCRIPTOR
       |> OperationBuilder.setxDesc (tensor x_)
       |> OperationBuilder.setyDesc result
       |> OperationBuilder.setpwDesc desc
       |> OperationBuilder.setAlpha alpha);
  IREE_RETURN_IF_ERROR
    (CUDNN_CONVERT_STATUS syms (operation_status syms operation));;
  new (CuDNNOpResultTensor [x] operation result).

Definition CreatePointwiseBinary (syms : openxla_cudnn_dynamic_symbols_t)
    (mode : cudnnPointwiseMode_t) (x : ptr) (alpha : float) (b : ptr)
    (alpha2 : float) (uid alignment : Z) (is_virtual : bool) : M ptr :=
  x_ ← deref x;
  b_ ← deref b;
  (* Prepare tensor descriptor for the output. *)
  result ← TensorBuilder.build
    (TensorBuilder.init
       |> TensorBuilder.cloneFrom (tensor x_) uid
       |> TensorBuilder.setAlignment alignment
       |> TensorBuilder.setVirtual is_virtual);
  IREE_RETURN_IF_ERROR (CUDNN_CONVERT_STATUS syms (tensor_status syms result));;
  (* Prepare an operation descriptor. *)
  desc ← PointWiseDescBuilder.build
    (PointWiseDescBuilder.init
       |> PointWiseDescBuilder.setMode mode
       |> PointWiseDescBuilder.setComputeType CUDNN_DATA_FLOAT);
  IREE_RETURN_IF_ERROR
    (CUDNN_CONVERT_STATUS syms (pointwise_desc_status syms desc));;
  (* Create a pointwise operation. *)
  operation ← OperationBuilder.build
    (OperationBuilder.init CUDNN_BACKEND_OPERATION_POINTWISE_DESCRIPTOR
       |> OperationBuilder.setxDesc (tensor x_)
       |> OperationBuilder.setbDesc (tensor b_)
       |> OperationBuilder.setyDesc result
       |> OperationBuilder.setpwDesc desc
       |> OperationBuilder.setAlpha alpha
       |> OperationBuilder.setAlpha2 alpha2);
  IREE_RETURN_IF_ERROR
    (CUDNN_CONVERT_STATUS syms (operation_status syms operation));;
  new (CuDNNOpResultTensor [x; b] operation result).

(** *** CreateConvolution *)

Definition GetFwdConvDilatedFilterDim (filter_dim dilation : Z) : Z :=
  Int64.add (Int64.mul (Int64.sub filter_dim 1) dilation) 1.

Definition GetFwdConvPaddedImageDim (tensor_dim padding : Z) : Z :=
  Int64.add tensor_dim (Int64.mul 2 padding).

Definition GetFwdConvOutputDim
    (tensor_dim padding filter_dim stride dilation : Z) : Z :=
  let padded := GetFwdConvPaddedImageDim tensor_dim padding in
  let dilated := GetFwdConvDilatedFilterDim filter_dim dilation in
  Int64.add (Int64.div (Int64.sub padded dilated) stride) 1.

Definition kSpatialDims : nat := 2.

Definition CreateConvolution (syms : openxla_cudnn_dynamic_symbols_t)
    (input filter : ptr) (uid alignment : Z) (is_virtual : bool)
    (mode : cudnnConvolutionMode_t) : M ptr :=
  input_ ← deref input;
  filter_ ← deref filter;
  let input_dims := getDim (tensor input_) in
  let filter_dims := getDim (tensor filter_) in
  if negb (length input_dims =? 4)%nat then
    fail (iree_make_status IREE_STATUS_INVALID_ARGUMENT
            "3d convolution is not supported")
  else if negb (length input_dims =? length filter_dims)%nat then
    fail (iree_make_status IREE_STATUS_INVALID_ARGUMENT
            "convolution input and filter must have the same rank")
  else
    let paddings := [0; 0] in
    let strides := [1; 1] in
    let dilations := [1; 1] in
    (* Compute convolution output dimensions. *)
    let output_dims :=
      foldl
        (fun output_dims d =>
           output_dims ++
           [GetFwdConvOutputDim (input_dims !!! (d + 2)%nat) (paddings !!! d)
              (filter_dims !!! (d + 2)%nat) (strides !!! d) (dilations !!! d)])
        [input_dims !!! 0%nat; input_dims !!! 1%nat]
        (seq 0 kSpatialDims) in
    (* Compute strides for output tensor based on input format. *)
    let is_nhwc := getStride (tensor input_) !!! 1%nat =? 1 in
    output_strides ←
      (if is_nhwc then GetChannelsLastStrides output_dims
       else mret (GetRowMajorStrides output_dims));
    (* Prepare tensor descriptor for convolution output. *)
    result ← TensorBuilder.build
      (TensorBuilder.init
         |> TensorBuilder.cloneFrom (tensor input_) uid
         |> TensorBuilder.setAlignment alignment
         |> TensorBuilder.setDim output_dims
         |> TensorBuilder.setStride output_strides
         |> TensorBuilder.setVirtual is_virtual);
    IREE_RETURN_IF_ERROR
      (CUDNN_CONVERT_STATUS syms (tensor_status syms result));;
    (* Prepare a forward convolution descriptor. *)
    convolution ← ConvDescBuilder.build
      (ConvDescBuilder.init
         |> ConvDescBuilder.setComputeType CUDNN_DATA_FLOAT
         |> ConvDescBuilder.setMathMode mode
         |> ConvDescBuilder.setSpatialDimCount (Z.of_nat kSpatialDims)
         |> ConvDescBuilder.setSpatialStride strides
         |> ConvDescBuilder.setPrePadding paddings
         |> ConvDescBuilder.setPostPadding paddings
         |> ConvDescBuilder.setDilation dilations);
    IREE_RETURN_IF_ERROR
      (CUDNN_CONVERT_STATUS syms (conv_desc_status syms convolution));;
    (* Create operation. *)
    operation ← OperationBuilder.build
      (OperationBuilder.init
         CUDNN_BACKEND_OPERATION_CONVOLUTION_FORWARD_DESCRIPTOR
         |> OperationBuilder.setxDesc (tensor input_)
         |> OperationBuilder.setwDesc (tensor filter_)
         |> OperationBuilder.setyDesc result
         |> OperationBuilder.setcDesc convolution
         |> OperationBuilder.setAlpha 1%float
         |> OperationBuilder.setBeta 0%float);
    IREE_RETURN_IF_ERROR
      (CUDNN_CONVERT_STATUS syms (operation_status syms operation));;
    new (CuDNNOpResultTensor [input; filter] operation result).

(** ** CreateOperationGraph *)

(** [DynCast<CuDNNArgTensor>] and [DynCast<CuDNNOpResultTensor>]: the
    tensor when its kind matches, nothing otherwise. *)
Definition DynCast_CuDNNArgTensor (t : CuDNNTensor) : option Tensor :=
  match t with
  | CuDNNArgTensor tensor_ => Some tensor_
  | CuDNNOpResultTensor _ _ _ => None
  end.

Definition DynCast_CuDNNOpResultTensor (t : CuDNNTensor)
    : option (list ptr * Operation * Tensor) :=
  match t with
  | CuDNNArgTensor _ => None
  | CuDNNOpResultTensor inputs_ operation_ tensor_ =>
      Some (inputs_, operation_, tensor_)
  end.

(** A [const cudnn_frontend::Operation*]. [operation()] returns the address
    of the [operation_] member of a [CuDNNOpResultTensor]; it is given here
    by the address of the tensor that owns the operation. *)
Abbreviation operation_ptr := nat (only parsing).

(** The [while (!worklist.empty())] loop. The work-list is a vector used as
    a stack: its back is the last element of the list. [args] is the
    [std::unordered_set<CuDNNTensor*>], [ops] the vector of operations.
    [fuel] bounds the number of iterations; the loop of the source has no
    such bound, and [worklist_loop_terminates] shows that none is needed on
    a heap built by the constructors. *)
Fixpoint worklist_loop (fuel : nat) (h : list CuDNNTensor)
    (worklist : list ptr) (args : gset ptr) (ops : list operation_ptr)
    : Result (gset ptr * list operation_ptr) :=
  match last worklist with
  | None => Ok (args, ops)
  | Some p =>
      match fuel with
      | O => OutOfFuel
      | S fuel =>
          let worklist := removelast worklist in
          match h !! p with
          | None => UndefinedBehaviour
          | Some t =>
              (* Operation graph argument that must be passed as input. *)
              let args :=
                match DynCast_CuDNNArgTensor t with
                | Some _ => {[p]} ∪ args
                | None => args
                end in
              (* Add cudnn_frontend operation and follow inputs. *)
              match DynCast_CuDNNOpResultTensor t with
              | Some (inputs_, _, _) =>
                  worklist_loop fuel h (worklist ++ inputs_) args (ops ++ [p])
              | None => worklist_loop fuel h worklist args ops
              end
          end
      end
  end.

(** Iteration over a [std::unordered_set] visits every element once, in an
    order the standard leaves open. *)
Record unordered_set_order : Type := mk_unordered_set_order {
  iterate : gset ptr -> list ptr;
  iterate_perm : forall s : gset ptr, iterate s ≡ₚ elements s
}.

(** [std::sort] with a comparator. The standard fixes the result up to the
    order of elements the comparator does not separate; insertion into a
    sorted prefix is one such sort. *)
Fixpoint sort_insert {A : Type} (comp : A -> A -> bool) (x : A) (l : list A)
    : list A :=
  match l with
  | [] => [x]
  | y :: l' => if comp x y then x :: y :: l' else y :: sort_insert comp x l'
  end.

Definition std_sort {A : Type} (comp : A -> A -> bool) (l : list A) : list A :=
  foldr (sort_insert comp) [] l.

(** [a->tensor().getId()] for a tensor of the heap. *)
Definition tensor_id (h : list CuDNNTensor) (p : ptr) : Z :=
  match h !! p with
  | Some t => getId (tensor t)
  | None => 0
  end.

Module OperationGraphBuilder.
Definition build (syms : openxla_cudnn_dynamic_symbols_t)
    (handle : cudnnHandle_t) (ops : list Operation) : M OperationGraph :=
  emit (EvOperationGraphBuild handle ops);;
  mret (mkOperationGraph handle ops (operation_graph_tag syms ops)).
End OperationGraphBuilder.

(** [CuDNNOperationGraph]. *)
Record CuDNNOperationGraph : Type := mkCuDNNOperationGraph {
  og_syms_ : openxla_cudnn_dynamic_symbols_t;
  og_graph_ : OperationGraph;
  args_ : list ptr;
  rets_ : list ptr;
  uids_ : list Z
}.

(** The two loops of the constructor: retain each tensor and record its id. *)
Fixpoint retain_all (tensors : list ptr) (refs : list ptr) (uids : list Z)
    : M (list ptr * list Z) :=
  match tensors with
  | [] => mret (refs, uids)
  | t :: tensors' =>
      t_ ← deref t;
      retain_all tensors' (refs ++ [t]) (uids ++ [getId (tensor t_)])
  end.

Definition new_CuDNNOperationGraph (syms : openxla_cudnn_dynamic_symbols_t)
    (graph : OperationGraph) (args rets : list ptr) : M CuDNNOperationGraph :=
  '(args_, uids_) ← retain_all args [] [];
  '(rets_, uids_) ← retain_all rets [] uids_;
  mret (mkCuDNNOperationGraph syms graph args_ rets_ uids_).

(** Reading [ops.data()]: each pointer leads to the operation its tensor owns. *)
Definition operation_at (p : operation_ptr) : M Operation :=
  t ← deref p;
  match DynCast_CuDNNOpResultTensor t with
  | Some (_, operation_, _) => mret operation_
  | None => undefined
  end.

Definition the_heap : M (list CuDNNTensor) := fun s => (Ok (heap s), s).

Definition CreateOperationGraph (order : unordered_set_order) (fuel : nat)
    (syms : openxla_cudnn_dynamic_symbols_t) (handle : cudnnHandle_t)
    (rets : list ptr) : M CuDNNOperationGraph :=
  h ← the_heap;
  (* Traverse cuDNN tensor use-def chains starting from returned tensors. *)
  '(args, ops) ← lift (worklist_loop fuel h rets ∅ []);
  (* Reverse collected operations. *)
  let ops := reverse ops in
  (* Construct a cudnn_frontend operation graph. *)
  operations ← mapM operation_at ops;
  graph ← OperationGraphBuilder.build syms handle operations;
  IREE_RETURN_IF_ERROR
    (CUDNN_CONVERT_STATUS syms (operation_graph_status syms handle operations));;
  (* Sort arguments by id. *)
  let unique_args :=
    std_sort (fun a b => tensor_id h a <? tensor_id h b) (iterate order args) in
  new_CuDNNOperationGraph syms graph unique_args rets.

(** ** CreateExecutable *)

Definition AcceptAllGraphs (_ : cudnnBackendDescriptor_t) : bool := false.

Module ExecutionPlanBuilder.
Definition build (syms : openxla_cudnn_dynamic_symbols_t)
    (handle : cudnnHandle_t) (config : cudnnBackendDescriptor_t)
    (tag : string) : M ExecutionPlan :=
  emit (EvExecutionPlanBuild handle config tag);;
  mret (mkExecutionPlan handle config tag
          (execution_plan_workspace_size syms handle config tag)).
End ExecutionPlanBuilder.

Definition ExecutionPlan_get_status (syms : openxla_cudnn_dynamic_symbols_t)
    (plan : ExecutionPlan) : cudnnStatus_t :=
  execution_plan_status syms (plan_handle plan) (plan_engine_config plan)
    (plan_tag plan).

Definition is_success (s : cudnnStatus_t) : bool :=
  match s with
  | CUDNN_STATUS_SUCCESS => true
  | CUDNN_STATUS_FAILURE _ => false
  end.

(** [CuDNNExecutable]. *)
Record CuDNNExecutable : Type := mkCuDNNExecutable {
  exe_syms_ : openxla_cudnn_dynamic_symbols_t;
  exe_graph_ : CuDNNOperationGraph;
  plans_ : list ExecutionPlan
}.

(** [for (auto config : configs)] with its [continue] and [break]. *)
Fixpoint plan_loop (syms : openxla_cudnn_dynamic_symbols_t)
    (handle : cudnnHandle_t) (graph : CuDNNOperationGraph)
    (configs : list cudnnBackendDescriptor_t) (plans : list ExecutionPlan)
    : M (list ExecutionPlan) :=
  match configs with
  | [] => mret plans
  | config :: configs' =>
      plan ← ExecutionPlanBuilder.build syms handle config
               (getTag (og_graph_ graph));
      (* Skip engine configs that are not supported. *)
      if negb (is_success (ExecutionPlan_get_status syms plan)) then
        plan_loop syms handle graph configs' plans
      else
        (* Stop once the first supported plan is found. *)
        mret (plans ++ [plan])
  end.

Definition heuristics (syms : openxla_cudnn_dynamic_symbols_t)
    (modes : list string) (graph : OperationGraph)
    (filter : cudnnBackendDescriptor_t -> bool)
    : M (list cudnnStatus_t * list cudnnBackendDescriptor_t) :=
  emit (EvHeuristics modes graph);;
  mret (get_heuristics_list syms modes graph filter).

Definition CreateExecutable (syms : openxla_cudnn_dynamic_symbols_t)
    (handle : cudnnHandle_t) (graph : CuDNNOperationGraph)
    : M CuDNNExecutable :=
  (* Collect supported engine configs. *)
  '(statuses, configs) ←
    heuristics syms ["heuristics_mode_a"%string] (og_graph_ graph)
      AcceptAllGraphs;
  if bool_decide (configs = []) then
    fail (iree_make_status IREE_STATUS_INTERNAL
            "cuDNN operation graph is not supported")
  else
    (* Prepare execution plans for filtered engine configs. *)
    plans ← plan_loop syms handle graph configs [];
    if bool_decide (plans = []) then
      fail (iree_make_status IREE_STATUS_INTERNAL
              "didn't find any engine config supporting cuDNN operation graph")
    else
      mret (mkCuDNNExecutable syms graph plans).

(** ** CuDNNExecutable::Execute *)

(** [CUdeviceptr] is an unsigned 64-bit integer. *)
Definition deviceptr_add (a b : Z) : CUdeviceptr := (a + b) mod Int64.modulus.

(** Converts IREE HAL buffers to CUDA device pointers. *)
Fixpoint GetDevicePointers (buffers : list iree_hal_buffer_t)
    : M (list CUdeviceptr) :=
  match buffers with
  | [] => mret []
  | buffer :: buffers' =>
      emit (EvDevicePointer buffer);;
      IREE_ASSERT AssertBufferIsDevice
        (bool_decide (iree_hal_cuda_buffer_type buffer =
                      IREE_HAL_CUDA_BUFFER_TYPE_DEVICE));;
      ptrs ← GetDevicePointers buffers';
      mret (deviceptr_add (iree_hal_cuda_buffer_device_pointer buffer)
              (iree_hal_buffer_byte_offset buffer) :: ptrs)
  end.

Module VariantPackBuilder.
Definition init : VariantPack := mkVariantPack None [] [].
Definition setWorkspacePointer (workspace : option CUdeviceptr)
    (b : VariantPack) : VariantPack :=
  mkVariantPack workspace (pack_data_pointers b) (pack_uids b).
Definition setDataPointers (ptrs : list CUdeviceptr) (b : VariantPack)
    : VariantPack :=
  mkVariantPack (pack_workspace b) ptrs (pack_uids b).
Definition setUids (uids : list Z) (b : VariantPack) : VariantPack :=
  mkVariantPack (pack_workspace b) (pack_data_pointers b) uids.
Definition build (b : VariantPack) : M VariantPack :=
  emit (EvVariantPackBuild b);; mret b.
End VariantPackBuilder.

(** The call of [cudnnBackendExecute] through the symbol table. *)
Definition backend_execute (syms : openxla_cudnn_dynamic_symbols_t)
    (handle : cudnnHandle_t) (plan : ExecutionPlan) (pack : VariantPack)
    : M cudnnStatus_t :=
  emit (EvBackendExecute handle plan pack);;
  mret (cudnnBackendExecute syms handle plan pack).

(** [plans_[0]]: indexing an empty vector is undefined. *)
Definition plans_0 (plans : list ExecutionPlan) : M ExecutionPlan :=
  match plans with
  | plan :: _ => mret plan
  | [] => undefined
  end.

Definition Execute (self : CuDNNExecutable) (handle : cudnnHandle_t)
    (buffers : list iree_hal_buffer_t) : M unit :=
  let syms_ := exe_syms_ self in
  let graph_ := exe_graph_ self in
  (* Check that we have a buffer for every argument and result tensor. *)
  if negb (length buffers =? length (args_ graph_) + length (rets_ graph_))%nat
  then
    fail (iree_make_status IREE_STATUS_INVALID_ARGUMENT
            "number of buffer arguments doesn't match the number of graph arguments and results")
  else
    ptrs ← GetDevicePointers buffers;
    let uids := uids_ graph_ in
    IREE_ASSERT AssertPtrsMatchUids (length ptrs =? length uids)%nat;;
    plan ← plans_0 (plans_ self);
    IREE_ASSERT AssertNoWorkspace (getWorkspaceSize plan =? 0);;
    let workspace : option CUdeviceptr := None in
    (* Pack pointers to device buffers with unique tensor ids. *)
    pack ← VariantPackBuilder.build
      (VariantPackBuilder.init
         |> VariantPackBuilder.setWorkspacePointer workspace
         |> VariantPackBuilder.setDataPointers ptrs
         |> VariantPackBuilder.setUids uids);
    IREE_RETURN_IF_ERROR
      (CUDNN_CONVERT_STATUS syms_ (variant_pack_status syms_ pack));;
    status ← backend_execute syms_ handle plan pack;
    CUDNN_RETURN_IF_ERROR syms_ status "cudnnBackendExecute()";;
    mret tt.

(** * Vocabulary of the properties *)

(** ** Pointwise calls *)

(** The three pointwise constructors behind one call type. *)
Inductive PointwiseCall : Set :=
| Relu (input : ptr) (lower_clip upper_clip : float)
| Unary (mode : cudnnPointwiseMode_t) (x : ptr) (alpha : float)
| Binary (mode : cudnnPointwiseMode_t) (x : ptr) (alpha : float) (b : ptr)
    (alpha2 : float).

Definition first_input (c : PointwiseCall) : ptr :=
  match c with
  | Relu input _ _ => input
  | Unary _ x _ => x
  | Binary _ x _ _ _ => x
  end.

Definition call_inputs (c : PointwiseCall) : list ptr :=
  match c with
  | Relu input _ _ => [input]
  | Unary _ x _ => [x]
  | Binary _ x _ b _ => [x; b]
  end.

Definition CreatePointwise (syms : openxla_cudnn_dynamic_symbols_t)
    (c : PointwiseCall) (uid alignment : Z) (is_virtual : bool) : M ptr :=
  match c with
  | Relu input lower_clip upper_clip =>
      CreatePointwiseRelu syms input lower_clip upper_clip uid alignment
        is_virtual
  | Unary mode x alpha =>
      CreatePointwiseUnary syms mode x alpha uid alignment is_virtual
  | Binary mode x alpha b alpha2 =>
      CreatePointwiseBinary syms mode x alpha b alpha2 uid alignment is_virtual
  end.

(** [y] has the dims, strides and data type of [x], and the given id,
    alignment and virtual flag. *)
Definition clone_of (x : Tensor) (uid alignment : Z) (is_virtual : bool)
    (y : Tensor) : Prop :=
  y = mkTensor (getDim x) (getStride x) uid alignment (getDataType x) is_virtual.

(** ** Convolution outputs *)

(** The descriptor of the tensor a run returned, when it returned one. *)
Definition output_of (r : Result ptr * State) : option Tensor :=
  match r with
  | (Ok p, s) => tensor <$> heap s !! p
  | _ => None
  end.

(** The output dims as the specification words them: batch extent of the
    input, first extent of the filter, and the two spatial extents. *)
Definition spec_convolution_output_dims (input_dims filter_dims : list Z)
    : list Z :=
  [input_dims !!! 0%nat; filter_dims !!! 0%nat;
   input_dims !!! 2%nat - filter_dims !!! 2%nat + 1;
   input_dims !!! 3%nat - filter_dims !!! 3%nat + 1].

(** Row-major strides as the specification words them: the stride of a dim
    is the product of the extents of all later dims. *)
Fixpoint spec_row_major_strides (dims : list Z) : list Z :=
  match dims with
  | [] => []
  | _ :: later => foldr Z.mul 1 later :: spec_row_major_strides later
  end.

(** Channels-last strides of dims [[n; c; h; w]]: memory order n, h, w, c. *)
Definition spec_channels_last_strides (dims : list Z) : list Z :=
  match dims with
  | [n; c; h; w] => [h * w * c; 1; w * c; c]
  | _ => []
  end.

(** ** Compilation *)

Section CompilationTerms.

Variable syms : openxla_cudnn_dynamic_symbols_t.
Variable handle : cudnnHandle_t.
Variable graph : CuDNNOperationGraph.

(** The candidates of the heuristics, in ranked order. *)
Definition candidates : list cudnnBackendDescriptor_t :=
  snd (get_heuristics_list syms ["heuristics_mode_a"%string] (og_graph_ graph)
         AcceptAllGraphs).

(** The plan a candidate is built into, and whether its build validates. *)
Definition plan_of (config : cudnnBackendDescriptor_t) : ExecutionPlan :=
  mkExecutionPlan handle config (getTag (og_graph_ graph))
    (execution_plan_workspace_size syms handle config (getTag (og_graph_ graph))).

Definition validates (config : cudnnBackendDescriptor_t) : bool :=
  is_success (execution_plan_status syms handle config (getTag (og_graph_ graph))).

(** The state after the heuristics query and plan builds for [attempted]. *)
Definition after_attempts (s : State)
    (attempted : list cudnnBackendDescriptor_t) : State :=
  mkState (heap s)
    ((backend_log s ++
      [EvHeuristics ["heuristics_mode_a"%string] (og_graph_ graph)]) ++
     map (fun config =>
            EvExecutionPlanBuild handle config (getTag (og_graph_ graph)))
       attempted).

End CompilationTerms.

(** The symbol table with another answer to the workspace-size query. *)
Definition with_workspace_size (syms : openxla_cudnn_dynamic_symbols_t)
    (size : cudnnHandle_t -> cudnnBackendDescriptor_t -> string -> Z)
    : openxla_cudnn_dynamic_symbols_t :=
  mkSymbols (tensor_status syms) (pointwise_desc_status syms)
    (conv_desc_status syms) (operation_status syms)
    (operation_graph_status syms) (operation_graph_tag syms)
    (get_heuristics_list syms) (execution_plan_status syms) size
    (variant_pack_status syms) (cudnnBackendExecute syms)
    (cudnnGetErrorString syms).

(** A result with its value forgotten. *)
Definition outcome {A : Type} (r : Result A) : Result unit :=
  match r with
  | Ok _ => Ok tt
  | Failed e => Failed e
  | AssertionFailure a => AssertionFailure a
  | UndefinedBehaviour => UndefinedBehaviour
  | OutOfFuel => OutOfFuel
  end.

(** ** Execution *)

Definition is_device (buffer : iree_hal_buffer_t) : Prop :=
  iree_hal_cuda_buffer_type buffer = IREE_HAL_CUDA_BUFFER_TYPE_DEVICE.

Definition device_pointer (buffer : iree_hal_buffer_t) : CUdeviceptr :=
  deviceptr_add (iree_hal_cuda_buffer_device_pointer buffer)
    (iree_hal_buffer_byte_offset buffer).

Definition is_pointer_query (e : Event) : bool :=
  match e with
  | EvDevicePointer _ => true
  | _ => false
  end.

(** ** Reachability in the heap *)

Section GraphTerms.

Variable h : list CuDNNTensor.

Definition is_arg (p : ptr) : Prop :=
  exists tensor_, h !! p = Some (CuDNNArgTensor tensor_).

Definition is_op_result (p : ptr) : Prop :=
  exists inputs_ operation_ tensor_,
    h !! p = Some (CuDNNOpResultTensor inputs_ operation_ tensor_).

(** The tensors the operation of [p] consumed. *)
Definition inputs_at (p : ptr) : list ptr :=
  match h !! p with
  | Some t => inputs t
  | None => []
  end.

(** [p] is one of [roots] or is reached from one by input edges. *)
Inductive reachable (roots : list ptr) : ptr -> Prop :=
| reachable_root (p : ptr) : p ∈ roots -> reachable roots p
| reachable_input (p q : ptr) :
    reachable roots p -> q ∈ inputs_at p -> reachable roots q.

(** Every recorded operation has each producer of its inputs later in the
    list, or still waiting on the work-list. *)
Definition producers_pending (ops : list operation_ptr) (worklist : list ptr)
    : Prop :=
  forall (i : nat) (p q : ptr),
    ops !! i = Some p -> q ∈ inputs_at p -> is_op_result q ->
    (exists j, (i < j)%nat /\ ops !! j = Some q) \/ q ∈ worklist.

(** Inputs are references to tensors built earlier. *)
Definition heap_wf : Prop :=
  forall (p : ptr) (t : CuDNNTensor) (q : ptr),
    h !! p = Some t -> q ∈ inputs t -> (q < p)%nat.

End GraphTerms.

(** [o] is the operation owned by the result tensor at [p]. *)
Definition owns (h : list CuDNNTensor) (p : operation_ptr) (o : Operation)
    : Prop :=
  exists inputs_ tensor_, h !! p = Some (CuDNNOpResultTensor inputs_ o tensor_).

(** * Concrete backends, heaps and graphs *)

(** A backend whose builds all succeed but those of the plans: the
    heuristics return [configs], the plan of a config validates when
    [valid] says so and asks for a workspace of [size] bytes. *)
Definition test_backend (configs : list cudnnBackendDescriptor_t)
    (valid : cudnnBackendDescriptor_t -> bool)
    (size : cudnnBackendDescriptor_t -> Z) : openxla_cudnn_dynamic_symbols_t :=
  mkSymbols
    (fun _ => CUDNN_STATUS_SUCCESS) (fun _ => CUDNN_STATUS_SUCCESS)
    (fun _ => CUDNN_STATUS_SUCCESS) (fun _ => CUDNN_STATUS_SUCCESS)
    (fun _ _ => CUDNN_STATUS_SUCCESS) (fun _ => "graph"%string)
    (fun _ _ _ => ([CUDNN_STATUS_SUCCESS], configs))
    (fun _ config _ =>
       if valid config then CUDNN_STATUS_SUCCESS else CUDNN_STATUS_FAILURE 3000)
    (fun _ config _ => size config)
    (fun _ => CUDNN_STATUS_SUCCESS) (fun _ _ _ => CUDNN_STATUS_SUCCESS)
    (fun _ => "cuDNN error"%string).

Definition accepting_backend : openxla_cudnn_dynamic_symbols_t :=
  test_backend [7; 8] (fun _ => true) (fun _ => 0).

(** Three candidates: the first does not validate, the second validates and
    asks for a workspace, the third validates and asks for none. *)
Definition picky_backend : openxla_cudnn_dynamic_symbols_t :=
  test_backend [7; 8; 9] (fun config => negb (config =? 7))
    (fun config => if config =? 8 then 1024 else 0).

Definition hash_order : unordered_set_order :=
  mk_unordered_set_order elements (fun s => Permutation_refl (elements s)).

(** An iteration order opposite to that of [hash_order]. *)
Definition reversed_hash_order : unordered_set_order :=
  mk_unordered_set_order (fun s => reverse (elements s))
    (fun s => reverse_Permutation (elements s)).

Definition empty_state : State := mkState [] [].

(** Declares an input of dims [1, 3, 8, 8] with the given strides and a
    filter of dims [4, 3, 3, 3], and convolves them. *)
Definition convolution_1388_4333 (syms : openxla_cudnn_dynamic_symbols_t)
    (input_strides : list Z) : M ptr :=
  input ← CreateTensor syms [1; 3; 8; 8] input_strides 1 CUDNN_DATA_FLOAT 32;
  filter ← CreateTensor syms [4; 3; 3; 3] [27; 9; 3; 1] 2 CUDNN_DATA_FLOAT 32;
  CreateConvolution syms input filter 3 32 false CUDNN_CROSS_CORRELATION.

(** A heap with a rank-5 input, a rank-5 filter, a rank-4 input and a
    rank-3 filter. *)
Definition ranks_state : State :=
  mkState
    [CuDNNArgTensor (mkTensor [1; 3; 8; 8; 8] [1536; 512; 64; 8; 1] 1 32
                       CUDNN_DATA_FLOAT false);
     CuDNNArgTensor (mkTensor [4; 3; 3; 3; 3] [81; 27; 9; 3; 1] 2 32
                       CUDNN_DATA_FLOAT false);
     CuDNNArgTensor (mkTensor [1; 3; 8; 8] [192; 64; 8; 1] 3 32
                       CUDNN_DATA_FLOAT false);
     CuDNNArgTensor (mkTensor [4; 3; 3] [9; 3; 1] 4 32
                       CUDNN_DATA_FLOAT false)]
    [].

(** A heap with two arguments of different shapes. *)
Definition two_shapes_state : State :=
  mkState
    [CuDNNArgTensor (mkTensor [1; 3; 8; 8] [192; 64; 8; 1] 1 32
                       CUDNN_DATA_FLOAT false);
     CuDNNArgTensor (mkTensor [1; 3; 1; 1] [3; 1; 1; 1] 2 16
                       (CUDNN_DATA_TYPE 2) true)]
    [].

(** A graph with two arguments and one return, as the constructor of
    [CuDNNOperationGraph] leaves it. *)
Definition small_graph (syms : openxla_cudnn_dynamic_symbols_t)
    : CuDNNOperationGraph :=
  mkCuDNNOperationGraph syms (mkOperationGraph 1 [] "graph") [1%nat; 0%nat]
    [2%nat] [5; 11; 20].

Definition device_buffer (pointer offset : Z) : iree_hal_buffer_t :=
  mkBuffer IREE_HAL_CUDA_BUFFER_TYPE_DEVICE pointer offset.

(** An executable whose only plan asks for a workspace of 1024 bytes, and
    one whose only plan asks for none. *)
Definition workspace_executable : CuDNNExecutable :=
  mkCuDNNExecutable picky_backend (small_graph picky_backend)
    [mkExecutionPlan 1 8 "graph" 1024].

Definition plain_executable : CuDNNExecutable :=
  mkCuDNNExecutable accepting_backend (small_graph accepting_backend)
    [mkExecutionPlan 1 7 "graph" 0].

(** A heap of two arguments (ids 11 and 5), their convolution (id 20), its
    ReLU (id 21) and the sum of the ReLU and the convolution (id 22). *)
Definition diamond_program : M ptr :=
  x ← CreateTensor accepting_backend [1; 3; 8; 8] [192; 64; 8; 1] 11
        CUDNN_DATA_FLOAT 32;
  w ← CreateTensor accepting_backend [3; 3; 3; 3] [27; 9; 3; 1] 5
        CUDNN_DATA_FLOAT 32;
  c ← CreateConvolution accepting_backend x w 20 32 true
        CUDNN_CROSS_CORRELATION;
  r ← CreatePointwiseRelu accepting_backend c 0%float 6%float 21 32 true;
  CreatePointwiseBinary accepting_backend (CUDNN_POINTWISE_MODE 0) r 1%float
    c 1%float 22 32 false.

Definition diamond_state : State :=
  Eval vm_compute in mkState (heap (snd (diamond_program empty_state))) [].

(** Two arguments declared with the same id 7, and their sum (id 9). *)
Definition same_id_program : M ptr :=
  x ← CreateTensor accepting_backend [1; 3; 8; 8] [192; 64; 8; 1] 7
        CUDNN_DATA_FLOAT 32;
  b ← CreateTensor accepting_backend [1; 3; 8; 8] [192; 64; 8; 1] 7
        CUDNN_DATA_FLOAT 32;
  CreatePointwiseBinary accepting_backend (CUDNN_POINTWISE_MODE 0) x 1%float
    b 1%float 9 32 false.

Definition same_id_state : State :=
  Eval vm_compute in mkState (heap (snd (same_id_program empty_state))) [].

(** * Vocabulary of the further properties *)

(** ** Calls of the constructors *)

(** The five constructors behind one call type. *)
Inductive ConstructorCall : Set :=
| TensorCall (dims strides : list Z) (uid : Z) (dtype : cudnnDataType_t)
    (alignment : Z)
| PointwiseOf (c : PointwiseCall) (uid alignment : Z) (is_virtual : bool)
| ConvolutionCall (input filter : ptr) (uid alignment : Z) (is_virtual : bool)
    (mode : cudnnConvolutionMode_t).

Definition construct (syms : openxla_cudnn_dynamic_symbols_t)
    (call : ConstructorCall) : M ptr :=
  match call with
  | TensorCall dims strides uid dtype alignment =>
      CreateTensor syms dims strides uid dtype alignment
  | PointwiseOf c uid alignment is_virtual =>
      CreatePointwise syms c uid alignment is_virtual
  | ConvolutionCall input filter uid alignment is_virtual mode =>
      CreateConvolution syms input filter uid alignment is_virtual mode
  end.

(** The tensors a call refers to. *)
Definition call_tensors (call : ConstructorCall) : list ptr :=
  match call with
  | TensorCall _ _ _ _ _ => []
  | PointwiseOf c _ _ _ => call_inputs c
  | ConvolutionCall input filter _ _ _ _ => [input; filter]
  end.

(** ** What a computation does to the state *)

(** The computation makes no backend call, however it ends. *)
Definition keeps_log {A : Type} (m : M A) : Prop :=
  forall s r s', m s = (r, s') -> backend_log s' = backend_log s.

(** The computation leaves the heap as it found it, however it ends. *)
Definition keeps_heap {A : Type} (m : M A) : Prop :=
  forall s r s', m s = (r, s') -> heap s' = heap s.

(** The computation allocates one tensor, at the next free address, when it
    returns a pointer, and leaves the heap as it found it otherwise. *)
Definition allocates_last (m : M ptr) : Prop :=
  forall s r s', m s = (r, s') ->
    match r with
    | Ok p => p = length (heap s) /\ exists t, heap s' = heap s ++ [t]
    | _ => heap s' = heap s
    end.

(** The status the backend finishes the build of an event with; the other
    events carry no build. *)
Definition build_status (syms : openxla_cudnn_dynamic_symbols_t) (e : Event)
    : cudnnStatus_t :=
  match e with
  | EvTensorBuild t => tensor_status syms t
  | EvPointWiseDescBuild d => pointwise_desc_status syms d
  | EvConvDescBuild d => conv_desc_status syms d
  | EvOperationBuild op => operation_status syms op
  | EvOperationGraphBuild handle ops => operation_graph_status syms handle ops
  | EvVariantPackBuild pack => variant_pack_status syms pack
  | EvBackendExecute handle plan pack => cudnnBackendExecute syms handle plan pack
  | EvHeuristics _ _ => CUDNN_STATUS_SUCCESS
  | EvExecutionPlanBuild _ _ _ => CUDNN_STATUS_SUCCESS
  | EvDevicePointer _ => CUDNN_STATUS_SUCCESS
  end.

(** The computation makes no backend call after a build that failed: of
    the calls it logs all but the last succeeded, all succeeded when it
    returns a value, and a failed last build is the error it returns. *)
Definition stops_at_failed_build (syms : openxla_cudnn_dynamic_symbols_t)
    {A : Type} (m : M A) : Prop :=
  forall s r s', m s = (r, s') ->
    exists evs,
      backend_log s' = backend_log s ++ evs /\
      Forall (fun e => build_status syms e = CUDNN_STATUS_SUCCESS)
        (removelast evs) /\
      ((exists a, r = Ok a) ->
       Forall (fun e => build_status syms e = CUDNN_STATUS_SUCCESS) evs) /\
      (forall e, last evs = Some e ->
         build_status syms e <> CUDNN_STATUS_SUCCESS ->
         exists err, r = Failed err /\
                     CUDNN_CONVERT_STATUS syms (build_status syms e) = Some err).





(** A backend that finishes every build of the constructors with success. *)
Definition accepts_all (syms : openxla_cudnn_dynamic_symbols_t) : Prop :=
  (forall t, tensor_status syms t = CUDNN_STATUS_SUCCESS) /\
  (forall d, pointwise_desc_status syms d = CUDNN_STATUS_SUCCESS) /\
  (forall d, conv_desc_status syms d = CUDNN_STATUS_SUCCESS) /\
  (forall o, operation_status syms o = CUDNN_STATUS_SUCCESS).

(** ** Descriptors of the operations in the heap *)

(** The descriptors of the tensors an operation consumes, in the order of
    the inputs of its result tensor: x, then b or w. *)
Definition operand_descs (o : Operation) : list Tensor :=
  option_list (op_xDesc o) ++ option_list (op_bDesc o) ++
  option_list (op_wDesc o).

(** The descriptor of the tensor at [p]. *)
Definition tensor_at (h : list CuDNNTensor) (p : ptr) : option Tensor :=
  tensor <$> h !! p.

(** The operation of a result tensor names the descriptor of the tensor as
    its y and the descriptors of the inputs of the tensor as its operands. *)
Definition node_consistent (h : list CuDNNTensor) (t : CuDNNTensor) : Prop :=
  match t with
  | CuDNNArgTensor _ => True
  | CuDNNOpResultTensor inputs_ operation_ tensor_ =>
      op_yDesc operation_ = Some tensor_ /\
      Forall2 (fun q d => tensor_at h q = Some d) inputs_
        (operand_descs operation_)
  end.

Definition heap_consistent (h : list CuDNNTensor) : Prop :=
  forall p t, h !! p = Some t -> node_consistent h t.

(** ** Execution *)

(** The variant pack [Execute] builds for an executable and buffers: no
    workspace, the device pointers of the buffers, the ids of the graph. *)
Definition pack_of (self : CuDNNExecutable) (buffers : list iree_hal_buffer_t)
    : VariantPack :=
  mkVariantPack None (map device_pointer buffers) (uids_ (exe_graph_ self)).

(** The conditions under which [Execute] reaches the backend: a buffer for
    every argument and return, all of them device buffers, as many ids as
    buffers, and a first plan that asks for no workspace. *)
Definition ready_to_dispatch (self : CuDNNExecutable) (plan : ExecutionPlan)
    (buffers : list iree_hal_buffer_t) : Prop :=
  head (plans_ self) = Some plan /\
  length buffers
    = (length (args_ (exe_graph_ self)) + length (rets_ (exe_graph_ self)))%nat /\
  Forall is_device buffers /\
  length (uids_ (exe_graph_ self)) = length buffers /\
  getWorkspaceSize plan = 0.

(** A backend whose builds succeed but for the variant pack and the
    dispatch, which return the given statuses, and an executable over it
    whose only plan asks for no workspace. *)
Definition execution_backend (pack_status execute_status : cudnnStatus_t)
    : openxla_cudnn_dynamic_symbols_t :=
  mkSymbols
    (fun _ => CUDNN_STATUS_SUCCESS) (fun _ => CUDNN_STATUS_SUCCESS)
    (fun _ => CUDNN_STATUS_SUCCESS) (fun _ => CUDNN_STATUS_SUCCESS)
    (fun _ _ => CUDNN_STATUS_SUCCESS) (fun _ => "graph"%string)
    (fun _ _ _ => ([CUDNN_STATUS_SUCCESS], [7]))
    (fun _ _ _ => CUDNN_STATUS_SUCCESS)
    (fun _ _ _ => 0)
    (fun _ => pack_status) (fun _ _ _ => execute_status)
    (fun _ => "cuDNN error"%string).

Definition execution_executable (pack_status execute_status : cudnnStatus_t)
    : CuDNNExecutable :=
  mkCuDNNExecutable (execution_backend pack_status execute_status)
    (small_graph (execution_backend pack_status execute_status))
    [mkExecutionPlan 1 7 "graph" 0].

(** Three device buffers, the second at a byte offset. *)
Definition three_buffers : list iree_hal_buffer_t :=
  [device_buffer 4096 0; device_buffer 8192 256; device_buffer 12288 0].

(** ** Strides and extents *)

(** The product of the [k] extents from axis [i] on. *)
Definition extent_product (dims : list Z) (i k : nat) : Z :=
  foldr Z.mul 1 (take k (drop i dims)).

(** Extents and convolution parameters small enough for the arithmetic of
    the output extent to stay far from the ends of [int64_t]. *)
Definition small_extent (z : Z) : Prop := 0 <= z < 2 ^ 31.

(** ** Counting the recorded operations *)

(** The number of times [q] occurs in [l]. *)
Definition occurrences (q : ptr) (l : list ptr) : nat :=
  length (filter (fun p => p = q) l).

(** The number of times the operations of the result tensors [ops] take
    [q] as an input. *)
Definition uses (h : list CuDNNTensor) (q : ptr) (ops : list operation_ptr)
    : nat :=
  sum_list_with (fun p => occurrences q (inputs_at h p)) ops.

(** A backend that rejects every pointwise descriptor and accepts every
    other build. *)
Definition no_pointwise_backend : openxla_cudnn_dynamic_symbols_t :=
  mkSymbols
    (fun _ => CUDNN_STATUS_SUCCESS) (fun _ => CUDNN_STATUS_FAILURE 9)
    (fun _ => CUDNN_STATUS_SUCCESS) (fun _ => CUDNN_STATUS_SUCCESS)
    (fun _ _ => CUDNN_STATUS_SUCCESS) (fun _ => "graph"%string)
    (fun _ _ _ => ([CUDNN_STATUS_SUCCESS], [7]))
    (fun _ _ _ => CUDNN_STATUS_SUCCESS)
    (fun _ _ _ => 0)
    (fun _ => CUDNN_STATUS_SUCCESS) (fun _ _ _ => CUDNN_STATUS_SUCCESS)
    (fun _ => "cuDNN error"%string).

(** A heap with an image of dims [1, 3, 2, 2] and a filter of dims
    [4, 5, 3, 3]: the channel counts differ and the filter is larger than
    the image. *)
Definition misfit_state : State :=
  mkState
    [CuDNNArgTensor (mkTensor [1; 3; 2; 2] [12; 4; 2; 1] 1 32
                       CUDNN_DATA_FLOAT false);
     CuDNNArgTensor (mkTensor [4; 5; 3; 3] [45; 9; 3; 1] 2 32
                       CUDNN_DATA_FLOAT false)]
    [].


(** The heap of [diamond_state] before the ReLU and the sum were built. *)
Definition convolution_state : State :=
  Eval vm_compute in mkState (take 3 (heap diamond_state)) [].

(** ** Programs of constructor calls *)

(** The state after a sequence of constructor calls, each from the state
    the one before it left, whether it returned a tensor or not. *)
Definition run_calls (syms : openxla_cudnn_dynamic_symbols_t)
    (calls : list ConstructorCall) (s : State) : State :=
  foldl (fun s call => snd (construct syms call s)) s calls.

(** The calls of [diamond_program]. *)
Definition diamond_calls : list ConstructorCall :=
  [TensorCall [1; 3; 8; 8] [192; 64; 8; 1] 11 CUDNN_DATA_FLOAT 32;
   TensorCall [3; 3; 3; 3] [27; 9; 3; 1] 5 CUDNN_DATA_FLOAT 32;
   ConvolutionCall 0 1 20 32 true CUDNN_CROSS_CORRELATION;
   PointwiseOf (Relu 2 0%float 6%float) 21 32 true;
   PointwiseOf (Binary (CUDNN_POINTWISE_MODE 0) 3 1%float 2 1%float) 22 32
     false].

(** * Properties *)

(** ** Integers and strides *)

Lemma wrap64_id (z : Z) : Int64.in_range z -> Int64.wrap64 z = z.
Proof.
  unfold Int64.in_range, Int64.wrap64, Int64.min_signed, Int64.max_signed,
    Int64.modulus, Int64.half_modulus.
  intros H. rewrite Z.mod_small; lia.
Qed.

Lemma wrap64_range (z : Z) : Int64.in_range (Int64.wrap64 z).
Proof.
  unfold Int64.in_range, Int64.wrap64, Int64.min_signed, Int64.max_signed,
    Int64.modulus, Int64.half_modulus.
  pose proof (Z.mod_pos_bound (z + 2 ^ 63) (2 ^ 64)). lia.
Qed.

Example GetRowMajorStrides_1366 :
  GetRowMajorStrides [1; 3; 6; 6] = [18; 18; 6; 1].
Proof. reflexivity. Qed.

Example channels_last_strides_1366 :
  channels_last_strides [1; 3; 6; 6] = [108; 1; 18; 3].
Proof. reflexivity. Qed.

Example channels_last_strides_rank5 :
  channels_last_strides [2; 3; 4; 5; 6] = [360; 1; 90; 18; 3].
Proof. reflexivity. Qed.

(** ** Reasoning about runs of the monad *)

Lemma bind_Ok_inv {A B : Type} (m : M A) (f : A -> M B) (s s' : State) (b : B) :
  (m ≫= f) s = (Ok b, s') ->
  exists (a : A) (s1 : State), m s = (Ok a, s1) /\ f a s1 = (Ok b, s').
Proof.
  unfold mbind, M_bind. destruct (m s) as [[a| | | |] s1]; intros H;
    try discriminate. exists a, s1. auto.
Qed.

Lemma bind_Ok_intro {A B : Type} (m : M A) (f : A -> M B) (s s1 : State) (a : A) :
  m s = (Ok a, s1) -> (m ≫= f) s = f a s1.
Proof. unfold mbind, M_bind. intros ->. reflexivity. Qed.

Lemma emit_run (e : Event) (s : State) :
  emit e s = (Ok tt, mkState (heap s) (backend_log s ++ [e])).
Proof. reflexivity. Qed.

Lemma deref_Ok_inv (p : ptr) (s s' : State) (t : CuDNNTensor) :
  deref p s = (Ok t, s') -> heap s !! p = Some t /\ s' = s.
Proof.
  unfold deref. destruct (heap s !! p); intros H; inversion H; auto.
Qed.

Lemma deref_run (p : ptr) (s : State) (t : CuDNNTensor) :
  heap s !! p = Some t -> deref p s = (Ok t, s).
Proof. unfold deref. intros ->. reflexivity. Qed.

Lemma return_if_error_Ok_inv (o : option Status) (s s' : State) (u : unit) :
  IREE_RETURN_IF_ERROR o s = (Ok u, s') -> o = None /\ s' = s.
Proof.
  destruct o; cbn; unfold fail, mret, M_ret; intros H; inversion H; auto.
Qed.

Lemma new_run (t : CuDNNTensor) (s : State) :
  new t s = (Ok (length (heap s)), mkState (heap s ++ [t]) (backend_log s)).
Proof. reflexivity. Qed.

(** Splits a successful run of a sequence of binds into its steps. *)
(** A build the backend accepts, followed by the check of its status. *)
Lemma checked_build_run (syms : openxla_cudnn_dynamic_symbols_t)
    {A B : Type} (e : Event) (x : A) (st : A -> cudnnStatus_t) (k : A -> M B)
    (s : State) :
  st x = CUDNN_STATUS_SUCCESS ->
  ((emit e;; mret x) ≫=
   (fun b => IREE_RETURN_IF_ERROR (CUDNN_CONVERT_STATUS syms (st b));; k b)) s
  = k x (mkState (heap s) (backend_log s ++ [e])).
Proof.
  intros Hst. unfold mbind, M_bind, emit, mret, M_ret. cbv beta iota.
  rewrite Hst. reflexivity.
Qed.

Ltac inv_run H :=
  repeat
    (let a := fresh "a" in
     let s := fresh "s" in
     let H1 := fresh "Hstep" in
     apply bind_Ok_inv in H as (a & s & H1 & H);
     first
       [ apply deref_Ok_inv in H1 as [H1 ->]
       | apply return_if_error_Ok_inv in H1 as [H1 ->]
       | rewrite emit_run in H1; injection H1 as <- <-
       | (cbv [TensorBuilder.build PointWiseDescBuilder.build
               ConvDescBuilder.build OperationBuilder.build] in H1;
          apply bind_Ok_inv in H1 as (? & ? & ?Hemit & H1);
          rewrite emit_run in Hemit; injection Hemit as <- <-;
          injection H1 as <- <-)
       | idtac ]).

(** ** Pointwise construction *)

Lemma CreatePointwise_Ok_inv syms c uid alignment is_virtual s p s' :
  CreatePointwise syms c uid alignment is_virtual s = (Ok p, s') ->
  exists (x_ : CuDNNTensor) (operation : Operation) (y : Tensor),
    heap s !! first_input c = Some x_ /\
    p = length (heap s) /\
    heap s' = heap s ++ [CuDNNOpResultTensor (call_inputs c) operation y] /\
    clone_of (tensor x_) uid alignment is_virtual y /\
    (forall q, q ∈ call_inputs c -> (q < length (heap s))%nat).
Proof.
  destruct c; cbn [CreatePointwise first_input call_inputs];
    [unfold CreatePointwiseRelu | unfold CreatePointwiseUnary
    | unfold CreatePointwiseBinary];
    intros H; inv_run H; rewrite new_run in H; injection H as <- <-;
    eexists _, _, _; repeat split; cbn; eauto;
    intros q Hq;
    repeat (apply elem_of_cons in Hq as [-> | Hq];
            [eapply lookup_lt_Some; eassumption|]);
    inversion Hq.
Qed.

(** ** Convolution *)

Lemma length_4_inv {A : Type} (l : list A) :
  length l = 4%nat -> exists a b c d, l = [a; b; c; d].
Proof.
  destruct l as [|a [|b [|c [|d [|e l]]]]]; cbn; intros H; try discriminate.
  eauto.
Qed.

Lemma GetFwdConvOutputDim_identity (dim filter_dim : Z) :
  0 <= dim <= Int64.max_signed -> 0 < filter_dim <= Int64.max_signed ->
  GetFwdConvOutputDim dim 0 filter_dim 1 1 = dim - filter_dim + 1.
Proof.
  unfold Int64.max_signed, Int64.half_modulus. intros Hd Hf.
  unfold GetFwdConvOutputDim, GetFwdConvPaddedImageDim,
    GetFwdConvDilatedFilterDim, Int64.add, Int64.sub, Int64.mul, Int64.div.
  rewrite (wrap64_id (filter_dim - 1)), Z.mul_1_r,
    (wrap64_id (filter_dim - 1)), (wrap64_id (filter_dim - 1 + 1)),
    (wrap64_id (2 * 0)), (wrap64_id (dim + 2 * 0)),
    (wrap64_id (dim + 2 * 0 - (filter_dim - 1 + 1))), Z.quot_1_r,
    (wrap64_id (dim + 2 * 0 - (filter_dim - 1 + 1))),
    (wrap64_id (dim + 2 * 0 - (filter_dim - 1 + 1) + 1));
    unfold Int64.in_range, Int64.min_signed, Int64.max_signed,
      Int64.half_modulus; lia.
Qed.

(** What a successful [CreateConvolution] has built: the node, its inputs,
    and the dims and strides of its output descriptor. *)
Lemma CreateConvolution_Ok_inv syms input filter uid alignment is_virtual mode
    s p s' :
  CreateConvolution syms input filter uid alignment is_virtual mode s
    = (Ok p, s') ->
  exists (input_ filter_ : CuDNNTensor) (n c h w k c' kh kw : Z)
         (operation : Operation) (y : Tensor),
    heap s !! input = Some input_ /\
    heap s !! filter = Some filter_ /\
    getDim (tensor input_) = [n; c; h; w] /\
    getDim (tensor filter_) = [k; c'; kh; kw] /\
    p = length (heap s) /\
    heap s' = heap s ++ [CuDNNOpResultTensor [input; filter] operation y] /\
    getDim y = [n; c; GetFwdConvOutputDim h 0 kh 1 1;
                GetFwdConvOutputDim w 0 kw 1 1] /\
    getStride y =
      (if getStride (tensor input_) !!! 1%nat =? 1
       then channels_last_strides (getDim y)
       else GetRowMajorStrides (getDim y)) /\
    getId y = uid /\ getAlignment y = alignment /\ isVirtual y = is_virtual /\
    getDataType y = getDataType (tensor input_).
Proof.
  unfold CreateConvolution. intros H.
  apply bind_Ok_inv in H as (input_ & s1 & Hin & H).
  apply deref_Ok_inv in Hin as [Hin ->].
  apply bind_Ok_inv in H as (filter_ & s1 & Hf & H).
  apply deref_Ok_inv in Hf as [Hf ->].
  destruct (length (getDim (tensor input_)) =? 4)%nat eqn:Hrank;
    [|discriminate]. cbn [negb] in H.
  destruct (length (getDim (tensor input_)) =? length (getDim (tensor filter_)))%nat
    eqn:Hsame; [|discriminate]. cbn [negb] in H.
  apply Nat.eqb_eq in Hrank, Hsame. rewrite Hrank in Hsame.
  destruct (length_4_inv _ Hrank) as (n & c & h & w & Hdims).
  destruct (length_4_inv _ (eq_sym Hsame)) as (k & c' & kh & kw & Hfdims).
  rewrite Hdims, Hfdims in H. cbn [kSpatialDims seq foldl app] in H.
  change ([0; 0] !!! 0%nat) with 0 in H. change ([0; 0] !!! 1%nat) with 0 in H.
  change ([1; 1] !!! 0%nat) with 1 in H. change ([1; 1] !!! 1%nat) with 1 in H.
  change ([n; c; h; w] !!! 0%nat) with n in H.
  change ([n; c; h; w] !!! 1%nat) with c in H.
  change ([n; c; h; w] !!! (0 + 2)%nat) with h in H.
  change ([n; c; h; w] !!! (1 + 2)%nat) with w in H.
  change ([k; c'; kh; kw] !!! (0 + 2)%nat) with kh in H.
  change ([k; c'; kh; kw] !!! (1 + 2)%nat) with kw in H.
  apply bind_Ok_inv in H as (output_strides & s1 & Hstr & H).
  assert (Hstr' : s1 = s /\ output_strides =
    (if getStride (tensor input_) !!! 1%nat =? 1
     then channels_last_strides
            [n; c; GetFwdConvOutputDim h 0 kh 1 1; GetFwdConvOutputDim w 0 kw 1 1]
     else GetRowMajorStrides
            [n; c; GetFwdConvOutputDim h 0 kh 1 1; GetFwdConvOutputDim w 0 kw 1 1])).
  { destruct (getStride (tensor input_) !!! 1%nat =? 1);
      inversion Hstr; auto. }
  destruct Hstr' as [-> ->]. clear Hstr.
  inv_run H. rewrite new_run in H. injection H as <- <-.
  exists input_, filter_, n, c, h, w, k, c', kh, kw.
  eexists _, _. repeat split; cbn; eauto.
Qed.

(** Under the fixed stride 1, padding 0 and dilation 1, and for extents in
    the range of [int64_t], the output has the batch and channel extents of
    the input and the spatial extents [h - kh + 1] and [w - kw + 1]. *)
Lemma CreateConvolution_output_dims syms input filter uid alignment is_virtual
    mode s p s' (input_ filter_ : CuDNNTensor) (n c h w k c' kh kw : Z) :
  CreateConvolution syms input filter uid alignment is_virtual mode s
    = (Ok p, s') ->
  heap s !! input = Some input_ -> heap s !! filter = Some filter_ ->
  getDim (tensor input_) = [n; c; h; w] ->
  getDim (tensor filter_) = [k; c'; kh; kw] ->
  0 <= h <= Int64.max_signed -> 0 <= w <= Int64.max_signed ->
  0 < kh <= Int64.max_signed -> 0 < kw <= Int64.max_signed ->
  exists y, heap s' !! p = Some y /\
            getDim (tensor y) = [n; c; h - kh + 1; w - kw + 1].
Proof.
  intros H Hin Hf Hdims Hfdims Hh Hw Hkh Hkw.
  apply CreateConvolution_Ok_inv in H
    as (i_ & f_ & n0 & c0 & h0 & w0 & k0 & c0' & kh0 & kw0 & op & y &
        Hin' & Hf' & Hdims' & Hfdims' & -> & Hheap & Hy & _).
  rewrite Hin in Hin'. rewrite Hf in Hf'.
  injection Hin' as <-. injection Hf' as <-.
  rewrite Hdims in Hdims'. rewrite Hfdims in Hfdims'.
  injection Hdims' as <- <- <- <-. injection Hfdims' as <- <- <- <-.
  exists (CuDNNOpResultTensor [input; filter] op y). split.
  - rewrite Hheap. apply list_lookup_middle. reflexivity.
  - cbn. rewrite Hy. rewrite !GetFwdConvOutputDim_identity by assumption.
    reflexivity.
Qed.

Lemma CreateTensor_Ok_inv syms dims strides uid dtype alignment s p s' :
  CreateTensor syms dims strides uid dtype alignment s = (Ok p, s') ->
  p = length (heap s) /\
  heap s' = heap s ++
            [CuDNNArgTensor (mkTensor dims strides uid alignment dtype false)].
Proof.
  unfold CreateTensor. intros H. inv_run H. rewrite new_run in H.
  injection H as <- <-. split; reflexivity.
Qed.

(** Whatever the backend, a run of [convolution_1388_4333] that returns a
    tensor returns one of dims [1,3,6,6], with the strides of the branch
    the second stride of the input selects. *)
Lemma convolution_1388_4333_Ok syms input_strides p s' :
  convolution_1388_4333 syms input_strides empty_state = (Ok p, s') ->
  exists y, heap s' !! p = Some y /\
    getDim (tensor y) = [1; 3; 6; 6] /\
    getStride (tensor y) =
      (if input_strides !!! 1%nat =? 1 then [108; 1; 18; 3]
       else [18; 18; 6; 1]).
Proof.
  unfold convolution_1388_4333. intros H.
  apply bind_Ok_inv in H as (input & s1 & Hinput & H).
  apply CreateTensor_Ok_inv in Hinput as [-> Hheap1].
  apply bind_Ok_inv in H as (filter & s2 & Hfilter & H).
  apply CreateTensor_Ok_inv in Hfilter as [-> Hheap2].
  apply CreateConvolution_Ok_inv in H
    as (i_ & f_ & n & c & h & w & k & c' & kh & kw & op & y &
        Hin & Hf & Hdims & Hfdims & -> & Hheap & Hy & Hstrides & _).
  rewrite Hheap2 in Hin, Hf, Hheap |- *.
  rewrite Hheap1 in Hin, Hf, Hheap |- *.
  cbn in Hin, Hf, Hheap |- *.
  injection Hin as <-. injection Hf as <-. cbn in Hdims, Hfdims, Hstrides.
  injection Hdims as <- <- <- <-. injection Hfdims as <- <- <- <-.
  exists (CuDNNOpResultTensor [0%nat; 1%nat] op y). split.
  - rewrite Hheap. reflexivity.
  - cbn [tensor]. rewrite Hstrides, Hy. split; [reflexivity|].
    destruct (input_strides !!! 1%nat =? 1); reflexivity.
Qed.

(** C1: for input dims [1,3,8,8] and filter dims [4,3,3,3] the construction
    succeeds, when every build of the backend does, with an output
    descriptor of dims [1,3,6,6]: the second extent is the channel count
    of the input, not the first extent of the filter. Whatever the
    backend, the construction does not return the dims [1,4,6,6] of the
    specification; the two spatial extents are the specified ones. *)
Theorem convolution_output_channels_are_input_channels :
  getDim <$> output_of (convolution_1388_4333 accepting_backend
                          [192; 64; 8; 1] empty_state)
    = Some [1; 3; 6; 6] /\
  spec_convolution_output_dims [1; 3; 8; 8] [4; 3; 3; 3] = [1; 4; 6; 6] /\
  forall syms,
    getDim <$> output_of (convolution_1388_4333 syms [192; 64; 8; 1] empty_state)
      <> Some (spec_convolution_output_dims [1; 3; 8; 8] [4; 3; 3; 3]).
Proof.
  split; [reflexivity|]. split; [reflexivity|]. intros syms.
  destruct (convolution_1388_4333 syms [192; 64; 8; 1] empty_state)
    as [[p| | | |] s'] eqn:Hrun; cbn [output_of]; try discriminate.
  apply convolution_1388_4333_Ok in Hrun as (y & -> & Hdims & _).
  cbn. rewrite Hdims. discriminate.
Qed.

(** Closed forms of the two stride functions at rank 4, for extents whose
    products stay in the range of [int64_t]. *)
Lemma mul_small (a b : Z) :
  0 <= a * b <= Int64.max_signed -> Int64.mul a b = a * b.
Proof.
  intros H. apply wrap64_id. unfold Int64.in_range, Int64.min_signed.
  unfold Int64.max_signed, Int64.half_modulus in *. lia.
Qed.

Lemma channels_last_strides_rank4 (n c h w : Z) :
  0 < c -> 0 < h -> 0 < w -> c * w * h <= Int64.max_signed ->
  channels_last_strides [n; c; h; w] = spec_channels_last_strides [n; c; h; w].
Proof.
  intros Hc Hh Hw Hmax. cbv [channels_last_strides channels_last_loop length
    replicate Nat.sub spec_channels_last_strides].
  cbn [list_insert insert lookup_total list_lookup_total].
  assert (c <= c * w) by nia. assert (c * w <= c * w * h) by nia.
  rewrite (mul_small 1 c), (mul_small (1 * c) w),
    (mul_small (1 * c * w) h) by lia.
  f_equal; [lia|]. f_equal. f_equal; [lia|]. f_equal. lia.
Qed.

Lemma GetRowMajorStrides_rank4 (n c h w : Z) :
  0 < n -> 0 < c -> 0 < h -> n * c * h <= Int64.max_signed ->
  GetRowMajorStrides [n; c; h; w] = [n * c * h; c * h; h; 1].
Proof.
  intros Hn Hc Hh Hmax. cbv [GetRowMajorStrides row_major_loop length
    replicate Nat.sub].
  cbn [list_insert insert lookup_total list_lookup_total].
  assert (h <= c * h) by nia. assert (c * h <= n * (c * h)) by nia.
  rewrite (mul_small h 1), (mul_small c (h * 1)),
    (mul_small n (c * (h * 1))) by lia.
  f_equal; [lia|]. f_equal; [lia|]. f_equal. lia.
Qed.

(** The strides of the output of a successful [CreateConvolution], for
    output extents whose products stay in the range of [int64_t]: the
    channels-last strides when the second stride of the input is 1, and
    otherwise the products [n * c * h], [c * h], [h] and 1. *)
Lemma CreateConvolution_output_strides syms input filter uid alignment
    is_virtual mode s p s' (input_ : CuDNNTensor) :
  CreateConvolution syms input filter uid alignment is_virtual mode s
    = (Ok p, s') ->
  heap s !! input = Some input_ ->
  exists y, heap s' !! p = Some y /\
    forall n c h w,
      getDim (tensor y) = [n; c; h; w] ->
      0 < n -> 0 < c -> 0 < h -> 0 < w ->
      n * c * h <= Int64.max_signed -> c * w * h <= Int64.max_signed ->
      getStride (tensor y) =
        (if getStride (tensor input_) !!! 1%nat =? 1
         then spec_channels_last_strides [n; c; h; w]
         else [n * c * h; c * h; h; 1]).
Proof.
  intros H Hin.
  apply CreateConvolution_Ok_inv in H
    as (i_ & f_ & n0 & c0 & h0 & w0 & k0 & c0' & kh0 & kw0 & op & y &
        Hin' & _ & _ & _ & -> & Hheap & _ & Hstrides & _).
  rewrite Hin in Hin'. injection Hin' as <-.
  exists (CuDNNOpResultTensor [input; filter] op y). split.
  - rewrite Hheap. apply list_lookup_middle. reflexivity.
  - cbn [tensor]. intros n c h w Hdims Hn Hc Hh Hw Hrow Hlast.
    rewrite Hstrides, Hdims.
    destruct (getStride (tensor input_) !!! 1%nat =? 1).
    + apply channels_last_strides_rank4; assumption.
    + apply GetRowMajorStrides_rank4; assumption.
Qed.

(** C4: for a row-major input (strides [192,64,8,1], second stride not 1)
    of dims [1,3,8,8] the output dims are [1,3,6,6] and, when every build
    of the backend succeeds, the output strides are [18,18,6,1]:
    [GetRowMajorStrides] multiplies by the extent of the dim itself where
    row-major strides take the extent of the next dim. Whatever the
    backend, the construction does not return the row-major strides
    [108,36,6,1] of the specification. For the channels-last input
    (strides [192,1,24,3]) the output strides are the channels-last
    strides [108,1,18,3]. *)
Theorem convolution_row_major_strides_use_own_extent :
  getStride <$> output_of (convolution_1388_4333 accepting_backend
                             [192; 64; 8; 1] empty_state)
    = Some [18; 18; 6; 1] /\
  spec_row_major_strides [1; 3; 6; 6] = [108; 36; 6; 1] /\
  (forall syms,
     getStride <$> output_of (convolution_1388_4333 syms [192; 64; 8; 1]
                                empty_state)
       <> Some (spec_row_major_strides [1; 3; 6; 6])) /\
  getStride <$> output_of (convolution_1388_4333 accepting_backend
                             [192; 1; 24; 3] empty_state)
    = Some (spec_channels_last_strides [1; 3; 6; 6]).
Proof.
  split; [reflexivity|]. split; [reflexivity|]. split; [|reflexivity].
  intros syms.
  destruct (convolution_1388_4333 syms [192; 64; 8; 1] empty_state)
    as [[p| | | |] s'] eqn:Hrun; cbn [output_of]; try discriminate.
  apply convolution_1388_4333_Ok in Hrun as (y & -> & _ & Hstrides).
  cbn. rewrite Hstrides. discriminate.
Qed.

(** C7: when the rank of the input is not 4, or the ranks of input and
    filter differ, [CreateConvolution] fails with an invalid-argument
    status and leaves the state as it was: no node is allocated and the
    backend is not called. A call that returns a node had an input and a
    filter of rank 4. *)
Theorem CreateConvolution_rejects_other_ranks
    syms input filter uid alignment is_virtual mode s
    (input_ filter_ : CuDNNTensor) :
  heap s !! input = Some input_ -> heap s !! filter = Some filter_ ->
  (length (getDim (tensor input_)) <> 4%nat \/
   length (getDim (tensor input_)) <> length (getDim (tensor filter_)) ->
   exists message,
     CreateConvolution syms input filter uid alignment is_virtual mode s
       = (Failed (iree_make_status IREE_STATUS_INVALID_ARGUMENT message), s)) /\
  (forall p s',
     CreateConvolution syms input filter uid alignment is_virtual mode s
       = (Ok p, s') ->
     length (getDim (tensor input_)) = 4%nat /\
     length (getDim (tensor filter_)) = 4%nat).
Proof.
  intros Hin Hf. split.
  - intros Hbad. unfold CreateConvolution.
    rewrite (bind_Ok_intro _ _ _ _ _ (deref_run _ _ _ Hin)).
    rewrite (bind_Ok_intro _ _ _ _ _ (deref_run _ _ _ Hf)).
    destruct (length (getDim (tensor input_)) =? 4)%nat eqn:Hrank; cbn [negb].
    + destruct (length (getDim (tensor input_))
                  =? length (getDim (tensor filter_)))%nat eqn:Hsame; cbn [negb].
      * apply Nat.eqb_eq in Hrank, Hsame. tauto.
      * eexists. reflexivity.
    + eexists. reflexivity.
  - intros p s' H.
    apply CreateConvolution_Ok_inv in H
      as (i_ & f_ & n & c & h & w & k & c' & kh & kw & op & y &
          Hin' & Hf' & Hdims & Hfdims & _).
    rewrite Hin in Hin'. rewrite Hf in Hf'.
    injection Hin' as <-. injection Hf' as <-.
    rewrite Hdims, Hfdims. auto.
Qed.

Lemma CreateConvolution_rejects_other_ranks_witness :
  (exists message,
     CreateConvolution accepting_backend 0%nat 1%nat 9 32 false
       CUDNN_CROSS_CORRELATION
       ranks_state
     = (Failed (iree_make_status IREE_STATUS_INVALID_ARGUMENT message),
        ranks_state)) /\
  (exists message,
     CreateConvolution accepting_backend 2%nat 3%nat 9 32 false
       CUDNN_CROSS_CORRELATION
       ranks_state
     = (Failed (iree_make_status IREE_STATUS_INVALID_ARGUMENT message),
        ranks_state)).
Proof.
  split.
  - eapply (CreateConvolution_rejects_other_ranks accepting_backend 0%nat 1%nat 9 32
              false CUDNN_CROSS_CORRELATION ranks_state);
      [reflexivity | reflexivity | left; cbn; lia].
  - eapply (CreateConvolution_rejects_other_ranks accepting_backend 2%nat 3%nat 9 32
              false CUDNN_CROSS_CORRELATION ranks_state);
      [reflexivity | reflexivity | right; cbn; lia].
Defined.

(** ** Pointwise construction: the claim *)

(** With a backend that accepts the builds and inputs that are tensors of
    the heap, a pointwise construction returns a tensor. *)
Lemma CreatePointwise_accepted syms c uid alignment is_virtual s :
  (forall t, tensor_status syms t = CUDNN_STATUS_SUCCESS) ->
  (forall d, pointwise_desc_status syms d = CUDNN_STATUS_SUCCESS) ->
  (forall o, operation_status syms o = CUDNN_STATUS_SUCCESS) ->
  (forall q, q ∈ call_inputs c -> is_Some (heap s !! q)) ->
  exists s',
    CreatePointwise syms c uid alignment is_virtual s
    = (Ok (length (heap s)), s').
Proof.
  intros Htensor Hdesc Hoperation Hlive.
  destruct c as [input lo hi | mode x alpha | mode x alpha b alpha2];
    cbn [CreatePointwise call_inputs] in *.
  - destruct (Hlive input) as [input_ Hin]; [repeat constructor|].
    unfold CreatePointwiseRelu, TensorBuilder.build, PointWiseDescBuilder.build,
      OperationBuilder.build.
    rewrite (bind_Ok_intro _ _ _ _ _ (deref_run _ _ _ Hin)).
    rewrite checked_build_run by apply Htensor.
    rewrite checked_build_run by apply Hdesc.
    rewrite checked_build_run by apply Hoperation.
    rewrite new_run. eexists. reflexivity.
  - destruct (Hlive x) as [x_ Hx]; [repeat constructor|].
    unfold CreatePointwiseUnary, TensorBuilder.build, PointWiseDescBuilder.build,
      OperationBuilder.build.
    rewrite (bind_Ok_intro _ _ _ _ _ (deref_run _ _ _ Hx)).
    rewrite checked_build_run by apply Htensor.
    rewrite checked_build_run by apply Hdesc.
    rewrite checked_build_run by apply Hoperation.
    rewrite new_run. eexists. reflexivity.
  - destruct (Hlive x) as [x_ Hx]; [repeat constructor|].
    destruct (Hlive b) as [b_ Hb]; [repeat constructor|].
    unfold CreatePointwiseBinary, TensorBuilder.build,
      PointWiseDescBuilder.build, OperationBuilder.build.
    rewrite (bind_Ok_intro _ _ _ _ _ (deref_run _ _ _ Hx)).
    rewrite (bind_Ok_intro _ _ _ _ _ (deref_run _ _ _ Hb)).
    rewrite checked_build_run by apply Htensor.
    rewrite checked_build_run by apply Hdesc.
    rewrite checked_build_run by apply Hoperation.
    rewrite new_run. eexists. reflexivity.
Qed.

(** C10: a pointwise construction (ReLU, unary or binary) whose inputs are
    tensors of the heap returns a tensor, at the next address, when the
    backend accepts its three builds. Whenever a pointwise construction
    returns a tensor, the output descriptor of that tensor has the dims,
    strides and data type of the first input and the id, alignment and
    virtual flag of the call; and any pointwise construction from the same
    state with the same first input, whatever its second operand, gives
    the same output dims and strides. *)
Theorem pointwise_output_clones_first_input
    syms c uid alignment is_virtual s :
  ((forall t, tensor_status syms t = CUDNN_STATUS_SUCCESS) ->
   (forall d, pointwise_desc_status syms d = CUDNN_STATUS_SUCCESS) ->
   (forall o, operation_status syms o = CUDNN_STATUS_SUCCESS) ->
   (forall q, q ∈ call_inputs c -> is_Some (heap s !! q)) ->
   exists s',
     CreatePointwise syms c uid alignment is_virtual s
     = (Ok (length (heap s)), s')) /\
  (forall p s',
     CreatePointwise syms c uid alignment is_virtual s = (Ok p, s') ->
     exists (x_ y : CuDNNTensor),
       heap s !! first_input c = Some x_ /\
       heap s' !! p = Some y /\
       inputs y = call_inputs c /\
       clone_of (tensor x_) uid alignment is_virtual (tensor y) /\
       (forall syms2 c2 uid2 alignment2 is_virtual2 p2 s2,
          first_input c2 = first_input c ->
          CreatePointwise syms2 c2 uid2 alignment2 is_virtual2 s = (Ok p2, s2) ->
          exists y2, heap s2 !! p2 = Some y2 /\
                     getDim (tensor y2) = getDim (tensor y) /\
                     getStride (tensor y2) = getStride (tensor y))).
Proof.
  split.
  { intros Htensor Hdesc Hoperation Hlive.
    apply CreatePointwise_accepted; assumption. }
  intros p s' H.
  apply CreatePointwise_Ok_inv in H as (x_ & op & y & Hx & -> & Hheap & Hy & _).
  exists x_, (CuDNNOpResultTensor (call_inputs c) op y).
  split; [exact Hx|]. split.
  { rewrite Hheap. apply list_lookup_middle. reflexivity. }
  split; [reflexivity|]. split; [exact Hy|].
  intros syms2 c2 uid2 alignment2 is_virtual2 p2 s2 Hsame H2.
  apply CreatePointwise_Ok_inv in H2
    as (x2 & op2 & y2 & Hx2 & -> & Hheap2 & Hy2 & _).
  rewrite Hsame, Hx in Hx2. injection Hx2 as <-.
  exists (CuDNNOpResultTensor (call_inputs c2) op2 y2). split.
  { rewrite Hheap2. apply list_lookup_middle. reflexivity. }
  cbn [tensor]. unfold clone_of in Hy, Hy2. subst y y2. cbn. auto.
Qed.

Lemma pointwise_output_clones_first_input_witness :
  exists s' y,
    CreatePointwise accepting_backend
      (Binary (CUDNN_POINTWISE_MODE 0) 0%nat 1%float 1%nat 1%float)
      7 64 true two_shapes_state
    = (Ok 2%nat, s') /\
    heap s' !! 2%nat = Some y /\
    inputs y = [0%nat; 1%nat] /\
    tensor y = mkTensor [1; 3; 8; 8] [192; 64; 8; 1] 7 64 CUDNN_DATA_FLOAT true.
Proof.
  destruct (pointwise_output_clones_first_input accepting_backend
              (Binary (CUDNN_POINTWISE_MODE 0) 0%nat 1%float 1%nat 1%float)
              7 64 true two_shapes_state) as [Hreturns Hclone].
  destruct Hreturns as [s' Hrun]; try (intros; reflexivity).
  { intros q Hq. cbn in Hq.
    repeat (apply elem_of_cons in Hq as [-> | Hq]; [cbn; eauto|]).
    inversion Hq. }
  destruct (Hclone _ _ Hrun) as (x_ & y & Hx & Hy & Hinputs & Htensor & _).
  exists s', y. split; [exact Hrun|]. split; [exact Hy|].
  split; [exact Hinputs|]. cbn in Hx. injection Hx as <-. exact Htensor.
Defined.

(** ** Executable compilation *)

Section CreateExecutable.

Variable syms : openxla_cudnn_dynamic_symbols_t.
Variable handle : cudnnHandle_t.
Variable graph : CuDNNOperationGraph.

Lemma plan_build_run (config : cudnnBackendDescriptor_t) (s : State) :
  ExecutionPlanBuilder.build syms handle config (getTag (og_graph_ graph)) s
  = (Ok (plan_of syms handle graph config),
     mkState (heap s)
       (backend_log s ++
        [EvExecutionPlanBuild handle config (getTag (og_graph_ graph))])).
Proof. reflexivity. Qed.

Lemma plan_loop_none_validates (configs : list cudnnBackendDescriptor_t) :
  Forall (fun config => validates syms handle graph config = false) configs ->
  forall (plans : list ExecutionPlan) (s : State),
    plan_loop syms handle graph configs plans s
    = (Ok plans,
       mkState (heap s)
         (backend_log s ++
          map (fun config =>
                 EvExecutionPlanBuild handle config (getTag (og_graph_ graph)))
            configs)).
Proof.
  induction 1 as [|config configs Hconfig _ IH]; intros plans s.
  - cbn. rewrite app_nil_r. destruct s. reflexivity.
  - cbn [plan_loop].
    rewrite (bind_Ok_intro _ _ _ _ _ (plan_build_run config s)).
    unfold ExecutionPlan_get_status. cbn [plan_of plan_handle
      plan_engine_config plan_tag].
    unfold validates in Hconfig. rewrite Hconfig. cbn [negb].
    rewrite IH. cbn [heap backend_log map]. rewrite <- app_assoc. reflexivity.
Qed.

Lemma plan_loop_first_valid
    (skipped : list cudnnBackendDescriptor_t)
    (config : cudnnBackendDescriptor_t)
    (rest : list cudnnBackendDescriptor_t) :
  Forall (fun config => validates syms handle graph config = false) skipped ->
  validates syms handle graph config = true ->
  forall (plans : list ExecutionPlan) (s : State),
    plan_loop syms handle graph (skipped ++ config :: rest) plans s
    = (Ok (plans ++ [plan_of syms handle graph config]),
       mkState (heap s)
         (backend_log s ++
          map (fun config =>
                 EvExecutionPlanBuild handle config (getTag (og_graph_ graph)))
            (skipped ++ [config]))).
Proof.
  intros Hskipped Hconfig.
  induction Hskipped as [|c skipped Hc _ IH]; intros plans s.
  - cbn [app plan_loop].
    rewrite (bind_Ok_intro _ _ _ _ _ (plan_build_run config s)).
    unfold ExecutionPlan_get_status. cbn [plan_of plan_handle
      plan_engine_config plan_tag].
    unfold validates in Hconfig. rewrite Hconfig. reflexivity.
  - cbn [app plan_loop].
    rewrite (bind_Ok_intro _ _ _ _ _ (plan_build_run c s)).
    unfold ExecutionPlan_get_status. cbn [plan_of plan_handle
      plan_engine_config plan_tag].
    unfold validates in Hc. rewrite Hc. cbn [negb].
    rewrite IH. cbn [heap backend_log map]. rewrite <- app_assoc. reflexivity.
Qed.

Lemma heuristics_run (s : State) :
  heuristics syms ["heuristics_mode_a"%string] (og_graph_ graph)
    AcceptAllGraphs s
  = (Ok (get_heuristics_list syms ["heuristics_mode_a"%string]
           (og_graph_ graph) AcceptAllGraphs),
     mkState (heap s)
       (backend_log s ++
        [EvHeuristics ["heuristics_mode_a"%string] (og_graph_ graph)])).
Proof. reflexivity. Qed.

(** C3: [CreateExecutable] fails with an internal error when the
    heuristics return no candidate; it fails with an internal error, after
    a plan build for every candidate, when no candidate validates;
    otherwise, with [config] the first candidate in ranked order whose plan
    build validates, it returns an executable holding the single plan of
    [config], and the plan builds it made are those of the candidates
    before [config] and of [config] itself, none after it. *)
Theorem CreateExecutable_first_valid_plan (s : State) :
  ((candidates syms graph) = [] ->
   exists message,
     CreateExecutable syms handle graph s
     = (Failed (iree_make_status IREE_STATUS_INTERNAL message),
        after_attempts handle graph s [])) /\
  ((candidates syms graph) <> [] ->
   Forall (fun config => validates syms handle graph config = false) (candidates syms graph) ->
   exists message,
     CreateExecutable syms handle graph s
     = (Failed (iree_make_status IREE_STATUS_INTERNAL message),
        after_attempts handle graph s (candidates syms graph))) /\
  (forall skipped config rest,
     (candidates syms graph) = skipped ++ config :: rest ->
     Forall (fun config => validates syms handle graph config = false) skipped ->
     validates syms handle graph config = true ->
     CreateExecutable syms handle graph s
     = (Ok (mkCuDNNExecutable syms graph [plan_of syms handle graph config]),
        after_attempts handle graph s (skipped ++ [config]))).
Proof.
  unfold CreateExecutable, candidates.
  rewrite (bind_Ok_intro _ _ _ _ _ (heuristics_run s)).
  destruct (get_heuristics_list syms ["heuristics_mode_a"%string]
              (og_graph_ graph) AcceptAllGraphs) as [statuses configs].
  cbn [snd]. unfold after_attempts. repeat split.
  - intros ->. cbn [map]. rewrite app_nil_r. eexists. reflexivity.
  - intros Hne Hall. rewrite bool_decide_eq_false_2 by exact Hne.
    rewrite (bind_Ok_intro _ _ _ _ _
               (plan_loop_none_validates configs Hall [] _)).
    rewrite bool_decide_eq_true_2 by reflexivity. eexists. reflexivity.
  - intros skipped config rest -> Hskipped Hconfig.
    rewrite bool_decide_eq_false_2 by (destruct skipped; discriminate).
    rewrite (bind_Ok_intro _ _ _ _ _
               (plan_loop_first_valid skipped config rest Hskipped Hconfig [] _)).
    reflexivity.
Qed.

End CreateExecutable.

(** ** Execution *)

(** [GetDevicePointers] converts every buffer when all are device buffers and
    aborts at the first that is not; all it logs are pointer queries. *)
Lemma GetDevicePointers_cases (buffers : list iree_hal_buffer_t) (s : State) :
  exists evs : list Event,
    Forall (fun e => is_pointer_query e = true) evs /\
    ((Forall is_device buffers /\
      evs = map EvDevicePointer buffers /\
      GetDevicePointers buffers s
      = (Ok (map device_pointer buffers),
         mkState (heap s) (backend_log s ++ evs))) \/
     (~ Forall is_device buffers /\
      GetDevicePointers buffers s
      = (AssertionFailure AssertBufferIsDevice,
         mkState (heap s) (backend_log s ++ evs)))).
Proof.
  revert s. induction buffers as [|buffer buffers IH]; intros s.
  - exists []. split; [constructor|]. left. split; [constructor|].
    split; [reflexivity|]. cbn. rewrite app_nil_r. destruct s. reflexivity.
  - cbn [GetDevicePointers].
    rewrite (bind_Ok_intro _ _ _ _ _ (emit_run (EvDevicePointer buffer) s)).
    destruct (decide (iree_hal_cuda_buffer_type buffer
                      = IREE_HAL_CUDA_BUFFER_TYPE_DEVICE)) as [Hdev|Hdev].
    + rewrite (bool_decide_eq_true_2 _ Hdev). cbn [IREE_ASSERT].
      destruct (IH (mkState (heap s) (backend_log s ++ [EvDevicePointer buffer])))
        as (evs & Hevs & Hcases).
      exists (EvDevicePointer buffer :: evs).
      split; [constructor; [reflexivity | exact Hevs]|].
      destruct Hcases as [(Hall & Heq & Hrun) | (Hnot & Hrun)].
      * left. split; [constructor; assumption|].
        split; [rewrite Heq; reflexivity|].
        unfold mbind, M_bind at 1. cbn [mret M_ret].
        unfold mbind, M_bind at 1. rewrite Hrun. cbn [heap backend_log map].
        rewrite <- app_assoc. reflexivity.
      * right. split; [intros Hall; inversion Hall; contradiction|].
        unfold mbind, M_bind at 1. cbn [mret M_ret].
        unfold mbind, M_bind at 1. rewrite Hrun. cbn [heap backend_log].
        rewrite <- app_assoc. reflexivity.
    + rewrite (bool_decide_eq_false_2 _ Hdev). cbn [IREE_ASSERT].
      exists [EvDevicePointer buffer]. split; [repeat constructor|].
      right. split; [intros Hall; inversion Hall; contradiction|]. reflexivity.
Qed.

(** C6: when the number of buffers differs from the number of arguments
    plus the number of returns of the executable's graph, [Execute] fails
    with an invalid-argument status and the state is the one it started
    from: no buffer was converted to a device pointer, no variant pack was
    built and nothing was dispatched to the backend. *)
Theorem Execute_buffer_count_mismatch
    (self : CuDNNExecutable) (handle : cudnnHandle_t)
    (buffers : list iree_hal_buffer_t) (s : State) :
  length buffers
    <> (length (args_ (exe_graph_ self)) + length (rets_ (exe_graph_ self)))%nat ->
  exists message,
    Execute self handle buffers s
    = (Failed (iree_make_status IREE_STATUS_INVALID_ARGUMENT message), s).
Proof.
  intros Hcount. unfold Execute.
  destruct (length buffers =?
            length (args_ (exe_graph_ self)) + length (rets_ (exe_graph_ self)))%nat
    eqn:Heq.
  - apply Nat.eqb_eq in Heq. contradiction.
  - cbn [negb]. eexists. reflexivity.
Qed.

(** ** Workspace *)

Lemma bind_unfold {A B : Type} (m : M A) (f : A -> M B) (s : State) :
  (m ≫= f) s =
  match m s with
  | (Ok a, s') => f a s'
  | (Failed e, s') => (Failed e, s')
  | (AssertionFailure a, s') => (AssertionFailure a, s')
  | (UndefinedBehaviour, s') => (UndefinedBehaviour, s')
  | (OutOfFuel, s') => (OutOfFuel, s')
  end.
Proof. reflexivity. Qed.

Lemma plan_loop_ignores_workspace syms size handle graph
    (configs : list cudnnBackendDescriptor_t) :
  forall (plans1 plans2 : list ExecutionPlan) (s : State),
  exists (l1 l2 : list ExecutionPlan) (s' : State),
    plan_loop (with_workspace_size syms size) handle graph configs plans1 s
      = (Ok l1, s') /\
    plan_loop syms handle graph configs plans2 s = (Ok l2, s') /\
    (length plans1 = length plans2 -> length l1 = length l2).
Proof.
  induction configs as [|config configs IH]; intros plans1 plans2 s.
  - exists plans1, plans2, s. auto.
  - cbn [plan_loop]. rewrite !bind_unfold.
    cbv [ExecutionPlanBuilder.build]. rewrite !bind_unfold, !emit_run.
    cbv [mret M_ret ExecutionPlan_get_status plan_handle plan_engine_config
         plan_tag with_workspace_size execution_plan_status].
    destruct (is_success _).
    + cbn [negb]. eexists _, _, _. split; [reflexivity|].
      split; [reflexivity|]. intros Hlen. rewrite !length_app, Hlen.
      reflexivity.
    + cbn [negb]. apply IH.
Qed.

Lemma length_zero_nil_iff {A : Type} (l1 l2 : list A) :
  length l1 = length l2 -> bool_decide (l1 = []) = bool_decide (l2 = []).
Proof. destruct l1, l2; cbn; intros H; try discriminate; reflexivity. Qed.

(** C9: the workspace a plan asks for is looked at by [Execute] only.
    - [CreateExecutable] does not depend on it: with any other answer to
      the workspace-size query it ends with the same outcome in the same
      state.
    - When the buffers pass the count check and are device buffers, and the
      first plan asks for a workspace, [Execute] stops at the assertion: it
      neither returns an error status nor reaches the backend.
    - Whatever [Execute] is given, every variant pack it builds and every
      dispatch it makes carries the null workspace pointer.
    - When the first plan asks for no workspace, [Execute] does not stop at
      the workspace assertion. *)
Theorem workspace_is_asserted_at_execute
    (syms : openxla_cudnn_dynamic_symbols_t) (graph : CuDNNOperationGraph)
    (self : CuDNNExecutable) (handle : cudnnHandle_t)
    (buffers : list iree_hal_buffer_t) (s : State) :
  (forall size,
     outcome (fst (CreateExecutable (with_workspace_size syms size) handle
                     graph s))
       = outcome (fst (CreateExecutable syms handle graph s)) /\
     snd (CreateExecutable (with_workspace_size syms size) handle graph s)
       = snd (CreateExecutable syms handle graph s)) /\
  (forall plan rest,
     plans_ self = plan :: rest ->
     length buffers
       = (length (args_ (exe_graph_ self)) + length (rets_ (exe_graph_ self)))%nat ->
     Forall is_device buffers ->
     length (uids_ (exe_graph_ self)) = length buffers ->
     getWorkspaceSize plan <> 0 ->
     Execute self handle buffers s
     = (AssertionFailure AssertNoWorkspace,
        mkState (heap s) (backend_log s ++ map EvDevicePointer buffers))) /\
  (exists evs,
     snd (Execute self handle buffers s)
       = mkState (heap s) (backend_log s ++ evs) /\
     forall pack,
       (EvVariantPackBuild pack ∈ evs \/
        exists h plan, EvBackendExecute h plan pack ∈ evs) ->
       pack_workspace pack = None) /\
  (forall plan rest,
     plans_ self = plan :: rest ->
     getWorkspaceSize plan = 0 ->
     fst (Execute self handle buffers s) <> AssertionFailure AssertNoWorkspace).
Proof.
  split; [|split; [|split]].
  - intros size. unfold CreateExecutable. rewrite !bind_unfold.
    cbv [heuristics]. rewrite !bind_unfold, !emit_run.
    cbv [mret M_ret].
    change (get_heuristics_list (with_workspace_size syms size))
      with (get_heuristics_list syms).
    destruct (get_heuristics_list syms ["heuristics_mode_a"%string]
                (og_graph_ graph) AcceptAllGraphs) as [statuses configs].
    destruct (bool_decide (configs = [])); [split; reflexivity|].
    rewrite !bind_unfold.
    destruct (plan_loop_ignores_workspace syms size handle graph configs [] []
                (mkState (heap s)
                   (backend_log s ++
                    [EvHeuristics ["heuristics_mode_a"%string]
                       (og_graph_ graph)])))
      as (l1 & l2 & s' & H1 & H2 & Hlen).
    rewrite H1, H2.
    rewrite (length_zero_nil_iff l1 l2 (Hlen eq_refl)).
    destruct (bool_decide (l2 = [])); split; reflexivity.
  - intros plan rest Hplans Hcount Hdev Huids Hws. unfold Execute.
    rewrite Hcount, Nat.eqb_refl. cbn [negb]. rewrite bind_unfold.
    destruct (GetDevicePointers_cases buffers s)
      as (evs & _ & [(_ & -> & Hrun) | (Hnot & _)]); [|contradiction].
    rewrite Hrun, length_map, Huids, Nat.eqb_refl. cbn [IREE_ASSERT].
    rewrite bind_unfold. cbv [mret M_ret]. rewrite Hplans.
    rewrite bind_unfold. cbv [plans_0 mret M_ret].
    destruct (getWorkspaceSize plan =? 0) eqn:Hz;
      [apply Z.eqb_eq in Hz; contradiction|].
    reflexivity.
  - unfold Execute.
    destruct (negb _).
    { exists []. split; [cbn; rewrite app_nil_r; destruct s; reflexivity|].
      intros pack [H | (h & plan & H)]; inversion H. }
    rewrite bind_unfold.
    destruct (GetDevicePointers_cases buffers s)
      as (evs & Hevs & [(_ & _ & Hrun) | (_ & Hrun)]); rewrite Hrun.
    2:{ exists evs. split; [reflexivity|].
        rewrite Forall_forall in Hevs.
        intros pack [H | (h & plan & H)]; apply Hevs in H; discriminate. }
    rewrite Forall_forall in Hevs.
    rewrite bind_unfold.
    destruct (length (map device_pointer buffers)
              =? length (uids_ (exe_graph_ self)))%nat;
      cbv [IREE_ASSERT mret M_ret abort].
    2:{ exists evs. split; [reflexivity|].
        intros pack [H | (h & plan & H)]; apply Hevs in H; discriminate. }
    rewrite bind_unfold.
    destruct (plans_ self) as [|plan rest]; cbv [plans_0 undefined mret M_ret].
    { exists evs. split; [reflexivity|].
      intros pack [H | (h & plan & H)]; apply Hevs in H; discriminate. }
    rewrite bind_unfold.
    destruct (getWorkspaceSize plan =? 0); cbv [IREE_ASSERT mret M_ret abort].
    2:{ exists evs. split; [reflexivity|].
        intros pack [H | (h & plan' & H)]; apply Hevs in H; discriminate. }
    rewrite bind_unfold. cbv [VariantPackBuilder.build].
    rewrite bind_unfold, emit_run. cbv [mret M_ret]. cbn [heap backend_log].
    rewrite bind_unfold.
    set (pack := VariantPackBuilder.setUids _ _).
    destruct (variant_pack_status (exe_syms_ self) pack);
      cbv [CUDNN_CONVERT_STATUS IREE_RETURN_IF_ERROR fail mret M_ret].
    2:{ exists (evs ++ [EvVariantPackBuild pack]).
        split; [rewrite app_assoc; reflexivity|].
        intros pack' [H | (h & plan' & H)];
          apply elem_of_app in H as [H | H];
          try (apply Hevs in H; discriminate);
          apply list_elem_of_singleton in H; inversion H; reflexivity. }
    rewrite bind_unfold. cbv [backend_execute].
    rewrite bind_unfold, emit_run. cbv [mret M_ret]. cbn [heap backend_log].
    exists (evs ++ [EvVariantPackBuild pack; EvBackendExecute handle plan pack]).
    split.
    { rewrite bind_unfold.
      destruct (cudnnBackendExecute (exe_syms_ self) handle plan pack);
        cbv [CUDNN_RETURN_IF_ERROR CUDNN_CONVERT_STATUS IREE_RETURN_IF_ERROR
             fail mret M_ret]; cbn [snd];
        rewrite <- !app_assoc; reflexivity. }
    intros pack' [H | (h & plan' & H)];
      apply elem_of_app in H as [H | H];
      try (apply Hevs in H; discriminate);
      apply elem_of_cons in H as [H | H]; try (inversion H; reflexivity);
      apply list_elem_of_singleton in H; inversion H; reflexivity.
  - intros plan rest Hplans Hws. unfold Execute.
    destruct (negb _); [discriminate|].
    rewrite bind_unfold.
    destruct (GetDevicePointers_cases buffers s)
      as (evs & Hevs & [(_ & _ & Hrun) | (_ & Hrun)]); rewrite Hrun;
      [|discriminate].
    rewrite bind_unfold.
    destruct (length (map device_pointer buffers)
              =? length (uids_ (exe_graph_ self)))%nat;
      cbv [IREE_ASSERT mret M_ret abort]; [|discriminate].
    rewrite bind_unfold, Hplans. cbv [plans_0 mret M_ret].
    rewrite bind_unfold, Hws. cbv [IREE_ASSERT mret M_ret Z.eqb].
    rewrite bind_unfold. cbv [VariantPackBuilder.build].
    rewrite bind_unfold, emit_run. cbv [mret M_ret]. cbn [heap backend_log].
    rewrite bind_unfold.
    set (pack := VariantPackBuilder.setUids _ _).
    destruct (variant_pack_status (exe_syms_ self) pack);
      cbv [CUDNN_CONVERT_STATUS IREE_RETURN_IF_ERROR fail mret M_ret];
      [|discriminate].
    rewrite bind_unfold. cbv [backend_execute].
    rewrite bind_unfold, emit_run. cbv [mret M_ret]. cbn [heap backend_log].
    rewrite bind_unfold.
    destruct (cudnnBackendExecute (exe_syms_ self) handle plan pack);
      cbv [CUDNN_RETURN_IF_ERROR CUDNN_CONVERT_STATUS IREE_RETURN_IF_ERROR
           fail mret M_ret]; discriminate.
Qed.

(** ** Runs of compilation and execution on concrete graphs *)

Lemma CreateExecutable_first_valid_plan_witness :
  CreateExecutable picky_backend 1 (small_graph picky_backend) empty_state
  = (Ok workspace_executable,
     mkState []
       [EvHeuristics ["heuristics_mode_a"%string] (mkOperationGraph 1 [] "graph");
        EvExecutionPlanBuild 1 7 "graph"; EvExecutionPlanBuild 1 8 "graph"]).
Proof.
  destruct (CreateExecutable_first_valid_plan picky_backend 1
              (small_graph picky_backend) empty_state) as (_ & _ & Hfirst).
  apply (Hfirst [7] 8 [9]).
  - reflexivity.
  - repeat constructor.
  - reflexivity.
Defined.

Lemma Execute_buffer_count_mismatch_witness :
  exists message,
    Execute plain_executable 1 [device_buffer 4096 0; device_buffer 8192 16]
      empty_state
    = (Failed (iree_make_status IREE_STATUS_INVALID_ARGUMENT message),
       empty_state).
Proof.
  apply (Execute_buffer_count_mismatch plain_executable 1
           [device_buffer 4096 0; device_buffer 8192 16] empty_state).
  cbn. lia.
Defined.

Lemma workspace_is_asserted_at_execute_witness :
  Execute workspace_executable 1
    [device_buffer 4096 0; device_buffer 8192 16; device_buffer 12288 0]
    empty_state
  = (AssertionFailure AssertNoWorkspace,
     mkState []
       [EvDevicePointer (device_buffer 4096 0);
        EvDevicePointer (device_buffer 8192 16);
        EvDevicePointer (device_buffer 12288 0)]) /\
  fst (Execute plain_executable 1
         [device_buffer 4096 0; device_buffer 8192 16; device_buffer 12288 0]
         empty_state)
  <> AssertionFailure AssertNoWorkspace.
Proof.
  split.
  - destruct (workspace_is_asserted_at_execute picky_backend
                (small_graph picky_backend) workspace_executable 1
                [device_buffer 4096 0; device_buffer 8192 16;
                 device_buffer 12288 0] empty_state) as (_ & Hassert & _).
    apply (Hassert (mkExecutionPlan 1 8 "graph" 1024) []).
    + reflexivity.
    + reflexivity.
    + repeat constructor.
    + reflexivity.
    + cbn. lia.
  - destruct (workspace_is_asserted_at_execute accepting_backend
                (small_graph accepting_backend) plain_executable 1
                [device_buffer 4096 0; device_buffer 8192 16;
                 device_buffer 12288 0] empty_state) as (_ & _ & _ & Hzero).
    apply (Hzero (mkExecutionPlan 1 7 "graph" 0) []); reflexivity.
Defined.

(** ** Operation graph construction *)

Section Traversal.

Variable h : list CuDNNTensor.

Lemma reachable_nil (p : ptr) : ~ reachable h [] p.
Proof. induction 1 as [p Hp|]; [inversion Hp | assumption]. Qed.

Lemma reachable_app (l1 l2 : list ptr) (p : ptr) :
  reachable h (l1 ++ l2) p <-> reachable h l1 p \/ reachable h l2 p.
Proof.
  split.
  - induction 1 as [p Hp | p q _ IH Hq].
    + apply elem_of_app in Hp as [Hp | Hp];
        [left | right]; apply reachable_root; exact Hp.
    + destruct IH as [IH | IH]; [left | right];
        eapply reachable_input; eauto.
  - intros [H | H]; induction H as [p Hp | p q _ IH Hq].
    + apply reachable_root, elem_of_app. auto.
    + eapply reachable_input; eauto.
    + apply reachable_root, elem_of_app. auto.
    + eapply reachable_input; eauto.
Qed.

Lemma reachable_singleton (t p : ptr) :
  reachable h [t] p <-> p = t \/ reachable h (inputs_at h t) p.
Proof.
  split.
  - induction 1 as [p Hp | p q _ IH Hq].
    + apply list_elem_of_singleton in Hp. auto.
    + right. destruct IH as [-> | IH].
      * apply reachable_root. exact Hq.
      * eapply reachable_input; eauto.
  - intros [-> | H].
    + apply reachable_root, list_elem_of_singleton. reflexivity.
    + induction H as [p Hp | p q _ IH Hq].
      * eapply reachable_input; [|exact Hp].
        apply reachable_root, list_elem_of_singleton. reflexivity.
      * eapply reachable_input; eauto.
Qed.

(** One iteration of the loop, for a work-list with [p] at its back. *)
Lemma worklist_loop_snoc (fuel : nat) (worklist : list ptr) (p : ptr)
    (args : gset ptr) (ops : list operation_ptr) :
  worklist_loop (S fuel) h (worklist ++ [p]) args ops =
  match h !! p with
  | None => UndefinedBehaviour
  | Some (CuDNNArgTensor _) => worklist_loop fuel h worklist ({[p]} ∪ args) ops
  | Some (CuDNNOpResultTensor inputs_ _ _) =>
      worklist_loop fuel h (worklist ++ inputs_) args (ops ++ [p])
  end.
Proof.
  cbn [worklist_loop]. rewrite last_snoc, removelast_last.
  destruct (h !! p) as [[|]|]; reflexivity.
Qed.

Lemma worklist_loop_nil (fuel : nat) (args : gset ptr) (ops : list operation_ptr) :
  worklist_loop fuel h [] args ops = Ok (args, ops).
Proof. destruct fuel; reflexivity. Qed.

Lemma worklist_loop_no_fuel (worklist : list ptr) (p : ptr) (args : gset ptr)
    (ops : list operation_ptr) :
  worklist_loop 0 h (worklist ++ [p]) args ops = OutOfFuel.
Proof. cbn [worklist_loop]. rewrite last_snoc. reflexivity. Qed.

(** More fuel does not change the result of a loop that ended. *)
Lemma worklist_loop_more_fuel (fuel : nat) :
  forall (fuel' : nat) (worklist : list ptr) (args : gset ptr)
         (ops : list operation_ptr) (r : gset ptr * list operation_ptr),
    (fuel <= fuel')%nat ->
    worklist_loop fuel h worklist args ops = Ok r ->
    worklist_loop fuel' h worklist args ops = Ok r.
Proof.
  induction fuel as [|fuel IH]; intros fuel' worklist args ops r Hle Hrun;
    destruct worklist as [|t worklist _] using rev_ind.
  - rewrite worklist_loop_nil in Hrun |- *. exact Hrun.
  - rewrite worklist_loop_no_fuel in Hrun. discriminate.
  - rewrite worklist_loop_nil in Hrun |- *. exact Hrun.
  - destruct fuel' as [|fuel']; [lia|].
    rewrite worklist_loop_snoc in Hrun |- *.
    destruct (h !! t) as [[tensor_ | inputs_ operation_ tensor_]|];
      [| |discriminate]; apply (IH fuel'); (lia || exact Hrun).
Qed.

(** The set the loop ends with: what it started with and the argument
    tensors reachable from the work-list. *)
Lemma worklist_loop_args (fuel : nat) :
  forall (worklist : list ptr) (args : gset ptr) (ops : list operation_ptr)
         (args' : gset ptr) (ops' : list operation_ptr),
    worklist_loop fuel h worklist args ops = Ok (args', ops') ->
    forall p, p ∈ args' <-> p ∈ args \/ (reachable h worklist p /\ is_arg h p).
Proof.
  induction fuel as [|fuel IH]; intros worklist args ops args' ops' Hrun p;
    destruct worklist as [|t worklist _] using rev_ind.
  - rewrite worklist_loop_nil in Hrun. injection Hrun as <- <-.
    split; [auto | intros [? | [Hr _]]; [assumption | destruct (reachable_nil _ Hr)]].
  - rewrite worklist_loop_no_fuel in Hrun. discriminate.
  - rewrite worklist_loop_nil in Hrun. injection Hrun as <- <-.
    split; [auto | intros [? | [Hr _]]; [assumption | destruct (reachable_nil _ Hr)]].
  - rewrite worklist_loop_snoc in Hrun.
    rewrite reachable_app, reachable_singleton. unfold inputs_at.
    destruct (h !! t) as [[tensor_ | inputs_ operation_ tensor_]|] eqn:Ht;
      [| |discriminate].
    + rewrite (IH _ _ _ _ _ Hrun p), elem_of_union, elem_of_singleton.
      cbn [inputs]. split.
      * intros [[-> | Hp] | [Hr Ha]]; eauto.
        right. split; [eauto | exists tensor_; exact Ht].
      * intros [Hp | [[Hr | [-> | Hr]] Ha]]; eauto.
        destruct (reachable_nil _ Hr).
    + rewrite (IH _ _ _ _ _ Hrun p), reachable_app. cbn [inputs]. split.
      * intros [Hp | [[Hr | Hr] Ha]]; eauto 6.
      * intros [Hp | [[Hr | [-> | Hr]] Ha]]; eauto 6.
        destruct Ha as [tensor' Ha]. rewrite Ht in Ha. discriminate.
Qed.

(** The operations the loop ends with: those it started with and the
    operations of the result tensors reachable from the work-list. *)
Lemma worklist_loop_ops (fuel : nat) :
  forall (worklist : list ptr) (args : gset ptr) (ops : list operation_ptr)
         (args' : gset ptr) (ops' : list operation_ptr),
    worklist_loop fuel h worklist args ops = Ok (args', ops') ->
    forall p, p ∈ ops' <-> p ∈ ops \/ (reachable h worklist p /\ is_op_result h p).
Proof.
  induction fuel as [|fuel IH]; intros worklist args ops args' ops' Hrun p;
    destruct worklist as [|t worklist _] using rev_ind.
  - rewrite worklist_loop_nil in Hrun. injection Hrun as <- <-.
    split; [auto | intros [? | [Hr _]]; [assumption | destruct (reachable_nil _ Hr)]].
  - rewrite worklist_loop_no_fuel in Hrun. discriminate.
  - rewrite worklist_loop_nil in Hrun. injection Hrun as <- <-.
    split; [auto | intros [? | [Hr _]]; [assumption | destruct (reachable_nil _ Hr)]].
  - rewrite worklist_loop_snoc in Hrun.
    rewrite reachable_app, reachable_singleton. unfold inputs_at.
    destruct (h !! t) as [[tensor_ | inputs_ operation_ tensor_]|] eqn:Ht;
      [| |discriminate].
    + rewrite (IH _ _ _ _ _ Hrun p). cbn [inputs]. split.
      * intros [Hp | [Hr Ho]]; eauto.
      * intros [Hp | [[Hr | [-> | Hr]] Ho]]; eauto.
        -- destruct Ho as (i_ & o_ & t_ & Ho). rewrite Ht in Ho. discriminate.
        -- destruct (reachable_nil _ Hr).
    + rewrite (IH _ _ _ _ _ Hrun p), reachable_app, elem_of_app,
        list_elem_of_singleton. cbn [inputs]. split.
      * intros [[Hp | ->] | [[Hr | Hr] Ho]]; eauto 6.
        right. split; [eauto | exists inputs_, operation_, tensor_; exact Ht].
      * intros [Hp | [[Hr | [-> | Hr]] Ho]]; eauto 6.
Qed.

(** A loop that ends has found a live tensor behind every pointer it could
    reach. *)
Lemma worklist_loop_live (fuel : nat) :
  forall (worklist : list ptr) (args : gset ptr) (ops : list operation_ptr)
         (args' : gset ptr) (ops' : list operation_ptr),
    worklist_loop fuel h worklist args ops = Ok (args', ops') ->
    forall p, reachable h worklist p -> is_arg h p \/ is_op_result h p.
Proof.
  induction fuel as [|fuel IH]; intros worklist args ops args' ops' Hrun p;
    destruct worklist as [|t worklist _] using rev_ind.
  - intros Hr. destruct (reachable_nil _ Hr).
  - rewrite worklist_loop_no_fuel in Hrun. discriminate.
  - intros Hr. destruct (reachable_nil _ Hr).
  - rewrite worklist_loop_snoc in Hrun.
    rewrite reachable_app, reachable_singleton. unfold inputs_at.
    destruct (h !! t) as [[tensor_ | inputs_ operation_ tensor_]|] eqn:Ht;
      [| |discriminate]; cbn [inputs].
    + intros [Hr | [-> | Hr]].
      * eapply IH; eauto.
      * left. exists tensor_. exact Ht.
      * destruct (reachable_nil _ Hr).
    + intros [Hr | [-> | Hr]].
      * eapply IH; [exact Hrun|]. apply reachable_app. auto.
      * right. exists inputs_, operation_, tensor_. exact Ht.
      * eapply IH; [exact Hrun|]. apply reachable_app. auto.
Qed.

Lemma worklist_loop_producers (fuel : nat) :
  forall (worklist : list ptr) (args : gset ptr) (ops : list operation_ptr)
         (args' : gset ptr) (ops' : list operation_ptr),
    worklist_loop fuel h worklist args ops = Ok (args', ops') ->
    producers_pending h ops worklist -> producers_pending h ops' [].
Proof.
  induction fuel as [|fuel IH]; intros worklist args ops args' ops' Hrun Hpend;
    destruct worklist as [|t worklist _] using rev_ind.
  - rewrite worklist_loop_nil in Hrun. injection Hrun as <- <-. exact Hpend.
  - rewrite worklist_loop_no_fuel in Hrun. discriminate.
  - rewrite worklist_loop_nil in Hrun. injection Hrun as <- <-. exact Hpend.
  - rewrite worklist_loop_snoc in Hrun.
    destruct (h !! t) as [[tensor_ | inputs_ operation_ tensor_]|] eqn:Ht;
      [| |discriminate].
    + apply (IH _ _ _ _ _ Hrun). intros i p q Hi Hq Ho.
      destruct (Hpend i p q Hi Hq Ho) as [Hlater | Hwl]; [left; exact Hlater|].
      apply elem_of_app in Hwl as [Hwl | Hwl]; [right; exact Hwl|].
      apply list_elem_of_singleton in Hwl as ->.
      destruct Ho as (i_ & o_ & t_ & Ho). rewrite Ht in Ho. discriminate.
    + apply (IH _ _ _ _ _ Hrun). intros i p q Hi Hq Ho.
      apply lookup_app_Some in Hi as [Hi | [Hge Hi]].
      * destruct (Hpend i p q Hi Hq Ho) as [(j & Hlt & Hj) | Hwl].
        -- left. exists j. split; [exact Hlt|].
           apply lookup_app_Some. left. exact Hj.
        -- apply elem_of_app in Hwl as [Hwl | Hwl].
           ++ right. apply elem_of_app. left. exact Hwl.
           ++ apply list_elem_of_singleton in Hwl as ->.
              left. exists (length ops). split.
              ** eapply lookup_lt_Some. exact Hi.
              ** apply list_lookup_middle. reflexivity.
      * apply list_lookup_singleton_Some in Hi as [_ <-].
        right. apply elem_of_app. right.
        unfold inputs_at in Hq. rewrite Ht in Hq. exact Hq.
Qed.

(** *** Termination *)

Lemma worklist_loop_pops_list (l : list ptr) :
  (forall q, q ∈ l ->
     exists k, forall fuel worklist args ops, exists args' ops',
       worklist_loop (k + fuel) h (worklist ++ [q]) args ops
       = worklist_loop fuel h worklist args' ops') ->
  exists k, forall fuel worklist args ops, exists args' ops',
    worklist_loop (k + fuel) h (worklist ++ l) args ops
    = worklist_loop fuel h worklist args' ops'.
Proof.
  induction l as [|q l IH] using rev_ind; intros Hl.
  - exists 0%nat. intros fuel worklist args ops. exists args, ops.
    rewrite app_nil_r. reflexivity.
  - destruct (Hl q) as [kq Hq]; [apply elem_of_app; right; constructor|].
    destruct IH as [k Hk].
    { intros q' Hq'. apply Hl, elem_of_app. left. exact Hq'. }
    exists (kq + k)%nat. intros fuel worklist args ops.
    destruct (Hq (k + fuel)%nat (worklist ++ l) args ops) as (args1 & ops1 & H1).
    destruct (Hk fuel worklist args1 ops1) as (args2 & ops2 & H2).
    exists args2, ops2. rewrite app_assoc, <- Nat.add_assoc, H1, H2.
    reflexivity.
Qed.

Lemma worklist_loop_pops_node :
  heap_wf h ->
  forall (n : nat) (p : ptr), (p < n)%nat -> (p < length h)%nat ->
    exists k, forall fuel worklist args ops, exists args' ops',
      worklist_loop (k + fuel) h (worklist ++ [p]) args ops
      = worklist_loop fuel h worklist args' ops'.
Proof.
  intros Hwf. induction n as [|n IH]; intros p Hn Hlive; [lia|].
  destruct (lookup_lt_is_Some_2 _ _ Hlive) as [t Ht].
  destruct t as [tensor_ | inputs_ operation_ tensor_].
  - exists 1%nat. intros fuel worklist args ops. exists ({[p]} ∪ args), ops.
    cbn [Nat.add]. rewrite worklist_loop_snoc, Ht. reflexivity.
  - destruct (worklist_loop_pops_list inputs_) as [k Hk].
    { intros q Hq. pose proof (Hwf p _ q Ht Hq) as Hlt.
      apply IH; lia. }
    exists (S k). intros fuel worklist args ops.
    destruct (Hk fuel worklist args (ops ++ [p])) as (args' & ops' & Hrun).
    exists args', ops'. cbn [Nat.add]. rewrite worklist_loop_snoc, Ht.
    exact Hrun.
Qed.

(** With enough fuel the loop ends, whatever it starts from. *)
Lemma worklist_loop_terminates (worklist : list ptr) :
  heap_wf h -> (forall p, p ∈ worklist -> (p < length h)%nat) ->
  exists k, forall fuel args ops, (k <= fuel)%nat ->
    exists args' ops', worklist_loop fuel h worklist args ops = Ok (args', ops').
Proof.
  intros Hwf Hlive.
  destruct (worklist_loop_pops_list worklist) as [k Hk].
  { intros q Hq. apply (worklist_loop_pops_node Hwf (S q)); [lia | auto]. }
  exists k. intros fuel args ops Hfuel.
  destruct (Hk (fuel - k)%nat [] args ops) as (args' & ops' & Hrun).
  exists args', ops'. replace fuel with (k + (fuel - k))%nat by lia.
  cbn [app] in Hrun. rewrite Hrun. apply worklist_loop_nil.
Qed.

End Traversal.

(** *** Sorting by id *)

Section SortByKey.

Context {A : Type} (key : A -> Z).

Lemma sort_insert_perm (x : A) (l : list A) :
  sort_insert (fun a b => key a <? key b) x l ≡ₚ x :: l.
Proof.
  induction l as [|y l IH]; cbn [sort_insert]; [reflexivity|].
  destruct (key x <? key y); [reflexivity|].
  rewrite IH. apply Permutation_swap.
Qed.

Lemma std_sort_perm (l : list A) :
  std_sort (fun a b => key a <? key b) l ≡ₚ l.
Proof.
  induction l as [|x l IH]; cbn [std_sort foldr]; [reflexivity|].
  fold (std_sort (fun a b => key a <? key b) l).
  rewrite sort_insert_perm, IH. reflexivity.
Qed.

Lemma sort_insert_sorted (x : A) (l : list A) :
  StronglySorted Z.le (key <$> l) ->
  StronglySorted Z.le (key <$> sort_insert (fun a b => key a <? key b) x l).
Proof.
  induction l as [|y l IH]; cbn [sort_insert fmap list_fmap]; intros Hsorted.
  - repeat constructor.
  - apply StronglySorted_inv in Hsorted as [Htail Hhead].
    destruct (key x <? key y) eqn:Hlt.
    + apply Z.ltb_lt in Hlt. cbn [fmap list_fmap].
      constructor; [constructor; assumption|].
      constructor; [lia|].
      eapply Forall_impl; [exact Hhead|]. cbn. intros z Hz. lia.
    + apply Z.ltb_ge in Hlt. cbn [fmap list_fmap].
      constructor; [apply IH; exact Htail|].
      rewrite (sort_insert_perm x l). cbn [fmap list_fmap].
      constructor; assumption.
Qed.

Lemma std_sort_sorted (l : list A) :
  StronglySorted Z.le (key <$> std_sort (fun a b => key a <? key b) l).
Proof.
  induction l as [|x l IH]; cbn [std_sort foldr]; [constructor|].
  apply sort_insert_sorted. exact IH.
Qed.

(** The keys of the sorted list do not depend on the order of the input. *)
Lemma std_sort_keys_perm (l1 l2 : list A) :
  l1 ≡ₚ l2 ->
  key <$> std_sort (fun a b => key a <? key b) l1
  = key <$> std_sort (fun a b => key a <? key b) l2.
Proof.
  intros Hperm. apply (StronglySorted_unique Z.le).
  - apply std_sort_sorted.
  - apply std_sort_sorted.
  - rewrite !std_sort_perm, Hperm. reflexivity.
Qed.

End SortByKey.

Lemma StronglySorted_le_NoDup_lt (l : list Z) :
  StronglySorted Z.le l -> NoDup l -> StronglySorted Z.lt l.
Proof.
  induction 1 as [|x l Hsorted IH Hhead]; intros Hnodup; [constructor|].
  apply NoDup_cons in Hnodup as [Hx Hnodup].
  constructor; [auto|].
  rewrite Forall_forall in Hhead |- *. intros y Hy.
  pose proof (Hhead y Hy). assert (x <> y) by (intros ->; contradiction). lia.
Qed.

(** Equal key sequences of lists over which the key is injective. *)
Lemma fmap_inj_on {A B : Type} (f : A -> B) (l1 l2 : list A) :
  (forall a b, a ∈ l1 -> b ∈ l2 -> f a = f b -> a = b) ->
  f <$> l1 = f <$> l2 -> l1 = l2.
Proof.
  revert l2. induction l1 as [|a l1 IH]; intros [|b l2] Hinj Heq;
    try discriminate; [reflexivity|].
  cbn [fmap list_fmap] in Heq. injection Heq as Hab Heq.
  f_equal.
  - apply Hinj; [constructor | constructor | exact Hab].
  - apply IH; [|exact Heq].
    intros a' b' Ha Hb. apply Hinj; constructor; assumption.
Qed.

(** *** The constructor and the whole of [CreateOperationGraph] *)

Lemma retain_all_run (tensors : list ptr) :
  forall (refs : list ptr) (uids : list Z) (s : State),
    (forall p, p ∈ tensors -> is_Some (heap s !! p)) ->
    retain_all tensors refs uids s
    = (Ok (refs ++ tensors, uids ++ (tensor_id (heap s) <$> tensors)), s).
Proof.
  induction tensors as [|t tensors IH]; intros refs uids s Hlive.
  - cbn. rewrite !app_nil_r. reflexivity.
  - destruct (Hlive t) as [t_ Ht]; [constructor|].
    cbn [retain_all]. rewrite (bind_Ok_intro _ _ _ _ _ (deref_run _ _ _ Ht)).
    rewrite IH by (intros p Hp; apply Hlive; constructor; exact Hp).
    cbn [fmap list_fmap]. unfold tensor_id at 2. rewrite Ht.
    rewrite <- !app_assoc. reflexivity.
Qed.

Lemma retain_all_Ok_inv (tensors : list ptr) :
  forall (refs : list ptr) (uids : list Z) (s s' : State)
         (refs' : list ptr) (uids' : list Z),
    retain_all tensors refs uids s = (Ok (refs', uids'), s') ->
    s' = s /\ refs' = refs ++ tensors /\
    uids' = uids ++ (tensor_id (heap s) <$> tensors).
Proof.
  induction tensors as [|t tensors IH]; intros refs uids s s' refs' uids' H.
  - cbn in H. injection H as <- <- <-. rewrite !app_nil_r. auto.
  - cbn [retain_all] in H. apply bind_Ok_inv in H as (t_ & s1 & Ht & H).
    apply deref_Ok_inv in Ht as [Ht ->].
    apply IH in H as (-> & -> & ->).
    cbn [fmap list_fmap]. unfold tensor_id at 2. rewrite Ht.
    rewrite <- !app_assoc. auto.
Qed.

Lemma mapM_operation_at_Ok_inv (ops : list operation_ptr) :
  forall (s s' : State) (operations : list Operation),
    mapM operation_at ops s = (Ok operations, s') ->
    s' = s /\ Forall2 (owns (heap s)) ops operations.
Proof.
  induction ops as [|p ops IH]; intros s s' operations H.
  - cbn in H. injection H as <- <-. split; [reflexivity | constructor].
  - cbn [mapM] in H. apply bind_Ok_inv in H as (o & s1 & Hp & H).
    apply bind_Ok_inv in H as (k & s2 & Hk & H).
    injection H as <- <-.
    unfold operation_at in Hp. apply bind_Ok_inv in Hp as (t & s3 & Ht & Hp).
    apply deref_Ok_inv in Ht as [Ht ->].
    destruct t as [tensor_ | inputs_ operation_ tensor_]; cbn in Hp;
      [discriminate|]. injection Hp as <- <-.
    apply IH in Hk as [-> Hk].
    split; [reflexivity|]. constructor; [|exact Hk].
    exists inputs_, tensor_. exact Ht.
Qed.

Lemma mapM_cons {A B : Type} (f : A -> M B) (x : A) (l : list A) :
  mapM f (x :: l) = (y ← f x; k ← mapM f l; mret (y :: k)).
Proof. reflexivity. Qed.

Lemma operation_at_run (p : operation_ptr) (s : State) inputs_ operation_ tensor_ :
  heap s !! p = Some (CuDNNOpResultTensor inputs_ operation_ tensor_) ->
  operation_at p s = (Ok operation_, s).
Proof.
  intros Hp. unfold operation_at.
  rewrite (bind_Ok_intro _ _ _ _ _ (deref_run _ _ _ Hp)). reflexivity.
Qed.

Lemma mapM_operation_at_run (ops : list operation_ptr) (s : State) :
  Forall (is_op_result (heap s)) ops ->
  exists operations, mapM operation_at ops s = (Ok operations, s).
Proof.
  induction 1 as [|p ops (inputs_ & operation_ & tensor_ & Hp) _ [k IH]].
  - exists []. reflexivity.
  - exists (operation_ :: k). rewrite mapM_cons.
    rewrite (bind_Ok_intro _ _ _ _ _ (operation_at_run _ _ _ _ _ Hp)).
    rewrite (bind_Ok_intro _ _ _ _ _ IH). reflexivity.
Qed.

(** What a successful [CreateOperationGraph] returns. *)
Lemma CreateOperationGraph_Ok_inv order fuel syms handle rets s graph s' :
  CreateOperationGraph order fuel syms handle rets s = (Ok graph, s') ->
  exists (args : gset ptr) (ops : list operation_ptr),
    worklist_loop fuel (heap s) rets ∅ [] = Ok (args, ops) /\
    Forall2 (owns (heap s)) (reverse ops) (og_operations (og_graph_ graph)) /\
    args_ graph
      = std_sort (fun a b => tensor_id (heap s) a <? tensor_id (heap s) b)
          (iterate order args) /\
    rets_ graph = rets /\
    uids_ graph
      = (tensor_id (heap s) <$> args_ graph) ++ (tensor_id (heap s) <$> rets) /\
    heap s' = heap s.
Proof.
  unfold CreateOperationGraph. intros H.
  apply bind_Ok_inv in H as (h & s1 & Hh & H). injection Hh as <- <-.
  apply bind_Ok_inv in H as ([args ops] & s1 & Hloop & H).
  unfold lift in Hloop. injection Hloop as Hloop <-.
  apply bind_Ok_inv in H as (operations & s1 & Hops & H).
  apply mapM_operation_at_Ok_inv in Hops as [-> Hops].
  apply bind_Ok_inv in H as (og & s1 & Hbuild & H).
  unfold OperationGraphBuilder.build in Hbuild.
  apply bind_Ok_inv in Hbuild as ([] & s2 & Hemit & Hbuild).
  rewrite emit_run in Hemit. injection Hemit as <-.
  injection Hbuild as <- <-.
  apply bind_Ok_inv in H as ([] & s1 & Hstatus & H).
  apply return_if_error_Ok_inv in Hstatus as [_ ->].
  unfold new_CuDNNOperationGraph in H.
  apply bind_Ok_inv in H as ([refs1 uids1] & s1 & Hargs & H).
  apply retain_all_Ok_inv in Hargs as (-> & -> & ->).
  apply bind_Ok_inv in H as ([refs2 uids2] & s1 & Hrets & H).
  apply retain_all_Ok_inv in Hrets as (-> & -> & ->).
  injection H as <- <-.
  exists args, ops. cbn. auto 10.
Qed.

Lemma reachable_ext (h : list CuDNNTensor) (l1 l2 : list ptr) (p : ptr) :
  (forall q, q ∈ l1 <-> q ∈ l2) -> reachable h l1 p <-> reachable h l2 p.
Proof.
  intros Hsame. split; induction 1 as [p Hp | p q _ IH Hq].
  - apply reachable_root, Hsame, Hp.
  - eapply reachable_input; eauto.
  - apply reachable_root, Hsame, Hp.
  - eapply reachable_input; eauto.
Qed.

(** On a heap whose inputs point to earlier tensors, and for returns that
    are tensors of the heap, [CreateOperationGraph] with enough fuel ends
    with a graph, or with the error of the backend's graph build. *)
Lemma CreateOperationGraph_total order syms handle rets s :
  heap_wf (heap s) ->
  (forall p, p ∈ rets -> (p < length (heap s))%nat) ->
  exists k, forall fuel, (k <= fuel)%nat ->
    exists r s',
      CreateOperationGraph order fuel syms handle rets s = (r, s') /\
      ((exists graph, r = Ok graph) \/ (exists e, r = Failed e)).
Proof.
  intros Hwf Hrets.
  destruct (worklist_loop_terminates (heap s) rets Hwf Hrets) as [k Hk].
  exists k. intros fuel Hfuel.
  destruct (Hk fuel ∅ [] Hfuel) as (args & ops & Hloop).
  destruct (mapM_operation_at_run (reverse ops) s) as [operations Hops].
  { apply Forall_forall. intros p Hp. rewrite elem_of_reverse in Hp.
    apply (worklist_loop_ops _ _ _ _ _ _ _ Hloop) in Hp as [Hp | [_ Hp]];
      [inversion Hp | exact Hp]. }
  assert (Hargs : forall p,
            p ∈ std_sort (fun a b => tensor_id (heap s) a <? tensor_id (heap s) b)
                  (iterate order args) ->
            is_Some (heap s !! p)).
  { intros p Hp. rewrite std_sort_perm, iterate_perm in Hp.
    apply elem_of_elements in Hp.
    apply (worklist_loop_args _ _ _ _ _ _ _ Hloop) in Hp
      as [Hp | [_ (tensor_ & Hp)]]; [set_solver | eauto]. }
  destruct (operation_graph_status syms handle operations) eqn:Hstatus.
  - eexists _, _. split; [|left; eexists; reflexivity].
    unfold CreateOperationGraph. rewrite bind_unfold. unfold the_heap at 1.
    rewrite Hloop. rewrite bind_unfold. unfold lift at 1.
    rewrite (bind_Ok_intro _ _ _ _ _ Hops).
    unfold OperationGraphBuilder.build.
    rewrite bind_unfold, bind_unfold, emit_run. cbv beta iota.
    unfold mret at 1, M_ret at 1. cbv beta iota.
    rewrite bind_unfold, Hstatus. cbn [CUDNN_CONVERT_STATUS IREE_RETURN_IF_ERROR].
    unfold mret at 1, M_ret at 1. cbv beta iota.
    unfold new_CuDNNOperationGraph. rewrite bind_unfold.
    rewrite retain_all_run by exact Hargs.
    rewrite bind_unfold, retain_all_run
      by (cbn [heap]; intros p Hp; apply lookup_lt_is_Some_2, Hrets, Hp).
    reflexivity.
  - eexists _, _. split; [|right; eexists; reflexivity].
    unfold CreateOperationGraph. rewrite bind_unfold. unfold the_heap at 1.
    rewrite Hloop. rewrite bind_unfold. unfold lift at 1.
    rewrite (bind_Ok_intro _ _ _ _ _ Hops).
    unfold OperationGraphBuilder.build.
    rewrite bind_unfold, bind_unfold, emit_run. cbv beta iota.
    unfold mret at 1, M_ret at 1. cbv beta iota.
    rewrite bind_unfold, Hstatus. reflexivity.
Qed.

(** *** The heap built by the constructors

    A constructor allocates its node after the tensors it refers to, so
    inputs point to earlier tensors in every heap built from the empty one. *)

Lemma heap_wf_nil : heap_wf [].
Proof. intros p t q Hp. rewrite lookup_nil in Hp. discriminate. Qed.

Lemma heap_wf_alloc (h : list CuDNNTensor) (t : CuDNNTensor) :
  heap_wf h -> (forall q, q ∈ inputs t -> (q < length h)%nat) ->
  heap_wf (h ++ [t]).
Proof.
  intros Hwf Ht p t' q Hp Hq.
  apply lookup_app_Some in Hp as [Hp | [Hge Hp]].
  - exact (Hwf p t' q Hp Hq).
  - apply list_lookup_singleton_Some in Hp as [Hp <-].
    pose proof (Ht q Hq). lia.
Qed.

Lemma CreateTensor_heap_wf syms dims strides uid dtype alignment s p s' :
  heap_wf (heap s) ->
  CreateTensor syms dims strides uid dtype alignment s = (Ok p, s') ->
  heap_wf (heap s').
Proof.
  intros Hwf H. unfold CreateTensor in H. inv_run H.
  rewrite new_run in H. injection H as <- <-. cbn [heap].
  apply heap_wf_alloc; [exact Hwf|]. intros q Hq. inversion Hq.
Qed.

Lemma CreatePointwise_heap_wf syms c uid alignment is_virtual s p s' :
  heap_wf (heap s) ->
  CreatePointwise syms c uid alignment is_virtual s = (Ok p, s') ->
  heap_wf (heap s').
Proof.
  intros Hwf H.
  apply CreatePointwise_Ok_inv in H as (x_ & op & y & _ & _ & -> & _ & Hlive).
  apply heap_wf_alloc; [exact Hwf|]. exact Hlive.
Qed.

Lemma CreateConvolution_heap_wf syms input filter uid alignment is_virtual mode
    s p s' :
  heap_wf (heap s) ->
  CreateConvolution syms input filter uid alignment is_virtual mode s
    = (Ok p, s') ->
  heap_wf (heap s').
Proof.
  intros Hwf H.
  apply CreateConvolution_Ok_inv in H
    as (i_ & f_ & n & c & h & w & k & c' & kh & kw & op & y &
        Hin & Hf & _ & _ & _ & -> & _).
  apply heap_wf_alloc; [exact Hwf|]. cbn [inputs]. intros q Hq.
  apply elem_of_cons in Hq as [-> | Hq].
  - eapply lookup_lt_Some. exact Hin.
  - apply list_elem_of_singleton in Hq as ->. eapply lookup_lt_Some. exact Hf.
Qed.

Lemma diamond_heap_wf : heap_wf (heap diamond_state).
Proof.
  intros p t q Hp Hq.
  destruct p as [|[|[|[|[|p]]]]]; cbn in Hp; try discriminate;
    injection Hp as <-; cbn in Hq;
    repeat (apply elem_of_cons in Hq as [-> | Hq]; [lia|]); inversion Hq.
Qed.

Lemma diamond_unique_ids (p q : ptr) :
  reachable (heap diamond_state) [4%nat] p ->
  reachable (heap diamond_state) [4%nat] q ->
  is_arg (heap diamond_state) p -> is_arg (heap diamond_state) q ->
  tensor_id (heap diamond_state) p = tensor_id (heap diamond_state) q -> p = q.
Proof.
  intros _ _ [tp Hp] [tq Hq].
  destruct p as [|[|[|[|[|p]]]]]; cbn in Hp; try discriminate;
    destruct q as [|[|[|[|[|q]]]]]; cbn in Hq; try discriminate;
    cbn; intros H; try discriminate; reflexivity.
Qed.

(** C2: on a heap whose inputs point to earlier tensors and for returns
    that are tensors of the heap, [CreateOperationGraph] with enough fuel
    ends with a graph or with the error of the backend's graph build. For
    every graph it returns: the arguments are exactly the argument tensors
    reachable from the returns by input edges, each once; their ids are
    ascending, and strictly ascending when distinct reachable argument
    tensors have distinct ids, which the data model asks of the caller and
    the code does not check; the
    returns are the given ones in the given order; the id sequence is the
    ids of the arguments followed by the ids of the returns, and its
    length is the number of arguments plus the number of returns. *)
Theorem CreateOperationGraph_arguments order syms handle rets s :
  heap_wf (heap s) ->
  (forall p, p ∈ rets -> (p < length (heap s))%nat) ->
  (exists k, forall fuel, (k <= fuel)%nat ->
     exists r s',
       CreateOperationGraph order fuel syms handle rets s = (r, s') /\
       ((exists graph, r = Ok graph) \/ (exists e, r = Failed e))) /\
  (forall fuel graph s',
     CreateOperationGraph order fuel syms handle rets s = (Ok graph, s') ->
     (forall p, p ∈ args_ graph <->
                reachable (heap s) rets p /\ is_arg (heap s) p) /\
     NoDup (args_ graph) /\
     StronglySorted Z.le (tensor_id (heap s) <$> args_ graph) /\
     ((forall p q,
         reachable (heap s) rets p -> reachable (heap s) rets q ->
         is_arg (heap s) p -> is_arg (heap s) q ->
         tensor_id (heap s) p = tensor_id (heap s) q -> p = q) ->
      StronglySorted Z.lt (tensor_id (heap s) <$> args_ graph)) /\
     rets_ graph = rets /\
     uids_ graph
       = (tensor_id (heap s) <$> args_ graph) ++
         (tensor_id (heap s) <$> rets_ graph) /\
     length (uids_ graph)
       = (length (args_ graph) + length (rets_ graph))%nat).
Proof.
  intros Hwf Hrets. split.
  { apply CreateOperationGraph_total; assumption. }
  intros fuel graph s' Hrun.
  apply CreateOperationGraph_Ok_inv in Hrun
    as (args & ops & Hloop & _ & Hargs & Hr & Huids & _).
  assert (Hmem : forall p, p ∈ args_ graph <->
                           reachable (heap s) rets p /\ is_arg (heap s) p).
  { intros p. rewrite Hargs, std_sort_perm, iterate_perm, elem_of_elements.
    rewrite (worklist_loop_args _ _ _ _ _ _ _ Hloop p), elem_of_empty.
    tauto. }
  assert (Hnodup : NoDup (args_ graph)).
  { rewrite Hargs, std_sort_perm, iterate_perm. apply NoDup_elements. }
  assert (Hsorted : StronglySorted Z.le (tensor_id (heap s) <$> args_ graph)).
  { rewrite Hargs. apply std_sort_sorted. }
  split; [exact Hmem|]. split; [exact Hnodup|]. split; [exact Hsorted|]. split.
  { intros Hunique. apply StronglySorted_le_NoDup_lt; [exact Hsorted|].
    apply NoDup_fmap_2_strong; [|exact Hnodup].
    intros p q Hp Hq. apply Hmem in Hp as [Hp Hpa], Hq as [Hq Hqa].
    apply Hunique; assumption. }
  split; [exact Hr|]. split; [rewrite Hr; exact Huids|].
  rewrite Huids, Hr, length_app, !length_fmap. reflexivity.
Qed.

Lemma CreateOperationGraph_arguments_witness :
  exists graph s',
    CreateOperationGraph hash_order 16 accepting_backend 1 [4%nat] diamond_state
      = (Ok graph, s') /\
    args_ graph = [1%nat; 0%nat] /\
    uids_ graph = [5; 11; 22] /\
    StronglySorted Z.lt (tensor_id (heap diamond_state) <$> args_ graph).
Proof.
  destruct (CreateOperationGraph_arguments hash_order accepting_backend 1
              [4%nat] diamond_state) as [_ Hgraph].
  - exact diamond_heap_wf.
  - intros p Hp. apply list_elem_of_singleton in Hp as ->. cbn. lia.
  - destruct (CreateOperationGraph hash_order 16 accepting_backend 1 [4%nat]
                diamond_state) as [[graph| | | |] s'] eqn:Hrun;
      try (vm_compute in Hrun; discriminate).
    exists graph, s'. split; [reflexivity|].
    destruct (Hgraph 16%nat graph s' Hrun) as (_ & _ & _ & Hsorted & _).
    specialize (Hsorted diamond_unique_ids).
    vm_compute in Hrun. injection Hrun as <- <-.
    split; [reflexivity|]. split; [reflexivity|]. exact Hsorted.
Defined.

(** Ids are supplied by the caller and compared by no one: two arguments
    declared with the id 7 and added give a graph whose argument ids are
    [7, 7], ascending but not strictly. *)
Lemma CreateOperationGraph_arguments_counterexample :
  exists graph s',
    CreateOperationGraph hash_order 16 accepting_backend 1 [2%nat] same_id_state
      = (Ok graph, s') /\
    args_ graph = [0%nat; 1%nat] /\
    tensor_id (heap same_id_state) <$> args_ graph = [7; 7] /\
    uids_ graph = [7; 7; 9] /\
    ~ StronglySorted Z.lt (tensor_id (heap same_id_state) <$> args_ graph).
Proof.
  destruct (CreateOperationGraph hash_order 16 accepting_backend 1 [2%nat]
              same_id_state) as [[graph| | | |] s'] eqn:Hrun;
    try (vm_compute in Hrun; discriminate).
  exists graph, s'. split; [reflexivity|].
  vm_compute in Hrun. injection Hrun as <- <-.
  split; [reflexivity|]. split; [reflexivity|]. split; [reflexivity|].
  cbn. intros Hsorted. inversion Hsorted as [|? ? _ Hfirst]; subst.
  inversion Hfirst as [|? ? Hlt _]; subst. lia.
Qed.

(** C5: for every graph [CreateOperationGraph] returns, the operations
    handed to the backend's graph builder, the reverse of the list the
    traversal collected, are in a topological order: the entries are the
    operations of the result tensors reachable from the returns; every
    occurrence of an operation comes after an occurrence of the operation
    of each result tensor among its inputs; and all inputs of the first
    entry are argument tensors. With enough fuel the construction ends. *)
Theorem CreateOperationGraph_topological_order order syms handle rets s :
  heap_wf (heap s) ->
  (forall p, p ∈ rets -> (p < length (heap s))%nat) ->
  (exists k, forall fuel, (k <= fuel)%nat ->
     exists r s',
       CreateOperationGraph order fuel syms handle rets s = (r, s') /\
       ((exists graph, r = Ok graph) \/ (exists e, r = Failed e))) /\
  (forall fuel graph s',
     CreateOperationGraph order fuel syms handle rets s = (Ok graph, s') ->
     exists ops : list operation_ptr,
       Forall2 (owns (heap s)) ops (og_operations (og_graph_ graph)) /\
       (forall p, p ∈ ops <->
                  reachable (heap s) rets p /\ is_op_result (heap s) p) /\
       (forall i p q,
          ops !! i = Some p -> q ∈ inputs_at (heap s) p ->
          is_op_result (heap s) q ->
          exists j, (j < i)%nat /\ ops !! j = Some q) /\
       (forall p q,
          head ops = Some p -> q ∈ inputs_at (heap s) p -> is_arg (heap s) q)).
Proof.
  intros Hwf Hrets. split.
  { apply CreateOperationGraph_total; assumption. }
  intros fuel graph s' Hrun.
  apply CreateOperationGraph_Ok_inv in Hrun
    as (args & ops & Hloop & Hown & _).
  assert (Hpend : producers_pending (heap s) ops []).
  { apply (worklist_loop_producers _ _ _ _ _ _ _ Hloop).
    intros i p q Hi. rewrite lookup_nil in Hi. discriminate. }
  assert (Hmem : forall p, p ∈ ops <->
                           reachable (heap s) rets p /\ is_op_result (heap s) p).
  { intros p. rewrite (worklist_loop_ops _ _ _ _ _ _ _ Hloop p).
    split; [intros [Hp | Hp]; [inversion Hp | exact Hp] | auto]. }
  assert (Hearlier : forall i p q,
            reverse ops !! i = Some p -> q ∈ inputs_at (heap s) p ->
            is_op_result (heap s) q ->
            exists j, (j < i)%nat /\ reverse ops !! j = Some q).
  { intros i p q Hi Hq Ho.
    apply reverse_lookup_Some in Hi as [Hi Hlt].
    destruct (Hpend _ p q Hi Hq Ho) as [(j & Hj & Hjq) | Hnil];
      [|inversion Hnil].
    pose proof (lookup_lt_Some _ _ _ Hjq) as Hjlen.
    exists (length ops - S j)%nat. split; [lia|].
    apply reverse_lookup_Some. split; [|lia].
    replace (length ops - S (length ops - S j))%nat with j by lia. exact Hjq. }
  exists (reverse ops). split; [exact Hown|]. split.
  { intros p. rewrite elem_of_reverse. apply Hmem. }
  split; [exact Hearlier|].
  intros p q Hhead Hq. rewrite head_lookup in Hhead.
  assert (Hp : p ∈ ops).
  { apply elem_of_reverse, list_elem_of_lookup. eauto. }
  apply Hmem in Hp as [Hp _].
  destruct (worklist_loop_live _ _ _ _ _ _ _ Hloop q) as [Ha | Ho].
  - eapply reachable_input; eauto.
  - exact Ha.
  - destruct (Hearlier _ p q Hhead Hq Ho) as (j & Hj & _). lia.
Qed.

Lemma CreateOperationGraph_topological_order_witness :
  exists graph s',
    CreateOperationGraph hash_order 16 accepting_backend 1 [4%nat] diamond_state
      = (Ok graph, s') /\
    (getId <$> (og_operations (og_graph_ graph) ≫= fun o => option_list (op_yDesc o)))
      = [20; 21; 20; 22] /\
    exists ops : list operation_ptr,
      Forall2 (owns (heap diamond_state)) ops (og_operations (og_graph_ graph)) /\
      forall p q, head ops = Some p -> q ∈ inputs_at (heap diamond_state) p ->
                  is_arg (heap diamond_state) q.
Proof.
  destruct (CreateOperationGraph_topological_order hash_order accepting_backend
              1 [4%nat] diamond_state) as [_ Hgraph].
  - exact diamond_heap_wf.
  - intros p Hp. apply list_elem_of_singleton in Hp as ->. cbn. lia.
  - destruct (CreateOperationGraph hash_order 16 accepting_backend 1 [4%nat]
                diamond_state) as [[graph| | | |] s'] eqn:Hrun;
      try (vm_compute in Hrun; discriminate).
    exists graph, s'. split; [reflexivity|].
    destruct (Hgraph 16%nat graph s' Hrun) as (ops & Hown & _ & _ & Hfirst).
    vm_compute in Hrun. injection Hrun as <- <-.
    split; [reflexivity|]. exists ops. split; [exact Hown | exact Hfirst].
Defined.

(** C8: two calls of [CreateOperationGraph] on the same heap and with the
    same set of returns, whatever the iteration orders of their argument
    sets, the fuel, the backend and the order of the returns, give argument
    lists of equal length with the same id sequence and the same tensors;
    when distinct argument tensors have distinct ids the two argument lists
    are equal. With enough fuel each call ends. *)
Theorem CreateOperationGraph_deterministic
    order1 order2 syms1 syms2 handle1 handle2 rets1 rets2 s1 s2 :
  heap_wf (heap s1) ->
  (forall p, p ∈ rets1 -> (p < length (heap s1))%nat) ->
  heap s2 = heap s1 ->
  (forall p, p ∈ rets1 <-> p ∈ rets2) ->
  (exists k, forall fuel, (k <= fuel)%nat ->
     (exists r s',
        CreateOperationGraph order1 fuel syms1 handle1 rets1 s1 = (r, s') /\
        ((exists graph, r = Ok graph) \/ (exists e, r = Failed e))) /\
     (exists r s',
        CreateOperationGraph order2 fuel syms2 handle2 rets2 s2 = (r, s') /\
        ((exists graph, r = Ok graph) \/ (exists e, r = Failed e)))) /\
  (forall fuel1 fuel2 graph1 graph2 s1' s2',
     CreateOperationGraph order1 fuel1 syms1 handle1 rets1 s1
       = (Ok graph1, s1') ->
     CreateOperationGraph order2 fuel2 syms2 handle2 rets2 s2
       = (Ok graph2, s2') ->
     length (args_ graph1) = length (args_ graph2) /\
     tensor_id (heap s1) <$> args_ graph1
       = tensor_id (heap s1) <$> args_ graph2 /\
     args_ graph1 ≡ₚ args_ graph2 /\
     ((forall p q,
         p ∈ args_ graph1 -> q ∈ args_ graph1 ->
         tensor_id (heap s1) p = tensor_id (heap s1) q -> p = q) ->
      args_ graph1 = args_ graph2)).
Proof.
  intros Hwf Hrets Hheap Hsame. split.
  { destruct (CreateOperationGraph_total order1 syms1 handle1 rets1 s1 Hwf Hrets)
      as [k1 Hk1].
    destruct (CreateOperationGraph_total order2 syms2 handle2 rets2 s2)
      as [k2 Hk2].
    { rewrite Hheap. exact Hwf. }
    { rewrite Hheap. intros p Hp. apply Hrets, Hsame, Hp. }
    exists (k1 + k2)%nat. intros fuel Hfuel.
    split; [apply Hk1 | apply Hk2]; lia. }
  intros fuel1 fuel2 graph1 graph2 s1' s2' Hrun1 Hrun2.
  apply CreateOperationGraph_Ok_inv in Hrun1
    as (args1 & ops1 & Hloop1 & _ & Hargs1 & _).
  apply CreateOperationGraph_Ok_inv in Hrun2
    as (args2 & ops2 & Hloop2 & _ & Hargs2 & _).
  rewrite Hheap in Hloop2, Hargs2.
  assert (Hset : args1 = args2).
  { apply set_eq. intros p.
    rewrite (worklist_loop_args _ _ _ _ _ _ _ Hloop1 p),
      (worklist_loop_args _ _ _ _ _ _ _ Hloop2 p),
      (reachable_ext _ rets1 rets2 p Hsame). reflexivity. }
  subst args2.
  assert (Hperm : args_ graph1 ≡ₚ args_ graph2).
  { rewrite Hargs1, Hargs2, !std_sort_perm, !iterate_perm. reflexivity. }
  assert (Hids : tensor_id (heap s1) <$> args_ graph1
                 = tensor_id (heap s1) <$> args_ graph2).
  { rewrite Hargs1, Hargs2. apply std_sort_keys_perm.
    rewrite !iterate_perm. reflexivity. }
  split; [apply Permutation_length; exact Hperm|].
  split; [exact Hids|]. split; [exact Hperm|].
  intros Hunique. apply (fmap_inj_on (tensor_id (heap s1))); [|exact Hids].
  intros p q Hp Hq. apply Hunique; [exact Hp|]. rewrite Hperm. exact Hq.
Qed.

Lemma CreateOperationGraph_deterministic_witness :
  exists graph1 graph2 s1' s2',
    CreateOperationGraph hash_order 16 accepting_backend 1 [4%nat; 2%nat]
      diamond_state = (Ok graph1, s1') /\
    CreateOperationGraph reversed_hash_order 32 picky_backend 1 [2%nat; 4%nat]
      s1' = (Ok graph2, s2') /\
    args_ graph1 = args_ graph2.
Proof.
  destruct (CreateOperationGraph hash_order 16 accepting_backend 1
              [4%nat; 2%nat] diamond_state)
    as [[graph1| | | |] s1'] eqn:Hrun1; try (vm_compute in Hrun1; discriminate).
  destruct (CreateOperationGraph reversed_hash_order 32 picky_backend 1
              [2%nat; 4%nat] s1')
    as [[graph2| | | |] s2'] eqn:Hrun2;
    try (vm_compute in Hrun1; injection Hrun1 as <- <-;
         vm_compute in Hrun2; discriminate).
  exists graph1, graph2, s1', s2'. split; [reflexivity|].
  split; [exact Hrun2|].
  destruct (CreateOperationGraph_deterministic hash_order reversed_hash_order
              accepting_backend picky_backend 1 1 [4%nat; 2%nat] [2%nat; 4%nat]
              diamond_state s1') as [_ Hsame].
  - exact diamond_heap_wf.
  - intros p Hp.
    repeat (apply elem_of_cons in Hp as [-> | Hp]; [cbn; lia|]). inversion Hp.
  - vm_compute in Hrun1. injection Hrun1 as <- <-. reflexivity.
  - intros p. rewrite !elem_of_cons. tauto.
  - destruct (Hsame 16%nat 32%nat graph1 graph2 s1' s2' Hrun1 Hrun2)
      as (_ & _ & _ & Heq).
    apply Heq. vm_compute in Hrun1. injection Hrun1 as <- <-.
    cbn [args_]. intros p q Hp Hq.
    repeat (apply elem_of_cons in Hp as [-> | Hp];
            [repeat (apply elem_of_cons in Hq as [-> | Hq];
                     [cbn; intros H; try discriminate; reflexivity|]);
             inversion Hq|]).
    inversion Hp.
Defined.

(** * Further properties *)

(** ** The constructors and the heap *)

Lemma keeps_heap_bind {A B : Type} (m : M A) (f : A -> M B) :
  keeps_heap m -> (forall a, keeps_heap (f a)) -> keeps_heap (m ≫= f).
Proof.
  intros Hm Hf s r s'. rewrite bind_unfold.
  destruct (m s) as [[a| | | |] s1] eqn:Hrun; intros H;
    try (injection H as <- <-; exact (Hm _ _ _ Hrun)).
  rewrite (Hf a _ _ _ H). exact (Hm _ _ _ Hrun).
Qed.

Lemma keeps_heap_ret {A : Type} (a : A) : keeps_heap (mret a).
Proof. intros s r s' H. injection H as <- <-. reflexivity. Qed.

Lemma keeps_heap_fail {A : Type} (e : Status) : keeps_heap (@fail A e).
Proof. intros s r s' H. injection H as <- <-. reflexivity. Qed.

Lemma keeps_heap_emit (e : Event) : keeps_heap (emit e).
Proof. intros s r s' H. rewrite emit_run in H. injection H as <- <-. reflexivity. Qed.

Lemma keeps_heap_deref (p : ptr) : keeps_heap (deref p).
Proof.
  intros s r s'. unfold deref. destruct (heap s !! p); intros H;
    injection H as <- <-; reflexivity.
Qed.

Lemma keeps_heap_return_if_error (o : option Status) :
  keeps_heap (IREE_RETURN_IF_ERROR o).
Proof. destruct o; [apply keeps_heap_fail | apply keeps_heap_ret]. Qed.

Lemma keeps_heap_assert (site : Assertion) (condition : bool) :
  keeps_heap (IREE_ASSERT site condition).
Proof.
  destruct condition; [apply keeps_heap_ret|].
  intros s r s' H. injection H as <- <-. reflexivity.
Qed.

Lemma keeps_heap_GetChannelsLastStrides (dims : list Z) :
  keeps_heap (GetChannelsLastStrides dims).
Proof.
  apply keeps_heap_bind; [apply keeps_heap_assert|].
  intros _. apply keeps_heap_ret.
Qed.

Lemma allocates_last_new (t : CuDNNTensor) : allocates_last (new t).
Proof.
  intros s r s' H. rewrite new_run in H. injection H as <- <-.
  split; [reflexivity | exists t; reflexivity].
Qed.

Lemma allocates_last_fail (e : Status) : allocates_last (fail e).
Proof. intros s r s' H. injection H as <- <-. reflexivity. Qed.

Lemma allocates_last_bind {A : Type} (m : M A) (f : A -> M ptr) :
  keeps_heap m -> (forall a, allocates_last (f a)) -> allocates_last (m ≫= f).
Proof.
  intros Hm Hf s r s'. rewrite bind_unfold.
  destruct (m s) as [[a| | | |] s1] eqn:Hrun; intros H;
    try (injection H as <- <-; exact (Hm _ _ _ Hrun)).
  pose proof (Hf a _ _ _ H) as Hlast. rewrite (Hm _ _ _ Hrun) in Hlast.
  exact Hlast.
Qed.

(** Closes the side goals of the two bind lemmas for the steps the
    constructors are made of. *)
Ltac keeps_heap_step :=
  first
    [ apply keeps_heap_deref
    | apply keeps_heap_return_if_error
    | apply keeps_heap_emit
    | apply keeps_heap_ret
    | apply keeps_heap_GetChannelsLastStrides
    | (apply keeps_heap_bind; [apply keeps_heap_emit | intros; apply keeps_heap_ret]) ].

Ltac allocates_last_chain :=
  repeat (apply allocates_last_bind; [keeps_heap_step | intros]);
  try apply allocates_last_new.

Lemma construct_allocates_last syms call : allocates_last (construct syms call).
Proof.
  destruct call as [dims strides uid dtype alignment
                   | [input lo hi | mode x alpha | mode x alpha b alpha2]
                       uid alignment is_virtual
                   | input filter uid alignment is_virtual mode];
    cbn [construct CreatePointwise].
  - unfold CreateTensor. allocates_last_chain.
  - unfold CreatePointwiseRelu. allocates_last_chain.
  - unfold CreatePointwiseUnary. allocates_last_chain.
  - unfold CreatePointwiseBinary. allocates_last_chain.
  - unfold CreateConvolution.
    apply allocates_last_bind; [keeps_heap_step | intros input_].
    apply allocates_last_bind; [keeps_heap_step | intros filter_].
    destruct (negb _); [apply allocates_last_fail|].
    destruct (negb _); [apply allocates_last_fail|].
    apply allocates_last_bind.
    { destruct (_ =? _); [keeps_heap_step | keeps_heap_step]. }
    intros output_strides. allocates_last_chain.
Qed.

(** X1: a constructor call that returns a pointer returns the next free
    address, which held no tensor before and holds one after, and the heap
    has one tensor more; a call that ends otherwise leaves the heap as it
    was. In both cases every tensor of the heap is still where it was. *)
Theorem construct_allocates_one_fresh_tensor syms call s r s' :
  construct syms call s = (r, s') ->
  (forall q t, heap s !! q = Some t -> heap s' !! q = Some t) /\
  match r with
  | Ok p =>
      heap s !! p = None /\ is_Some (heap s' !! p) /\
      length (heap s') = S (length (heap s))
  | _ => heap s' = heap s
  end.
Proof.
  intros Hrun. pose proof (construct_allocates_last syms call s r s' Hrun) as H.
  destruct r as [p| | | |]; try (rewrite H; split; [auto | reflexivity]).
  destruct H as [-> [t Hheap]]. rewrite Hheap. split.
  - intros q t' Hq. apply lookup_app_l_Some. exact Hq.
  - split; [apply lookup_ge_None_2; lia|]. split.
    + exists t. apply list_lookup_middle. reflexivity.
    + rewrite length_app. cbn. lia.
Qed.

Lemma construct_allocates_one_fresh_tensor_witness :
  heap two_shapes_state !! 2%nat = None /\
  is_Some (heap (snd (construct accepting_backend
                        (PointwiseOf (Unary (CUDNN_POINTWISE_MODE 4) 1%nat
                                        1%float) 7 64 true)
                        two_shapes_state)) !! 2%nat).
Proof.
  destruct (construct_allocates_one_fresh_tensor accepting_backend
              (PointwiseOf (Unary (CUDNN_POINTWISE_MODE 4) 1%nat 1%float)
                 7 64 true)
              two_shapes_state (Ok 2%nat)
              (snd (construct accepting_backend
                      (PointwiseOf (Unary (CUDNN_POINTWISE_MODE 4) 1%nat
                                      1%float) 7 64 true)
                      two_shapes_state)))
    as (_ & Hfresh & Hnew & _); [reflexivity|].
  split; [exact Hfresh | exact Hnew].
Defined.

(** What a successful constructor call has put on the heap. *)
Lemma construct_Ok_node syms call s p s' :
  construct syms call s = (Ok p, s') ->
  exists t,
    p = length (heap s) /\ heap s' = heap s ++ [t] /\
    inputs t = call_tensors call /\
    (forall q, q ∈ call_tensors call -> (q < length (heap s))%nat) /\
    node_consistent (heap s) t.
Proof.
  destruct call as [dims strides uid dtype alignment
                   | [input lo hi | mode x alpha | mode x alpha b alpha2]
                       uid alignment is_virtual
                   | input filter uid alignment is_virtual mode];
    cbn [construct CreatePointwise call_tensors call_inputs]; intros H.
  - unfold CreateTensor in H. inv_run H. rewrite new_run in H.
    injection H as <- <-. eexists. split; [reflexivity|].
    split; [reflexivity|]. split; [reflexivity|].
    split; [intros q Hq; inversion Hq | exact I].
  - unfold CreatePointwiseRelu in H. inv_run H. rewrite new_run in H.
    injection H as <- <-. eexists. split; [reflexivity|].
    split; [reflexivity|]. split; [reflexivity|]. split.
    + intros q Hq. apply list_elem_of_singleton in Hq as ->.
      eapply lookup_lt_Some; eassumption.
    + split; [reflexivity|]. cbn. constructor; [|constructor].
      unfold tensor_at. cbn [heap]. rewrite Hstep. reflexivity.
  - unfold CreatePointwiseUnary in H. inv_run H. rewrite new_run in H.
    injection H as <- <-. eexists. split; [reflexivity|].
    split; [reflexivity|]. split; [reflexivity|]. split.
    + intros q Hq. apply list_elem_of_singleton in Hq as ->.
      eapply lookup_lt_Some; eassumption.
    + split; [reflexivity|]. cbn. constructor; [|constructor].
      unfold tensor_at. cbn [heap]. rewrite Hstep. reflexivity.
  - unfold CreatePointwiseBinary in H. inv_run H. rewrite new_run in H.
    injection H as <- <-. eexists. split; [reflexivity|].
    split; [reflexivity|]. split; [reflexivity|]. split.
    + intros q Hq.
      repeat (apply elem_of_cons in Hq as [-> | Hq];
              [eapply lookup_lt_Some; eassumption|]).
      inversion Hq.
    + split; [reflexivity|]. cbn.
      constructor; [|constructor; [|constructor]]; unfold tensor_at;
        cbn [heap]; [rewrite Hstep | rewrite Hstep0]; reflexivity.
  - unfold CreateConvolution in H.
    apply bind_Ok_inv in H as (input_ & s1 & Hin & H).
    apply deref_Ok_inv in Hin as [Hin ->].
    apply bind_Ok_inv in H as (filter_ & s1 & Hf & H).
    apply deref_Ok_inv in Hf as [Hf ->].
    destruct (negb _); [discriminate|]. destruct (negb _); [discriminate|].
    apply bind_Ok_inv in H as (output_strides & s1 & Hstr & H).
    assert (Hheap : heap s1 = heap s).
    { destruct (_ =? _) in Hstr.
      - exact (keeps_heap_GetChannelsLastStrides _ _ _ _ Hstr).
      - injection Hstr as _ <-. reflexivity. }
    inv_run H. rewrite new_run in H. injection H as <- <-. cbn [heap].
    rewrite Hheap. eexists. split; [reflexivity|].
    split; [reflexivity|]. split; [reflexivity|]. split.
    + intros q Hq.
      repeat (apply elem_of_cons in Hq as [-> | Hq];
              [eapply lookup_lt_Some; eassumption|]).
      inversion Hq.
    + split; [reflexivity|]. cbn.
      constructor; [|constructor; [|constructor]]; unfold tensor_at;
        [rewrite Hin | rewrite Hf]; reflexivity.
Qed.

Lemma node_consistent_grow (h : list CuDNNTensor) (t t' : CuDNNTensor) :
  node_consistent h t -> node_consistent (h ++ [t']) t.
Proof.
  destruct t as [tensor_ | inputs_ operation_ tensor_]; [auto|].
  intros [Hy Hops]. split; [exact Hy|].
  eapply Forall2_impl; [exact Hops|]. cbn. unfold tensor_at. intros q d Hq.
  destruct (h !! q) as [tq|] eqn:Hlookup; [|discriminate].
  rewrite (lookup_app_l_Some _ _ _ _ Hlookup). exact Hq.
Qed.

Lemma construct_preserves_invariants syms call s r s' :
  heap_wf (heap s) -> heap_consistent (heap s) ->
  construct syms call s = (r, s') ->
  heap_wf (heap s') /\ heap_consistent (heap s').
Proof.
  intros Hwf Hcons Hrun.
  destruct r as [p| | | |];
    try (rewrite (construct_allocates_last syms call s _ s' Hrun);
         split; [exact Hwf | exact Hcons]).
  apply construct_Ok_node in Hrun as (t & -> & Hheap & Hinputs & Hlive & Ht).
  rewrite Hheap. split.
  - apply heap_wf_alloc; [exact Hwf|]. rewrite Hinputs. exact Hlive.
  - intros q t' Hq. apply lookup_app_Some in Hq as [Hq | [_ Hq]].
    + apply node_consistent_grow. exact (Hcons q t' Hq).
    + apply list_lookup_singleton_Some in Hq as [_ <-].
      apply node_consistent_grow. exact Ht.
Qed.

(** X2: the constructors keep the two invariants of the heap, however a
    call ends: the inputs of a result tensor are tensors built before it,
    and the operation of a result tensor names the descriptor of the
    tensor as its y and the descriptors of its inputs as its operands. The
    tensor a call returns has the tensors of the call as inputs, and they
    are live tensors at lower addresses. *)
Theorem construct_keeps_heap_invariants syms call s r s' :
  heap_wf (heap s) -> heap_consistent (heap s) ->
  construct syms call s = (r, s') ->
  heap_wf (heap s') /\ heap_consistent (heap s') /\
  (forall p, r = Ok p ->
     exists t, heap s' !! p = Some t /\ inputs t = call_tensors call /\
               forall q, q ∈ inputs t -> (q < p)%nat /\ is_Some (heap s !! q)).
Proof.
  intros Hwf Hcons Hrun.
  destruct (construct_preserves_invariants syms call s r s' Hwf Hcons Hrun)
    as [Hwf' Hcons'].
  split; [exact Hwf'|]. split; [exact Hcons'|].
  intros p ->.
  apply construct_Ok_node in Hrun as (t & -> & Hheap & Hinputs & Hlive & Ht).
  exists t. rewrite Hheap.
  split; [apply list_lookup_middle; reflexivity|].
  split; [exact Hinputs|]. intros q Hq. rewrite Hinputs in Hq.
  split; [apply Hlive; exact Hq | apply lookup_lt_is_Some_2, Hlive; exact Hq].
Qed.

Lemma diamond_heap_consistent : heap_consistent (heap diamond_state).
Proof.
  intros p t Hp.
  destruct p as [|[|[|[|[|p]]]]]; cbn in Hp; try discriminate;
    injection Hp as <-; cbn; try exact I;
    (split; [reflexivity | repeat constructor]).
Qed.

Lemma construct_keeps_heap_invariants_witness :
  heap_wf (heap (snd (construct accepting_backend
                        (ConvolutionCall 2%nat 1%nat 30 32 false
                           CUDNN_CONVOLUTION) diamond_state))) /\
  heap_consistent (heap (snd (construct accepting_backend
                                (ConvolutionCall 2%nat 1%nat 30 32 false
                                   CUDNN_CONVOLUTION) diamond_state))).
Proof.
  destruct (construct_keeps_heap_invariants accepting_backend
              (ConvolutionCall 2%nat 1%nat 30 32 false CUDNN_CONVOLUTION)
              diamond_state
              (fst (construct accepting_backend
                      (ConvolutionCall 2%nat 1%nat 30 32 false
                         CUDNN_CONVOLUTION) diamond_state))
              (snd (construct accepting_backend
                      (ConvolutionCall 2%nat 1%nat 30 32 false
                         CUDNN_CONVOLUTION) diamond_state)))
    as (Hwf & Hcons & _).
  - exact diamond_heap_wf.
  - exact diamond_heap_consistent.
  - apply surjective_pairing.
  - split; [exact Hwf | exact Hcons].
Defined.

(** ** The graph handed to the backend *)

(** In the reversed list of collected operations the producer of every
    input that is a result tensor comes earlier. *)
Lemma collected_producers_earlier (h : list CuDNNTensor) fuel rets args ops :
  worklist_loop fuel h rets ∅ [] = Ok (args, ops) ->
  forall i p q,
    reverse ops !! i = Some p -> q ∈ inputs_at h p -> is_op_result h q ->
    exists j, (j < i)%nat /\ reverse ops !! j = Some q.
Proof.
  intros Hloop i p q Hi Hq Ho.
  assert (Hpend : producers_pending h ops []).
  { apply (worklist_loop_producers _ _ _ _ _ _ _ Hloop).
    intros i' p' q' Hi'. rewrite lookup_nil in Hi'. discriminate. }
  apply reverse_lookup_Some in Hi as [Hi Hlt].
  destruct (Hpend _ p q Hi Hq Ho) as [(j & Hj & Hjq) | Hnil]; [|inversion Hnil].
  pose proof (lookup_lt_Some _ _ _ Hjq) as Hjlen.
  exists (length ops - S j)%nat. split; [lia|].
  apply reverse_lookup_Some. split; [|lia].
  replace (length ops - S (length ops - S j))%nat with j by lia. exact Hjq.
Qed.

(** X3: on a heap whose operations name the descriptors of their tensors,
    the graph [CreateOperationGraph] returns is closed: every descriptor an
    operation of the graph consumes is the descriptor of one of the
    arguments of the graph or the y of an operation earlier in the list,
    and every return is an argument of the graph or has its descriptor as
    the y of an operation of the graph. *)
Theorem CreateOperationGraph_graph_is_closed
    order fuel syms handle rets s graph s' :
  heap_consistent (heap s) ->
  CreateOperationGraph order fuel syms handle rets s = (Ok graph, s') ->
  (forall i o d,
     og_operations (og_graph_ graph) !! i = Some o -> d ∈ operand_descs o ->
     (exists a, a ∈ args_ graph /\ tensor_at (heap s) a = Some d) \/
     (exists j o', (j < i)%nat /\
                   og_operations (og_graph_ graph) !! j = Some o' /\
                   op_yDesc o' = Some d)) /\
  (forall r, r ∈ rets_ graph ->
     r ∈ args_ graph \/
     exists o d, o ∈ og_operations (og_graph_ graph) /\
                 tensor_at (heap s) r = Some d /\ op_yDesc o = Some d).
Proof.
  intros Hcons Hrun.
  apply CreateOperationGraph_Ok_inv in Hrun
    as (args & ops & Hloop & Hown & Hargs & Hr & _).
  assert (Harg : forall q, reachable (heap s) rets q -> is_arg (heap s) q ->
                           q ∈ args_ graph).
  { intros q Hq Ha. rewrite Hargs, std_sort_perm, iterate_perm.
    apply elem_of_elements, (worklist_loop_args _ _ _ _ _ _ _ Hloop q). auto. }
  assert (Hy : forall q o', owns (heap s) q o' ->
                 exists d, tensor_at (heap s) q = Some d /\ op_yDesc o' = Some d).
  { intros q o' (inputs_ & tensor_ & Hq).
    destruct (Hcons q _ Hq) as [Hyd _]. exists tensor_.
    unfold tensor_at. rewrite Hq. auto. }
  split.
  - intros i o d Hi Hd.
    destruct (Forall2_lookup_r _ _ _ _ _ Hown Hi) as (p & Hp & Hpo).
    destruct Hpo as (inputs_ & tensor_ & Hnode).
    destruct (Hcons p _ Hnode) as [_ Hoperands].
    apply list_elem_of_lookup in Hd as [k Hk].
    destruct (Forall2_lookup_r _ _ _ _ _ Hoperands Hk) as (q & Hq & Hqd).
    assert (Hqin : q ∈ inputs_at (heap s) p).
    { unfold inputs_at. rewrite Hnode. apply list_elem_of_lookup. eauto. }
    assert (Hreach : reachable (heap s) rets q).
    { eapply reachable_input; [|exact Hqin].
      assert (Hpin : p ∈ ops).
      { apply elem_of_reverse, list_elem_of_lookup. eauto. }
      apply (worklist_loop_ops _ _ _ _ _ _ _ Hloop) in Hpin
        as [Hpin | [Hpin _]]; [inversion Hpin | exact Hpin]. }
    destruct (worklist_loop_live _ _ _ _ _ _ _ Hloop q Hreach) as [Ha | Ho].
    + left. exists q. auto.
    + right.
      destruct (collected_producers_earlier _ _ _ _ _ Hloop i p q Hp Hqin Ho)
        as (j & Hj & Hjq).
      destruct (Forall2_lookup_l _ _ _ _ _ Hown Hjq) as (o' & Hjo & Hown').
      destruct (Hy q o' Hown') as (d' & Hd' & Hyd).
      rewrite Hqd in Hd'. injection Hd' as <-. exists j, o'. auto.
  - intros r Hrin. rewrite Hr in Hrin.
    assert (Hreach : reachable (heap s) rets r) by (apply reachable_root, Hrin).
    destruct (worklist_loop_live _ _ _ _ _ _ _ Hloop r Hreach) as [Ha | Ho].
    + left. auto.
    + right.
      assert (Hin : r ∈ reverse ops).
      { apply elem_of_reverse, (worklist_loop_ops _ _ _ _ _ _ _ Hloop). auto. }
      apply list_elem_of_lookup in Hin as [i Hi].
      destruct (Forall2_lookup_l _ _ _ _ _ Hown Hi) as (o & Hio & Hown').
      destruct (Hy r o Hown') as (d & Hd & Hyd).
      exists o, d. split; [apply list_elem_of_lookup; eauto | auto].
Qed.

Lemma CreateOperationGraph_graph_is_closed_witness :
  4%nat ∈ [1%nat; 0%nat] \/
  exists o d,
    o ∈ og_operations
          (og_graph_
             (match fst (CreateOperationGraph hash_order 16 accepting_backend
                           1 [4%nat; 0%nat] diamond_state) with
              | Ok graph => graph
              | _ => small_graph accepting_backend
              end)) /\
    tensor_at (heap diamond_state) 4%nat = Some d /\ op_yDesc o = Some d.
Proof.
  destruct (CreateOperationGraph hash_order 16 accepting_backend 1
              [4%nat; 0%nat] diamond_state) as [[graph| | | |] s'] eqn:Hrun;
    try (vm_compute in Hrun; discriminate).
  destruct (CreateOperationGraph_graph_is_closed hash_order 16 accepting_backend
              1 [4%nat; 0%nat] diamond_state graph s' diamond_heap_consistent
              Hrun) as [_ Hrets].
  vm_compute in Hrun. injection Hrun as <- <-.
  apply (Hrets 4%nat). repeat constructor.
Defined.

(** ** Execution *)

Lemma GetDevicePointers_all_device (buffers : list iree_hal_buffer_t) (s : State) :
  Forall is_device buffers ->
  GetDevicePointers buffers s
  = (Ok (map device_pointer buffers),
     mkState (heap s) (backend_log s ++ map EvDevicePointer buffers)).
Proof.
  intros Hdev.
  destruct (GetDevicePointers_cases buffers s)
    as (evs & _ & [(_ & -> & Hrun) | (Hnot & _)]); [exact Hrun | contradiction].
Qed.

Lemma GetDevicePointers_first_host (pre : list iree_hal_buffer_t) :
  forall (buffer : iree_hal_buffer_t) (post : list iree_hal_buffer_t) (s : State),
    Forall is_device pre -> ~ is_device buffer ->
    GetDevicePointers (pre ++ buffer :: post) s
    = (AssertionFailure AssertBufferIsDevice,
       mkState (heap s)
         (backend_log s ++ map EvDevicePointer (pre ++ [buffer]))).
Proof.
  induction pre as [|b pre IH]; intros buffer post s Hpre Hhost.
  - cbn [app GetDevicePointers map].
    rewrite (bind_Ok_intro _ _ _ _ _ (emit_run (EvDevicePointer buffer) s)).
    rewrite (bool_decide_eq_false_2 _ Hhost). reflexivity.
  - apply Forall_cons in Hpre as [Hb Hpre].
    cbn [app GetDevicePointers map].
    rewrite (bind_Ok_intro _ _ _ _ _ (emit_run (EvDevicePointer b) s)).
    rewrite (bool_decide_eq_true_2 _ Hb). cbn [IREE_ASSERT].
    unfold mbind, M_bind at 1. cbn [mret M_ret].
    unfold mbind, M_bind at 1. rewrite (IH buffer post _ Hpre Hhost).
    cbn [heap backend_log]. rewrite <- app_assoc. reflexivity.
Qed.

(** X4: [GetDevicePointers] returns one pointer for each buffer, in the
    order of the buffers, each the device pointer of the buffer plus its
    byte offset as an unsigned 64-bit integer, when all buffers are device
    buffers; it stops at the first buffer that is not, with the assertion
    failure, after having looked at the buffers up to that one and at none
    after it. *)
Theorem GetDevicePointers_converts_or_stops
    (buffers : list iree_hal_buffer_t) (s : State) :
  (Forall is_device buffers ->
   exists ptrs,
     GetDevicePointers buffers s
     = (Ok ptrs,
        mkState (heap s) (backend_log s ++ map EvDevicePointer buffers)) /\
     length ptrs = length buffers /\
     forall i buffer,
       buffers !! i = Some buffer ->
       exists p,
         ptrs !! i = Some p /\ 0 <= p < 2 ^ 64 /\
         p = (iree_hal_cuda_buffer_device_pointer buffer
              + iree_hal_buffer_byte_offset buffer) mod 2 ^ 64) /\
  (forall pre buffer post,
     buffers = pre ++ buffer :: post -> Forall is_device pre ->
     ~ is_device buffer ->
     GetDevicePointers buffers s
     = (AssertionFailure AssertBufferIsDevice,
        mkState (heap s)
          (backend_log s ++ map EvDevicePointer (pre ++ [buffer])))).
Proof.
  split.
  - intros Hdev. exists (map device_pointer buffers).
    split; [apply GetDevicePointers_all_device; exact Hdev|].
    split; [apply length_map|]. intros i buffer Hi.
    exists (device_pointer buffer). split.
    + change (map device_pointer buffers) with (device_pointer <$> buffers).
      rewrite list_lookup_fmap, Hi. reflexivity.
    + unfold device_pointer, deviceptr_add, Int64.modulus.
      split; [apply Z.mod_pos_bound; lia | reflexivity].
  - intros pre buffer post -> Hpre Hhost.
    apply GetDevicePointers_first_host; assumption.
Qed.

Lemma GetDevicePointers_converts_or_stops_witness :
  GetDevicePointers
    [device_buffer 4096 0;
     mkBuffer IREE_HAL_CUDA_BUFFER_TYPE_HOST 8192 0;
     device_buffer 12288 0] empty_state
  = (AssertionFailure AssertBufferIsDevice,
     mkState []
       [EvDevicePointer (device_buffer 4096 0);
        EvDevicePointer (mkBuffer IREE_HAL_CUDA_BUFFER_TYPE_HOST 8192 0)]) /\
  exists ptrs,
    GetDevicePointers [device_buffer 4096 0; device_buffer (2 ^ 64 - 8) 16]
      empty_state
    = (Ok ptrs,
       mkState []
         [EvDevicePointer (device_buffer 4096 0);
          EvDevicePointer (device_buffer (2 ^ 64 - 8) 16)]) /\
    length ptrs = 2%nat.
Proof.
  split.
  - destruct (GetDevicePointers_converts_or_stops
                [device_buffer 4096 0;
                 mkBuffer IREE_HAL_CUDA_BUFFER_TYPE_HOST 8192 0;
                 device_buffer 12288 0] empty_state) as [_ Hstop].
    apply (Hstop [device_buffer 4096 0]
             (mkBuffer IREE_HAL_CUDA_BUFFER_TYPE_HOST 8192 0)
             [device_buffer 12288 0]).
    + reflexivity.
    + repeat constructor.
    + discriminate.
  - destruct (GetDevicePointers_converts_or_stops
                [device_buffer 4096 0; device_buffer (2 ^ 64 - 8) 16]
                empty_state) as [Hall _].
    destruct Hall as (ptrs & Hrun & Hlen & _); [repeat constructor|].
    exists ptrs. split; [exact Hrun | exact Hlen].
Defined.

(** The run of [Execute] up to the build of the variant pack, when it gets
    that far. *)
Lemma Execute_builds_pack (self : CuDNNExecutable) (handle : cudnnHandle_t)
    (plan : ExecutionPlan) (buffers : list iree_hal_buffer_t) (s : State) :
  ready_to_dispatch self plan buffers ->
  Execute self handle buffers s
  = ((IREE_RETURN_IF_ERROR
        (CUDNN_CONVERT_STATUS (exe_syms_ self)
           (variant_pack_status (exe_syms_ self) (pack_of self buffers)));;
      status ← backend_execute (exe_syms_ self) handle plan
                 (pack_of self buffers);
      CUDNN_RETURN_IF_ERROR (exe_syms_ self) status "cudnnBackendExecute()";;
      mret tt)
       (mkState (heap s)
          ((backend_log s ++ map EvDevicePointer buffers) ++
           [EvVariantPackBuild (pack_of self buffers)]))).
Proof.
  intros (Hplan & Hcount & Hdev & Huids & Hws). unfold Execute.
  rewrite Hcount, Nat.eqb_refl. cbn [negb].
  rewrite (bind_Ok_intro _ _ _ _ _ (GetDevicePointers_all_device _ s Hdev)).
  rewrite length_map, Huids, Nat.eqb_refl. cbn [IREE_ASSERT].
  rewrite bind_unfold. cbv [mret M_ret].
  destruct (plans_ self) as [|plan0 rest]; [discriminate|].
  injection Hplan as ->.
  rewrite bind_unfold. cbv [plans_0 mret M_ret].
  rewrite bind_unfold, Hws. cbv [IREE_ASSERT mret M_ret Z.eqb].
  rewrite bind_unfold. cbv [VariantPackBuilder.build].
  rewrite bind_unfold, emit_run. reflexivity.
Qed.

(** X5: given a buffer for every argument and return, all device buffers,
    and a first plan that asks for no workspace, [Execute] succeeds when
    the build of the variant pack and the dispatch do, after exactly one
    dispatch, of the first plan, with the null workspace pointer; the
    pointers and the ids of the pack have the same length and pair the
    i-th buffer with the i-th id of the graph. *)
Theorem Execute_dispatches_first_plan
    (self : CuDNNExecutable) (handle : cudnnHandle_t) (plan : ExecutionPlan)
    (buffers : list iree_hal_buffer_t) (s : State) :
  ready_to_dispatch self plan buffers ->
  variant_pack_status (exe_syms_ self) (pack_of self buffers)
    = CUDNN_STATUS_SUCCESS ->
  cudnnBackendExecute (exe_syms_ self) handle plan (pack_of self buffers)
    = CUDNN_STATUS_SUCCESS ->
  Execute self handle buffers s
  = (Ok tt,
     mkState (heap s)
       (backend_log s ++ map EvDevicePointer buffers ++
        [EvVariantPackBuild (pack_of self buffers);
         EvBackendExecute handle plan (pack_of self buffers)])) /\
  pack_workspace (pack_of self buffers) = None /\
  length (pack_data_pointers (pack_of self buffers))
    = length (pack_uids (pack_of self buffers)) /\
  (forall i buffer uid,
     buffers !! i = Some buffer -> uids_ (exe_graph_ self) !! i = Some uid ->
     pack_data_pointers (pack_of self buffers) !! i
       = Some (device_pointer buffer) /\
     pack_uids (pack_of self buffers) !! i = Some uid).
Proof.
  intros Hready Hpack Hexec. split; [|split; [|split]].
  - rewrite (Execute_builds_pack self handle plan buffers s Hready).
    rewrite bind_unfold, Hpack. cbv [CUDNN_CONVERT_STATUS IREE_RETURN_IF_ERROR].
    cbv [mret M_ret]. rewrite bind_unfold. cbv [backend_execute].
    rewrite bind_unfold, emit_run. cbv [mret M_ret]. rewrite Hexec.
    cbn. rewrite <- !app_assoc. reflexivity.
  - reflexivity.
  - destruct Hready as (_ & _ & _ & Huids & _).
    cbn [pack_of pack_data_pointers pack_uids]. rewrite length_map, Huids.
    reflexivity.
  - intros i buffer uid Hi Hu. cbn [pack_of pack_data_pointers pack_uids].
    split; [|exact Hu].
    change (map device_pointer buffers) with (device_pointer <$> buffers).
    rewrite list_lookup_fmap, Hi. reflexivity.
Qed.

Lemma three_buffers_ready (pack_status execute_status : cudnnStatus_t) :
  ready_to_dispatch (execution_executable pack_status execute_status)
    (mkExecutionPlan 1 7 "graph" 0) three_buffers.
Proof.
  repeat split; repeat constructor.
Defined.

Lemma Execute_dispatches_first_plan_witness :
  fst (Execute (execution_executable CUDNN_STATUS_SUCCESS CUDNN_STATUS_SUCCESS)
         1 three_buffers empty_state) = Ok tt /\
  pack_data_pointers
    (pack_of (execution_executable CUDNN_STATUS_SUCCESS CUDNN_STATUS_SUCCESS)
       three_buffers) !! 1%nat = Some 8448.
Proof.
  destruct (Execute_dispatches_first_plan
              (execution_executable CUDNN_STATUS_SUCCESS CUDNN_STATUS_SUCCESS)
              1 (mkExecutionPlan 1 7 "graph" 0) three_buffers empty_state)
    as (Hrun & _ & _ & Hpair).
  - apply three_buffers_ready.
  - reflexivity.
  - reflexivity.
  - split.
    + rewrite Hrun. reflexivity.
    + apply (Hpair 1%nat (device_buffer 8192 256) 11); reflexivity.
Defined.

(** X6: under the same conditions, a variant pack the backend rejects
    makes [Execute] return the error of its status without a dispatch, and
    a dispatch the backend rejects makes it return the error of that
    status after the one dispatch. *)
Theorem Execute_reports_backend_failures
    (self : CuDNNExecutable) (handle : cudnnHandle_t) (plan : ExecutionPlan)
    (buffers : list iree_hal_buffer_t) (s : State) :
  ready_to_dispatch self plan buffers ->
  (forall code,
     variant_pack_status (exe_syms_ self) (pack_of self buffers)
       = CUDNN_STATUS_FAILURE code ->
     exists err,
       CUDNN_CONVERT_STATUS (exe_syms_ self) (CUDNN_STATUS_FAILURE code)
         = Some err /\
       Execute self handle buffers s
       = (Failed err,
          mkState (heap s)
            (backend_log s ++ map EvDevicePointer buffers ++
             [EvVariantPackBuild (pack_of self buffers)]))) /\
  (forall code,
     variant_pack_status (exe_syms_ self) (pack_of self buffers)
       = CUDNN_STATUS_SUCCESS ->
     cudnnBackendExecute (exe_syms_ self) handle plan (pack_of self buffers)
       = CUDNN_STATUS_FAILURE code ->
     exists err,
       CUDNN_CONVERT_STATUS (exe_syms_ self) (CUDNN_STATUS_FAILURE code)
         = Some err /\
       Execute self handle buffers s
       = (Failed err,
          mkState (heap s)
            (backend_log s ++ map EvDevicePointer buffers ++
             [EvVariantPackBuild (pack_of self buffers);
              EvBackendExecute handle plan (pack_of self buffers)]))).
Proof.
  intros Hready. split.
  - intros code Hpack. eexists. split; [reflexivity|].
    rewrite (Execute_builds_pack self handle plan buffers s Hready).
    rewrite bind_unfold, Hpack. cbn. rewrite <- !app_assoc. reflexivity.
  - intros code Hpack Hexec. eexists. split; [reflexivity|].
    rewrite (Execute_builds_pack self handle plan buffers s Hready).
    rewrite bind_unfold, Hpack. cbv [CUDNN_CONVERT_STATUS IREE_RETURN_IF_ERROR].
    cbv [mret M_ret]. rewrite bind_unfold. cbv [backend_execute].
    rewrite bind_unfold, emit_run. cbv [mret M_ret]. rewrite Hexec.
    cbn. rewrite <- !app_assoc. reflexivity.
Qed.

Lemma Execute_reports_backend_failures_witness :
  (exists err s',
     Execute (execution_executable (CUDNN_STATUS_FAILURE 2000)
                CUDNN_STATUS_SUCCESS) 1 three_buffers empty_state
     = (Failed err, s') /\
     Forall (fun e => match e with EvBackendExecute _ _ _ => False | _ => True end)
       (backend_log s')) /\
  (exists err s',
     Execute (execution_executable CUDNN_STATUS_SUCCESS
                (CUDNN_STATUS_FAILURE 8000)) 1 three_buffers empty_state
     = (Failed err, s') /\
     last (backend_log s')
     = Some (EvBackendExecute 1 (mkExecutionPlan 1 7 "graph" 0)
               (pack_of (execution_executable CUDNN_STATUS_SUCCESS
                           (CUDNN_STATUS_FAILURE 8000)) three_buffers))).
Proof.
  split.
  - destruct (Execute_reports_backend_failures
                (execution_executable (CUDNN_STATUS_FAILURE 2000)
                   CUDNN_STATUS_SUCCESS)
                1 (mkExecutionPlan 1 7 "graph" 0) three_buffers empty_state
                (three_buffers_ready _ _)) as [Hpack _].
    destruct (Hpack 2000 eq_refl) as (err & _ & Hrun).
    eexists err, _. split; [exact Hrun|]. repeat constructor.
  - destruct (Execute_reports_backend_failures
                (execution_executable CUDNN_STATUS_SUCCESS
                   (CUDNN_STATUS_FAILURE 8000))
                1 (mkExecutionPlan 1 7 "graph" 0) three_buffers empty_state
                (three_buffers_ready _ _)) as [_ Hexec].
    destruct (Hexec 8000 eq_refl eq_refl) as (err & _ & Hrun).
    eexists err, _. split; [exact Hrun|]. reflexivity.
Defined.

(** ** From graph to dispatch *)

Lemma plan_loop_result (syms : openxla_cudnn_dynamic_symbols_t)
    (handle : cudnnHandle_t) (graph : CuDNNOperationGraph)
    (configs : list cudnnBackendDescriptor_t) :
  forall (plans : list ExecutionPlan) (s : State),
    exists s', heap s' = heap s /\
      (plan_loop syms handle graph configs plans s = (Ok plans, s') \/
       exists config,
         config ∈ configs /\ validates syms handle graph config = true /\
         plan_loop syms handle graph configs plans s
         = (Ok (plans ++ [plan_of syms handle graph config]), s')).
Proof.
  induction configs as [|config configs IH]; intros plans s.
  - exists s. split; [reflexivity|]. left. reflexivity.
  - cbn [plan_loop].
    rewrite (bind_Ok_intro _ _ _ _ _
               (plan_build_run syms handle graph config s)).
    unfold ExecutionPlan_get_status.
    cbn [plan_of plan_handle plan_engine_config plan_tag].
    destruct (validates syms handle graph config) eqn:Hvalid;
      unfold validates in Hvalid; rewrite Hvalid; cbn [negb].
    + exists (mkState (heap s)
                (backend_log s ++
                 [EvExecutionPlanBuild handle config
                    (getTag (og_graph_ graph))])).
      split; [|right; exists config].
      * reflexivity.
      * split; [left|]. split; [exact Hvalid | reflexivity].
    + destruct (IH plans
                  (mkState (heap s)
                     (backend_log s ++
                      [EvExecutionPlanBuild handle config
                         (getTag (og_graph_ graph))])))
        as (s' & Hheap & [Hrun | (c & Hc & Hcvalid & Hrun)]).
      * exists s'. split; [exact Hheap|]. left. exact Hrun.
      * exists s'. split; [exact Hheap|]. right. exists c.
        split; [right; exact Hc|]. split; [exact Hcvalid | exact Hrun].
Qed.

Lemma CreateExecutable_Ok_inv (syms : openxla_cudnn_dynamic_symbols_t)
    (handle : cudnnHandle_t) (graph : CuDNNOperationGraph) (s s' : State)
    (exe : CuDNNExecutable) :
  CreateExecutable syms handle graph s = (Ok exe, s') ->
  exe_syms_ exe = syms /\ exe_graph_ exe = graph /\ heap s' = heap s /\
  exists config,
    config ∈ candidates syms graph /\
    validates syms handle graph config = true /\
    plans_ exe = [plan_of syms handle graph config].
Proof.
  unfold CreateExecutable. intros H.
  rewrite (bind_Ok_intro _ _ _ _ _ (heuristics_run syms graph s)) in H.
  unfold candidates.
  destruct (get_heuristics_list syms ["heuristics_mode_a"%string]
              (og_graph_ graph) AcceptAllGraphs) as [statuses configs].
  cbn [snd]. destruct (bool_decide (configs = [])); [discriminate|].
  apply bind_Ok_inv in H as (plans & s1 & Hloop & H).
  destruct (plan_loop_result syms handle graph configs []
              (mkState (heap s)
                 (backend_log s ++
                  [EvHeuristics ["heuristics_mode_a"%string]
                     (og_graph_ graph)])))
    as (s2 & Hheap & [Hrun | (config & Hconfig & Hvalid & Hrun)]);
    rewrite Hrun in Hloop; injection Hloop as <- <-.
  - discriminate.
  - cbn [app] in H. cbn in H. injection H as <- <-.
    repeat split; [exact Hheap|]. exists config. auto.
Qed.

(** X7: an executable that [CreateExecutable] returned for a graph that
    [CreateOperationGraph] returned holds exactly one plan and as many ids
    as the graph has arguments and returns, so that [Execute] on it, with
    any buffers, never indexes an empty list of plans and never fails the
    assertion on the numbers of pointers and ids: it returns, or returns
    an error, or stops at a buffer that is not a device buffer or at a
    plan that asks for a workspace. *)
Theorem compiled_graph_executes_in_bounds
    (order : unordered_set_order) (fuel : nat)
    (syms : openxla_cudnn_dynamic_symbols_t) (handle : cudnnHandle_t)
    (rets : list ptr) (s0 s1 : State) (graph : CuDNNOperationGraph)
    (syms' : openxla_cudnn_dynamic_symbols_t) (handle' : cudnnHandle_t)
    (s2 s3 : State) (exe : CuDNNExecutable) :
  CreateOperationGraph order fuel syms handle rets s0 = (Ok graph, s1) ->
  CreateExecutable syms' handle' graph s2 = (Ok exe, s3) ->
  (exists plan, plans_ exe = [plan]) /\
  length (uids_ (exe_graph_ exe))
    = (length (args_ (exe_graph_ exe)) + length (rets_ (exe_graph_ exe)))%nat /\
  forall (handle'' : cudnnHandle_t) (buffers : list iree_hal_buffer_t)
         (s : State),
    match fst (Execute exe handle'' buffers s) with
    | Ok _ =>
        length buffers = (length (args_ graph) + length rets)%nat /\
        Forall is_device buffers /\
        exists plan, plans_ exe = [plan] /\ getWorkspaceSize plan = 0
    | Failed _ => True
    | AssertionFailure AssertBufferIsDevice => ~ Forall is_device buffers
    | AssertionFailure AssertNoWorkspace =>
        exists plan, plans_ exe = [plan] /\ getWorkspaceSize plan <> 0
    | AssertionFailure _ => False
    | UndefinedBehaviour => False
    | OutOfFuel => False
    end.
Proof.
  intros Hgraph Hexe.
  apply CreateOperationGraph_Ok_inv in Hgraph
    as (args & ops & _ & _ & _ & Hrets & Huids & _).
  apply CreateExecutable_Ok_inv in Hexe
    as (Hsyms & Hg & _ & config & _ & _ & Hplans).
  assert (Hlen : length (uids_ graph)
                 = (length (args_ graph) + length rets)%nat).
  { rewrite Huids, length_app, !length_fmap. reflexivity. }
  split; [eauto|]. split; [rewrite Hg, Hrets; exact Hlen|].
  intros handle'' buffers s. unfold Execute. rewrite Hg, Hrets.
  destruct (length buffers =? length (args_ graph) + length rets)%nat
    eqn:Hcount; cbn [negb]; [|exact I].
  apply Nat.eqb_eq in Hcount. rewrite bind_unfold.
  destruct (GetDevicePointers_cases buffers s)
    as (evs & _ & [(Hdev & _ & Hrun) | (Hhost & Hrun)]); rewrite Hrun;
    [|exact Hhost].
  rewrite length_map, (proj2 (Nat.eqb_eq _ _) (eq_trans Hcount (eq_sym Hlen))).
  cbn [IREE_ASSERT].
  rewrite bind_unfold. cbv [mret M_ret]. rewrite Hplans.
  rewrite bind_unfold. cbv [plans_0 mret M_ret]. rewrite bind_unfold.
  destruct (getWorkspaceSize (plan_of syms' handle' graph config) =? 0)
    eqn:Hws; cbn [IREE_ASSERT].
  - apply Z.eqb_eq in Hws. cbv [mret M_ret].
    rewrite bind_unfold. cbv [VariantPackBuilder.build].
    rewrite bind_unfold, emit_run. cbv [mret M_ret].
    rewrite bind_unfold.
    destruct (variant_pack_status _ _);
      cbv [CUDNN_CONVERT_STATUS IREE_RETURN_IF_ERROR mret M_ret fail];
      [|exact I].
    rewrite bind_unfold. cbv [backend_execute].
    rewrite bind_unfold, emit_run. cbv [mret M_ret].
    destruct (cudnnBackendExecute _ _ _ _);
      cbv [CUDNN_RETURN_IF_ERROR CUDNN_CONVERT_STATUS IREE_RETURN_IF_ERROR
           mret M_ret fail mbind M_bind fst]; [|exact I].
    split; [exact Hcount|]. split; [exact Hdev|]. eauto.
  - apply Z.eqb_neq in Hws. cbv [abort fst]. eauto.
Qed.

Lemma compiled_graph_executes_in_bounds_witness :
  match fst (CreateOperationGraph hash_order 16 accepting_backend 1
               [4%nat] diamond_state) with
  | Ok graph =>
      match fst (CreateExecutable picky_backend 1 graph empty_state) with
      | Ok exe =>
          fst (Execute exe 1 three_buffers empty_state)
          = AssertionFailure AssertNoWorkspace /\
          exists plan, plans_ exe = [plan] /\ getWorkspaceSize plan <> 0
      | _ => False
      end
  | _ => False
  end.
Proof.
  destruct (CreateOperationGraph hash_order 16 accepting_backend 1
              [4%nat] diamond_state) as [[graph| | | |] s1] eqn:Hgraph;
    try (vm_compute in Hgraph; discriminate).
  cbn [fst].
  destruct (CreateExecutable picky_backend 1 graph empty_state)
    as [[exe| | | |] s3] eqn:Hexe;
    try (vm_compute in Hgraph; injection Hgraph as <- <-;
         vm_compute in Hexe; discriminate).
  cbn [fst].
  destruct (compiled_graph_executes_in_bounds hash_order 16 accepting_backend
              1 [4%nat] diamond_state s1 graph picky_backend 1 empty_state s3
              exe Hgraph Hexe) as (_ & _ & Hexecute).
  specialize (Hexecute 1 three_buffers empty_state).
  vm_compute in Hgraph. injection Hgraph as <- <-.
  vm_compute in Hexe. injection Hexe as <- <-.
  split; [reflexivity|]. exact Hexecute.
Defined.

(** ** Strides and extents *)

Lemma wrap64_mul_wrap64_r (a b : Z) :
  Int64.wrap64 (a * Int64.wrap64 b) = Int64.wrap64 (a * b).
Proof.
  unfold Int64.wrap64. f_equal.
  rewrite (Z.mod_eq (b + Int64.half_modulus) Int64.modulus)
    by (unfold Int64.modulus; lia).
  replace (a * (b + Int64.half_modulus
                - Int64.modulus * ((b + Int64.half_modulus) / Int64.modulus)
                - Int64.half_modulus) + Int64.half_modulus)
    with (a * b + Int64.half_modulus
          + (- a * ((b + Int64.half_modulus) / Int64.modulus)) * Int64.modulus)
    by ring.
  apply Z_mod_plus_full.
Qed.

Lemma wrap64_mul_wrap64_l (a b : Z) :
  Int64.wrap64 (Int64.wrap64 a * b) = Int64.wrap64 (a * b).
Proof.
  rewrite (Z.mul_comm (Int64.wrap64 a)), wrap64_mul_wrap64_r.
  f_equal. apply Z.mul_comm.
Qed.

Lemma extent_product_step (dims : list Z) (i k : nat) (x : Z) :
  dims !! i = Some x ->
  extent_product dims i (S k) = x * extent_product dims (S i) k.
Proof.
  intros Hx. unfold extent_product. rewrite (drop_S _ _ _ Hx). reflexivity.
Qed.

Lemma row_major_loop_strides (dims : list Z) (k : nat) :
  forall strides : list Z,
    (k <= length dims - 1)%nat -> length strides = length dims ->
    (forall j, (k <= j < length dims)%nat ->
       strides !! j
       = Some (Int64.wrap64 (extent_product dims j (length dims - 1 - j)))) ->
    length (row_major_loop k dims strides) = length dims /\
    forall j, (j < length dims)%nat ->
      row_major_loop k dims strides !! j
      = Some (Int64.wrap64 (extent_product dims j (length dims - 1 - j))).
Proof.
  induction k as [|d IH]; intros strides Hk Hlen Hdone.
  - split; [exact Hlen|]. intros j Hj. apply Hdone. lia.
  - cbn [row_major_loop]. apply IH.
    + lia.
    + rewrite length_insert. exact Hlen.
    + intros j Hj. destruct (decide (j = d)) as [->|Hne].
      * destruct (lookup_lt_is_Some_2 dims d) as [x Hx]; [lia|].
        rewrite (list_lookup_total_correct dims d x Hx).
        rewrite (list_lookup_total_correct strides (S d) _
                   (Hdone (S d) ltac:(lia))).
        rewrite list_lookup_insert_eq by lia. f_equal.
        unfold Int64.mul. rewrite wrap64_mul_wrap64_r. f_equal.
        replace (length dims - 1 - d)%nat with (S (length dims - 1 - S d))
          by lia.
        symmetry. apply extent_product_step. exact Hx.
      * rewrite list_lookup_insert_ne by lia. apply Hdone. lia.
Qed.

(** X8: for dims of any rank [GetRowMajorStrides] returns as many strides
    as there are dims, the last of them 1, and the stride of axis [i] is
    the product, reduced to [int64_t], of the extents of the axes from [i]
    to the last but one: the extent of axis [i] itself is a factor, that of
    the last axis never is. *)
Theorem GetRowMajorStrides_any_rank (dims : list Z) :
  length (GetRowMajorStrides dims) = length dims /\
  (forall i, (i < length dims)%nat ->
     GetRowMajorStrides dims !! i
     = Some (Int64.wrap64 (extent_product dims i (length dims - 1 - i)))) /\
  (forall i, S i = length dims -> GetRowMajorStrides dims !! i = Some 1).
Proof.
  assert (H : length (GetRowMajorStrides dims) = length dims /\
              forall j, (j < length dims)%nat ->
                GetRowMajorStrides dims !! j
                = Some (Int64.wrap64
                          (extent_product dims j (length dims - 1 - j)))).
  { unfold GetRowMajorStrides. apply row_major_loop_strides.
    - lia.
    - apply length_replicate.
    - intros j Hj. rewrite lookup_replicate_2 by lia.
      replace (length dims - 1 - j)%nat with 0%nat by lia.
      unfold extent_product. rewrite take_0. reflexivity. }
  destruct H as [Hlen Hstrides]. split; [exact Hlen|].
  split; [exact Hstrides|]. intros i Hi. rewrite Hstrides by lia.
  replace (length dims - 1 - i)%nat with 0%nat by lia.
  unfold extent_product. rewrite take_0. reflexivity.
Qed.

Lemma GetRowMajorStrides_any_rank_witness :
  GetRowMajorStrides [2; 3; 4; 5; 6; 7] !! 1%nat = Some 360 /\
  GetRowMajorStrides [2; 3; 4; 5; 6; 7] !! 5%nat = Some 1.
Proof.
  destruct (GetRowMajorStrides_any_rank [2; 3; 4; 5; 6; 7])
    as (_ & Hstrides & Hlast).
  split.
  - rewrite (Hstrides 1%nat) by (cbn; lia). reflexivity.
  - apply Hlast. reflexivity.
Defined.

(** X9: [GetChannelsLastStrides] fails its assertion, touching nothing,
    for dims of a rank other than 4 and 5; for dims [n, c, d, h, w] of rank
    5 it returns the strides [d*h*w*c, 1, h*w*c, w*c, c], each reduced to
    [int64_t], in which the batch extent [n] takes no part. *)
Theorem GetChannelsLastStrides_accepts_ranks_4_and_5 (dims : list Z) (s : State) :
  (length dims <> 4%nat -> length dims <> 5%nat ->
   GetChannelsLastStrides dims s
   = (AssertionFailure AssertChannelsLastRank, s)) /\
  (forall n c d h w, dims = [n; c; d; h; w] ->
     GetChannelsLastStrides dims s
     = (Ok [Int64.wrap64 (c * w * h * d); 1; Int64.wrap64 (c * w * h);
            Int64.wrap64 (c * w); Int64.wrap64 c], s)).
Proof.
  split.
  - intros H4 H5. unfold GetChannelsLastStrides.
    apply Nat.eqb_neq in H4, H5. rewrite H4, H5. reflexivity.
  - intros n c d h w ->. unfold GetChannelsLastStrides.
    cbn [length Nat.eqb orb IREE_ASSERT].
    unfold mbind, M_bind. cbn [mret M_ret]. f_equal. f_equal.
    cbv [channels_last_strides channels_last_loop length replicate Nat.sub].
    cbn [list_insert insert lookup_total list_lookup_total].
    unfold Int64.mul.
    rewrite (wrap64_mul_wrap64_l (1 * c) w), (wrap64_mul_wrap64_l (1 * c * w) h),
      (wrap64_mul_wrap64_l (1 * c * w * h) d), Z.mul_1_l.
    reflexivity.
Qed.

Lemma GetChannelsLastStrides_accepts_ranks_4_and_5_witness :
  GetChannelsLastStrides [1; 3; 8] empty_state
  = (AssertionFailure AssertChannelsLastRank, empty_state) /\
  GetChannelsLastStrides [2; 3; 4; 5; 6] empty_state
  = (Ok [360; 1; 90; 18; 3], empty_state).
Proof.
  split.
  - apply (GetChannelsLastStrides_accepts_ranks_4_and_5 [1; 3; 8] empty_state);
      discriminate.
  - destruct (GetChannelsLastStrides_accepts_ranks_4_and_5 [2; 3; 4; 5; 6]
                empty_state) as [_ Hrank5].
    rewrite (Hrank5 2 3 4 5 6 eq_refl). reflexivity.
Defined.

(** X10: for a tensor extent, padding, filter extent, stride and dilation
    that are small and a stride, dilation and filter extent of at least 1,
    the output extent [GetFwdConvOutputDim] returns counts the windows that
    fit: when the dilated filter fits the padded image, the last of the
    windows ends inside the image and one more would not; when it does not
    fit, the division truncating toward zero still gives one window if the
    filter overhangs by less than a stride, and none otherwise. *)
Theorem GetFwdConvOutputDim_counts_windows
    (tensor_dim padding filter_dim stride dilation : Z) :
  small_extent tensor_dim -> small_extent padding ->
  small_extent filter_dim -> small_extent stride -> small_extent dilation ->
  1 <= filter_dim -> 1 <= stride -> 1 <= dilation ->
  let padded := tensor_dim + 2 * padding in
  let dilated := (filter_dim - 1) * dilation + 1 in
  let out := GetFwdConvOutputDim tensor_dim padding filter_dim stride dilation in
  GetFwdConvPaddedImageDim tensor_dim padding = padded /\
  GetFwdConvDilatedFilterDim filter_dim dilation = dilated /\
  (dilated <= padded ->
   1 <= out /\
   (out - 1) * stride + dilated <= padded < out * stride + dilated) /\
  (padded < dilated -> dilated - padded < stride -> out = 1) /\
  (padded < dilated -> stride <= dilated - padded -> out <= 0).
Proof.
  intros Ht Hp Hf Hs Hd Hf1 Hs1 Hd1 padded dilated out.
  unfold small_extent in Ht, Hp, Hf, Hs, Hd.
  assert (Hfd : 0 <= (filter_dim - 1) * dilation < 2 ^ 62) by nia.
  assert (Hpadded : GetFwdConvPaddedImageDim tensor_dim padding = padded).
  { unfold GetFwdConvPaddedImageDim, Int64.add, Int64.mul.
    rewrite (wrap64_id (2 * padding)), wrap64_id; [reflexivity| |];
      unfold Int64.in_range, Int64.min_signed, Int64.max_signed,
        Int64.half_modulus; lia. }
  assert (Hdilated : GetFwdConvDilatedFilterDim filter_dim dilation = dilated).
  { unfold GetFwdConvDilatedFilterDim, Int64.add, Int64.mul, Int64.sub.
    rewrite (wrap64_id (filter_dim - 1)),
      (wrap64_id ((filter_dim - 1) * dilation)), wrap64_id; [reflexivity| | |];
      unfold Int64.in_range, Int64.min_signed, Int64.max_signed,
        Int64.half_modulus; lia. }
  pose proof (Z.quot_rem' (padded - dilated) stride) as Hqr.
  assert (Hquot : - 2 ^ 62 <= (padded - dilated) ÷ stride <= 2 ^ 62).
  { destruct (Z.le_ge_cases 0 (padded - dilated)) as [Hpos | Hneg].
    - pose proof (Z.rem_bound_pos (padded - dilated) stride Hpos ltac:(lia)).
      subst padded dilated. nia.
    - pose proof (Z.rem_bound_pos_neg (padded - dilated) stride ltac:(lia)
                    Hneg).
      subst padded dilated. nia. }
  assert (Hout : out = (padded - dilated) ÷ stride + 1).
  { unfold out, GetFwdConvOutputDim. rewrite Hpadded, Hdilated.
    unfold Int64.add, Int64.sub, Int64.div.
    rewrite (wrap64_id (padded - dilated)),
      (wrap64_id ((padded - dilated) ÷ stride)), wrap64_id; [reflexivity| | |];
      unfold Int64.in_range, Int64.min_signed, Int64.max_signed,
        Int64.half_modulus; subst padded dilated; lia. }
  split; [exact Hpadded|]. split; [exact Hdilated|]. rewrite Hout.
  split; [|split].
  - intros Hfits.
    pose proof (Z.rem_bound_pos (padded - dilated) stride ltac:(lia) ltac:(lia)).
    pose proof (Z.quot_pos (padded - dilated) stride ltac:(lia) ltac:(lia)).
    split; [lia|]. nia.
  - intros Hover Hless.
    enough ((padded - dilated) ÷ stride = 0) by lia.
    apply Z.quot_small_iff; lia.
  - intros Hover Hmore.
    pose proof (Z.rem_bound_pos_neg (padded - dilated) stride ltac:(lia)
                  ltac:(lia)).
    nia.
Qed.

Lemma GetFwdConvOutputDim_counts_windows_witness :
  GetFwdConvOutputDim 8 0 3 2 1 = 3 /\ GetFwdConvOutputDim 2 0 3 2 1 = 1.
Proof.
  destruct (GetFwdConvOutputDim_counts_windows 8 0 3 2 1)
    as (_ & _ & Hfits & _); try (unfold small_extent; lia).
  destruct (GetFwdConvOutputDim_counts_windows 2 0 3 2 1)
    as (_ & _ & _ & Hover & _); try (unfold small_extent; lia).
Defined.

(** ** Counting the recorded operations *)

Lemma occurrences_app (q : ptr) (l1 l2 : list ptr) :
  occurrences q (l1 ++ l2) = (occurrences q l1 + occurrences q l2)%nat.
Proof. unfold occurrences. rewrite filter_app, length_app. reflexivity. Qed.

Lemma occurrences_singleton_ne (q t : ptr) : t <> q -> occurrences q [t] = 0%nat.
Proof.
  intros Hne. unfold occurrences. rewrite filter_cons_False by exact Hne.
  reflexivity.
Qed.

Lemma uses_snoc (h : list CuDNNTensor) (q : ptr) (ops : list operation_ptr)
    (t : ptr) :
  uses h q (ops ++ [t]) = (uses h q ops + occurrences q (inputs_at h t))%nat.
Proof. unfold uses. rewrite sum_list_with_app. cbn. lia. Qed.

(** The balance the loop keeps for a result tensor [q]: every occurrence of
    [q] among the recorded operations and on the work-list is one of the
    starting ones or was pushed as an input of a recorded operation. *)
Lemma worklist_loop_balance (h : list CuDNNTensor) (q : ptr) (fuel : nat) :
  is_op_result h q ->
  forall (worklist : list ptr) (args : gset ptr) (ops : list operation_ptr)
         (args' : gset ptr) (ops' : list operation_ptr),
    worklist_loop fuel h worklist args ops = Ok (args', ops') ->
    (occurrences q ops' + uses h q ops
     = occurrences q ops + occurrences q worklist + uses h q ops')%nat.
Proof.
  intros (inputs_q & operation_q & tensor_q & Hq).
  induction fuel as [|fuel IH]; intros worklist args ops args' ops' Hrun;
    destruct worklist as [|t worklist _] using rev_ind.
  - rewrite worklist_loop_nil in Hrun. injection Hrun as <- <-.
    unfold occurrences at 3. cbn. lia.
  - rewrite worklist_loop_no_fuel in Hrun. discriminate.
  - rewrite worklist_loop_nil in Hrun. injection Hrun as <- <-.
    unfold occurrences at 3. cbn. lia.
  - rewrite worklist_loop_snoc in Hrun. rewrite occurrences_app.
    destruct (h !! t) as [[tensor_ | inputs_ operation_ tensor_]|] eqn:Ht;
      [| |discriminate].
    + rewrite occurrences_singleton_ne by (intros ->; congruence).
      specialize (IH _ _ _ _ _ Hrun). lia.
    + specialize (IH _ _ _ _ _ Hrun).
      rewrite uses_snoc, !occurrences_app in IH. unfold inputs_at in IH.
      rewrite Ht in IH. cbn [inputs] in IH. lia.
Qed.

(** X11: the traversal does not deduplicate. With [ops] the result tensors
    whose operations the graph lists, in the order of the graph, a result
    tensor occurs in [ops] once for each time it is returned and once for
    each time an operation of [ops] takes it as an input: an operation
    whose result reaches the returns along several paths is listed once
    for each path. *)
Theorem CreateOperationGraph_lists_an_operation_per_use
    (order : unordered_set_order) (fuel : nat)
    (syms : openxla_cudnn_dynamic_symbols_t) (handle : cudnnHandle_t)
    (rets : list ptr) (s s' : State) (graph : CuDNNOperationGraph) :
  CreateOperationGraph order fuel syms handle rets s = (Ok graph, s') ->
  exists ops : list operation_ptr,
    Forall2 (owns (heap s)) ops (og_operations (og_graph_ graph)) /\
    forall q, is_op_result (heap s) q ->
      occurrences q ops = (occurrences q rets + uses (heap s) q ops)%nat.
Proof.
  intros Hrun.
  apply CreateOperationGraph_Ok_inv in Hrun
    as (args & ops & Hloop & Hops & _).
  exists (reverse ops). split; [exact Hops|]. intros q Hq.
  pose proof (worklist_loop_balance (heap s) q fuel Hq _ _ _ _ _ Hloop) as Hb.
  unfold occurrences, uses in *. cbn in Hb.
  rewrite filter_reverse, length_reverse, sum_list_with_reverse. lia.
Qed.

Lemma CreateOperationGraph_lists_an_operation_per_use_witness :
  exists ops : list operation_ptr,
    Forall2 (owns (heap diamond_state)) ops
      (og_operations
         (og_graph_
            (match fst (CreateOperationGraph hash_order 16 accepting_backend
                          1 [4%nat] diamond_state) with
             | Ok graph => graph
             | _ => small_graph accepting_backend
             end))) /\
    occurrences 2%nat ops
    = (occurrences 2%nat [4%nat] + uses (heap diamond_state) 2%nat ops)%nat.
Proof.
  destruct (CreateOperationGraph hash_order 16 accepting_backend 1
              [4%nat] diamond_state) as [[graph| | | |] s'] eqn:Hrun;
    try (vm_compute in Hrun; discriminate).
  destruct (CreateOperationGraph_lists_an_operation_per_use hash_order 16
              accepting_backend 1 [4%nat] diamond_state s' graph Hrun)
    as (ops & Hops & Hcount).
  exists ops. split; [exact Hops|]. apply Hcount.
  eexists _, _, _. reflexivity.
Defined.

(** The operation of the convolution of [diamond_state], which both the
    ReLU and the sum consume, is listed twice. *)
Example diamond_convolution_listed_twice :
  exists graph s',
    CreateOperationGraph hash_order 16 accepting_backend 1 [4%nat] diamond_state
    = (Ok graph, s') /\
    exists convolution relu sum,
      og_operations (og_graph_ graph) = [convolution; relu; convolution; sum].
Proof.
  eexists _, _. split; [vm_compute; reflexivity|].
  eexists _, _, _. reflexivity.
Qed.

(** ** Graphs of concatenated returns *)

Lemma owns_functional (h : list CuDNNTensor) (p : operation_ptr)
    (o o' : Operation) :
  owns h p o -> owns h p o' -> o = o'.
Proof.
  intros (inputs_ & tensor_ & Hp) (inputs_' & tensor_' & Hp'). congruence.
Qed.

Lemma Forall2_owns_functional (h : list CuDNNTensor) (ops : list operation_ptr) :
  forall operations operations' : list Operation,
    Forall2 (owns h) ops operations -> Forall2 (owns h) ops operations' ->
    operations = operations'.
Proof.
  induction ops as [|p ops IH]; intros operations operations' H H';
    inversion H; inversion H'; subst; [reflexivity|].
  f_equal; [eapply owns_functional; eauto | apply IH; assumption].
Qed.

(** The loop empties the part of the work-list pushed last before it
    touches the part below it. *)
Lemma worklist_loop_app (h : list CuDNNTensor) (fuel : nat) :
  forall (l : list ptr) (a0 : gset ptr) (o0 : list operation_ptr)
         (a : gset ptr) (o : list operation_ptr),
    worklist_loop fuel h l a0 o0 = Ok (a, o) ->
    forall (fuel' : nat) (worklist : list ptr) (args : gset ptr)
           (pre : list operation_ptr) (r : gset ptr * list operation_ptr),
      worklist_loop fuel' h worklist (a ∪ args) (pre ++ o) = Ok r ->
      worklist_loop (fuel + fuel') h (worklist ++ l) (a0 ∪ args) (pre ++ o0)
      = Ok r.
Proof.
  induction fuel as [|fuel IH]; intros l a0 o0 a o Hrun fuel' worklist args
    pre r Hrest; destruct l as [|t l _] using rev_ind.
  - rewrite worklist_loop_nil in Hrun. injection Hrun as <- <-.
    rewrite app_nil_r. exact Hrest.
  - rewrite worklist_loop_no_fuel in Hrun. discriminate.
  - rewrite worklist_loop_nil in Hrun. injection Hrun as <- <-.
    rewrite app_nil_r.
    apply (worklist_loop_more_fuel h fuel' (S fuel + fuel')); [lia|].
    exact Hrest.
  - rewrite worklist_loop_snoc in Hrun.
    rewrite app_assoc. cbn [Nat.add]. rewrite worklist_loop_snoc.
    destruct (h !! t) as [[tensor_ | inputs_ operation_ tensor_]|] eqn:Ht;
      [| |discriminate].
    + rewrite (assoc_L (∪)). apply (IH _ _ _ _ _ Hrun). exact Hrest.
    + rewrite <- !app_assoc. apply (IH _ _ _ _ _ Hrun). exact Hrest.
Qed.

(** X12: the graph of the returns [rets1 ++ rets2] lists the operations of
    the graph of [rets1] followed by those of the graph of [rets2], has as
    arguments the arguments of either, and as returns the returns of the
    first followed by those of the second: nothing the two graphs share is
    merged but the arguments. *)
Theorem CreateOperationGraph_of_concatenated_returns
    (order1 order2 order : unordered_set_order) (fuel1 fuel2 fuel : nat)
    (syms1 syms2 syms : openxla_cudnn_dynamic_symbols_t)
    (handle1 handle2 handle : cudnnHandle_t) (rets1 rets2 : list ptr)
    (s s1 s2 s' : State) (graph1 graph2 graph : CuDNNOperationGraph) :
  CreateOperationGraph order1 fuel1 syms1 handle1 rets1 s = (Ok graph1, s1) ->
  CreateOperationGraph order2 fuel2 syms2 handle2 rets2 s = (Ok graph2, s2) ->
  CreateOperationGraph order fuel syms handle (rets1 ++ rets2) s
  = (Ok graph, s') ->
  og_operations (og_graph_ graph)
  = og_operations (og_graph_ graph1) ++ og_operations (og_graph_ graph2) /\
  (forall p, p ∈ args_ graph <-> p ∈ args_ graph1 \/ p ∈ args_ graph2) /\
  rets_ graph = rets_ graph1 ++ rets_ graph2.
Proof.
  intros H1 H2 H.
  apply CreateOperationGraph_Ok_inv in H1
    as (a1 & o1 & Hloop1 & Hops1 & Hargs1 & Hrets1 & _).
  apply CreateOperationGraph_Ok_inv in H2
    as (a2 & o2 & Hloop2 & Hops2 & Hargs2 & Hrets2 & _).
  apply CreateOperationGraph_Ok_inv in H
    as (a & o & Hloop & Hops & Hargs & Hrets & _).
  assert (Hboth : worklist_loop (fuel2 + (fuel1 + 0)) (heap s) (rets1 ++ rets2)
                    ∅ [] = Ok (a1 ∪ a2, o2 ++ o1)).
  { pose proof (worklist_loop_app (heap s) fuel1 rets1 ∅ [] a1 o1 Hloop1
                  0%nat [] a2 o2 (a1 ∪ a2, o2 ++ o1)
                  (worklist_loop_nil (heap s) 0 _ _)) as Hfirst.
    rewrite app_nil_r, (left_id_L ∅ (∪)) in Hfirst. cbn [app] in Hfirst.
    pose proof (worklist_loop_app (heap s) fuel2 rets2 ∅ [] a2 o2 Hloop2
                  (fuel1 + 0)%nat rets1 ∅ [] (a1 ∪ a2, o2 ++ o1)) as Hsecond.
    rewrite (right_id_L ∅ (∪)), (left_id_L ∅ (∪)) in Hsecond.
    cbn [app] in Hsecond. exact (Hsecond Hfirst). }
  apply (worklist_loop_more_fuel (heap s) _ (fuel + (fuel2 + (fuel1 + 0))))
    in Hboth; [|lia].
  apply (worklist_loop_more_fuel (heap s) _ (fuel + (fuel2 + (fuel1 + 0))))
    in Hloop; [|lia].
  rewrite Hloop in Hboth. injection Hboth as -> ->.
  split; [|split].
  - rewrite reverse_app in Hops.
    apply (Forall2_owns_functional (heap s) (reverse o1 ++ reverse o2));
      [exact Hops | apply Forall2_app; assumption].
  - intros p. rewrite Hargs, Hargs1, Hargs2.
    rewrite !std_sort_perm, !iterate_perm, !elem_of_elements.
    apply elem_of_union.
  - rewrite Hrets, Hrets1, Hrets2. reflexivity.
Qed.

Lemma CreateOperationGraph_of_concatenated_returns_witness :
  match fst (CreateOperationGraph hash_order 16 accepting_backend 1
               [3%nat; 4%nat] diamond_state),
        fst (CreateOperationGraph hash_order 16 accepting_backend 1
               [3%nat] diamond_state),
        fst (CreateOperationGraph hash_order 16 accepting_backend 1
               [4%nat] diamond_state) with
  | Ok graph, Ok graph1, Ok graph2 =>
      og_operations (og_graph_ graph)
      = og_operations (og_graph_ graph1) ++ og_operations (og_graph_ graph2)
  | _, _, _ => False
  end.
Proof.
  destruct (CreateOperationGraph hash_order 16 accepting_backend 1
              [3%nat; 4%nat] diamond_state) as [[graph| | | |] s'] eqn:Hrun;
    try (vm_compute in Hrun; discriminate).
  destruct (CreateOperationGraph hash_order 16 accepting_backend 1
              [3%nat] diamond_state) as [[graph1| | | |] s1] eqn:Hrun1;
    try (vm_compute in Hrun1; discriminate).
  destruct (CreateOperationGraph hash_order 16 accepting_backend 1
              [4%nat] diamond_state) as [[graph2| | | |] s2] eqn:Hrun2;
    try (vm_compute in Hrun2; discriminate).
  cbn [fst].
  apply (CreateOperationGraph_of_concatenated_returns hash_order hash_order
           hash_order 16 16 16 accepting_backend accepting_backend
           accepting_backend 1 1 1 [3%nat] [4%nat] diamond_state s1 s2 s'
           graph1 graph2 graph Hrun1 Hrun2 Hrun).
Defined.

(** ** The backend call of [CreateOperationGraph] *)

(** X13: on a heap whose inputs point to earlier tensors and for returns
    that are tensors of the heap, [CreateOperationGraph] makes one backend
    call whatever the outcome, the build of the operation graph, and
    leaves the heap as it is; the status of that build decides the
    outcome: a graph around the descriptor just built on success, the
    error of the status otherwise. The traversal needs a bounded number of
    steps, and neither the operations nor the outcome depend on the bound
    once it suffices. *)
Theorem CreateOperationGraph_single_backend_call
    (order : unordered_set_order) (syms : openxla_cudnn_dynamic_symbols_t)
    (handle : cudnnHandle_t) (rets : list ptr) (s : State) :
  heap_wf (heap s) ->
  (forall p, p ∈ rets -> (p < length (heap s))%nat) ->
  exists (k : nat) (operations : list Operation),
    forall fuel, (k <= fuel)%nat ->
      exists r,
        CreateOperationGraph order fuel syms handle rets s
        = (r, mkState (heap s)
                (backend_log s ++ [EvOperationGraphBuild handle operations])) /\
        match operation_graph_status syms handle operations with
        | CUDNN_STATUS_SUCCESS =>
            exists graph,
              r = Ok graph /\ og_syms_ graph = syms /\
              og_graph_ graph
              = mkOperationGraph handle operations
                  (operation_graph_tag syms operations)
        | CUDNN_STATUS_FAILURE code =>
            exists err,
              r = Failed err /\
              CUDNN_CONVERT_STATUS syms (CUDNN_STATUS_FAILURE code) = Some err
        end.
Proof.
  intros Hwf Hrets.
  destruct (worklist_loop_terminates (heap s) rets Hwf Hrets) as [k Hk].
  destruct (Hk k ∅ [] (Nat.le_refl k)) as (args & ops & Hloop).
  destruct (mapM_operation_at_run (reverse ops) s) as [operations Hops].
  { apply Forall_forall. intros p Hp. rewrite elem_of_reverse in Hp.
    apply (worklist_loop_ops _ _ _ _ _ _ _ Hloop) in Hp as [Hp | [_ Hp]];
      [inversion Hp | exact Hp]. }
  assert (Hargs : forall p,
            p ∈ std_sort (fun a b => tensor_id (heap s) a <? tensor_id (heap s) b)
                  (iterate order args) ->
            is_Some (heap s !! p)).
  { intros p Hp. rewrite std_sort_perm, iterate_perm in Hp.
    apply elem_of_elements in Hp.
    apply (worklist_loop_args _ _ _ _ _ _ _ Hloop) in Hp
      as [Hp | [_ (tensor_ & Hp)]]; [|eauto].
    rewrite elem_of_empty in Hp. destruct Hp. }
  exists k, operations. intros fuel Hfuel.
  apply (worklist_loop_more_fuel (heap s) k fuel) in Hloop; [|exact Hfuel].
  destruct (operation_graph_status syms handle operations) eqn:Hstatus.
  - eexists. split.
    + unfold CreateOperationGraph. rewrite bind_unfold. unfold the_heap at 1.
      rewrite Hloop. rewrite bind_unfold. unfold lift at 1.
      rewrite (bind_Ok_intro _ _ _ _ _ Hops).
      unfold OperationGraphBuilder.build.
      rewrite bind_unfold, bind_unfold, emit_run. cbv beta iota.
      unfold mret at 1, M_ret at 1. cbv beta iota.
      rewrite bind_unfold, Hstatus.
      cbn [CUDNN_CONVERT_STATUS IREE_RETURN_IF_ERROR].
      unfold mret at 1, M_ret at 1. cbv beta iota.
      unfold new_CuDNNOperationGraph. rewrite bind_unfold.
      rewrite retain_all_run by exact Hargs.
      rewrite bind_unfold, retain_all_run
        by (cbn [heap]; intros p Hp; apply lookup_lt_is_Some_2, Hrets, Hp).
      reflexivity.
    + eexists. split; [reflexivity|]. split; reflexivity.
  - eexists. split; [|eexists; split; reflexivity].
    unfold CreateOperationGraph. rewrite bind_unfold. unfold the_heap at 1.
    rewrite Hloop. rewrite bind_unfold. unfold lift at 1.
    rewrite (bind_Ok_intro _ _ _ _ _ Hops).
    unfold OperationGraphBuilder.build.
    rewrite bind_unfold, bind_unfold, emit_run. cbv beta iota.
    unfold mret at 1, M_ret at 1. cbv beta iota.
    rewrite bind_unfold, Hstatus. reflexivity.
Qed.

Lemma CreateOperationGraph_single_backend_call_witness :
  exists (k : nat) (operations : list Operation),
    forall fuel, (k <= fuel)%nat ->
      exists r graph,
        CreateOperationGraph hash_order fuel accepting_backend 1 [4%nat]
          diamond_state
        = (r, mkState (heap diamond_state)
                [EvOperationGraphBuild 1 operations]) /\
        r = Ok graph.
Proof.
  destruct (CreateOperationGraph_single_backend_call hash_order
              accepting_backend 1 [4%nat] diamond_state diamond_heap_wf)
    as (k & operations & Hruns).
  - intros p Hp. apply elem_of_cons in Hp as [-> | Hp]; [cbn; lia|].
    inversion Hp.
  - exists k, operations. intros fuel Hfuel.
    destruct (Hruns fuel Hfuel) as (r & Hrun & graph & Hr & _).
    exists r, graph. split; [exact Hrun | exact Hr].
Defined.

(** ** The backend calls of the constructors *)

Lemma keeps_log_ret {A : Type} (a : A) : keeps_log (mret a).
Proof. intros s r s' H. injection H as <- <-. reflexivity. Qed.

Lemma keeps_log_fail {A : Type} (e : Status) : keeps_log (@fail A e).
Proof. intros s r s' H. injection H as <- <-. reflexivity. Qed.

Lemma keeps_log_new (t : CuDNNTensor) : keeps_log (new t).
Proof. intros s r s' H. rewrite new_run in H. injection H as <- <-. reflexivity. Qed.

Lemma keeps_log_deref (p : ptr) : keeps_log (deref p).
Proof.
  intros s r s'. unfold deref. destruct (heap s !! p); intros H;
    injection H as <- <-; reflexivity.
Qed.

Lemma keeps_log_GetChannelsLastStrides (dims : list Z) :
  keeps_log (GetChannelsLastStrides dims).
Proof.
  intros s r s'. unfold GetChannelsLastStrides.
  destruct (_ || _); intros H; injection H as <- <-; reflexivity.
Qed.

Lemma stops_quiet (syms : openxla_cudnn_dynamic_symbols_t) {A : Type} (m : M A) :
  keeps_log m -> stops_at_failed_build syms m.
Proof.
  intros Hm s r s' Hrun. exists []. rewrite app_nil_r.
  split; [exact (Hm _ _ _ Hrun)|]. split; [constructor|].
  split; [constructor | discriminate].
Qed.

Lemma stops_quiet_bind (syms : openxla_cudnn_dynamic_symbols_t) {A B : Type}
    (m : M A) (f : A -> M B) :
  keeps_log m -> (forall a, stops_at_failed_build syms (f a)) ->
  stops_at_failed_build syms (m ≫= f).
Proof.
  intros Hm Hf s r s'. rewrite bind_unfold.
  destruct (m s) as [[a| | | |] s1] eqn:Hrun; intros H;
    try (injection H as <- <-; exists []; rewrite app_nil_r;
         split; [exact (Hm _ _ _ Hrun)|]; split; [constructor|];
         split; [constructor | discriminate]).
  destruct (Hf a _ _ _ H) as (evs & Hlog & Hinit & Hok & Hlast).
  exists evs. rewrite <- (Hm _ _ _ Hrun). auto.
Qed.

(** A build followed by the check of its status. *)
Lemma stops_checked_build (syms : openxla_cudnn_dynamic_symbols_t)
    {A B : Type} (e : Event) (x : A) (st : A -> cudnnStatus_t) (k : A -> M B) :
  st x = build_status syms e ->
  stops_at_failed_build syms (k x) ->
  stops_at_failed_build syms
    ((emit e;; mret x) ≫=
     (fun b => IREE_RETURN_IF_ERROR (CUDNN_CONVERT_STATUS syms (st b));; k b)).
Proof.
  intros Hst Hk s r s'. rewrite bind_unfold, bind_unfold, emit_run.
  cbv beta iota. unfold mret at 1, M_ret at 1. cbv beta iota.
  rewrite bind_unfold, Hst.
  destruct (build_status syms e) as [|code] eqn:Hstatus;
    cbn [CUDNN_CONVERT_STATUS IREE_RETURN_IF_ERROR].
  - unfold mret at 1, M_ret at 1. cbv beta iota. intros H.
    destruct (Hk _ _ _ H) as (evs & Hlog & Hinit & Hok & Hlast).
    cbn [backend_log] in Hlog. exists (e :: evs).
    split; [rewrite Hlog, <- app_assoc; reflexivity|].
    destruct evs as [|e' evs].
    + split; [constructor|]. split; [repeat constructor; exact Hstatus|].
      intros e0 He0 Hbad. injection He0 as <-. congruence.
    + split; [|split].
      * change (removelast (e :: e' :: evs))
          with (e :: removelast (e' :: evs)).
        constructor; [exact Hstatus | exact Hinit].
      * intros Hr. constructor; [exact Hstatus | exact (Hok Hr)].
      * intros e0 He0. apply Hlast. exact He0.
  - intros H. injection H as <- <-. exists [e].
    split; [reflexivity|]. split; [constructor|]. split.
    + intros [a Ha]. discriminate.
    + intros e0 He0 _. injection He0 as <-. rewrite Hstatus.
      eexists. split; reflexivity.
Qed.

Ltac keeps_log_step :=
  first
    [ apply keeps_log_deref
    | apply keeps_log_new
    | apply keeps_log_fail
    | apply keeps_log_ret
    | apply keeps_log_GetChannelsLastStrides ].

Ltac stops_chain :=
  repeat first
    [ apply stops_quiet_bind; [keeps_log_step | intros]
    | apply stops_checked_build; [reflexivity|] ];
  try (apply stops_quiet; keeps_log_step).

(** X14: a constructor makes no backend call after a build the backend
    rejected. Of the builds a call makes, all but the last succeeded; all
    succeeded when the call returns a tensor; and when the last one was
    rejected, the call returns the error of its status. *)
Theorem construct_stops_at_failed_build
    (syms : openxla_cudnn_dynamic_symbols_t) (call : ConstructorCall) :
  stops_at_failed_build syms (construct syms call).
Proof.
  destruct call as [dims strides uid dtype alignment
                   | [input lo hi | mode x alpha | mode x alpha b alpha2]
                       uid alignment is_virtual
                   | input filter uid alignment is_virtual mode];
    cbn [construct CreatePointwise].
  - unfold CreateTensor, TensorBuilder.build. stops_chain.
  - unfold CreatePointwiseRelu, TensorBuilder.build, PointWiseDescBuilder.build,
      OperationBuilder.build. stops_chain.
  - unfold CreatePointwiseUnary, TensorBuilder.build, PointWiseDescBuilder.build,
      OperationBuilder.build. stops_chain.
  - unfold CreatePointwiseBinary, TensorBuilder.build,
      PointWiseDescBuilder.build, OperationBuilder.build. stops_chain.
  - unfold CreateConvolution, TensorBuilder.build, ConvDescBuilder.build,
      OperationBuilder.build.
    apply stops_quiet_bind; [keeps_log_step | intros input_].
    apply stops_quiet_bind; [keeps_log_step | intros filter_].
    destruct (negb _); [apply stops_quiet; keeps_log_step|].
    destruct (negb _); [apply stops_quiet; keeps_log_step|].
    apply stops_quiet_bind.
    { destruct (_ =? _); keeps_log_step. }
    intros output_strides. stops_chain.
Qed.

Lemma construct_stops_at_failed_build_witness :
  exists evs err,
    backend_log
      (snd (construct no_pointwise_backend
              (PointwiseOf (Relu 0%nat 0%float 6%float) 7 32 false)
              two_shapes_state)) = evs /\
    length evs = 2%nat /\
    fst (construct no_pointwise_backend
           (PointwiseOf (Relu 0%nat 0%float 6%float) 7 32 false)
           two_shapes_state) = Failed err.
Proof.
  destruct (construct_stops_at_failed_build no_pointwise_backend
              (PointwiseOf (Relu 0%nat 0%float 6%float) 7 32 false)
              two_shapes_state _ _ (surjective_pairing _))
    as (evs & Hlog & _ & _ & Hlast).
  cbn [two_shapes_state backend_log app] in Hlog. exists evs.
  assert (Hevs : exists e1 e2, evs = [e1; EvPointWiseDescBuild e2]).
  { rewrite <- Hlog. vm_compute. eexists _, _. reflexivity. }
  destruct Hevs as (e1 & e2 & ->).
  destruct (Hlast _ eq_refl) as (err & Hr & _); [discriminate|].
  exists err. split; [rewrite Hlog; reflexivity|]. split; [reflexivity|].
  exact Hr.
Defined.

(** ** The outcomes of the constructors *)

















(** ** What [CreateConvolution] checks *)

(** X16: ranks are all [CreateConvolution] checks. With a backend that
    accepts every build, an input of dims [n, c, h, w] and a filter of
    dims [k, c', kh, kw] give a tensor of dims [n, c, h - kh + 1,
    w - kw + 1], whatever the channel counts [c] and [c'] and whether or
    not the filter fits the image: [k] and [c'] take no part, and a filter
    larger than the image gives an extent that is not positive. *)
Theorem CreateConvolution_checks_ranks_only
    (syms : openxla_cudnn_dynamic_symbols_t) (input filter : ptr)
    (uid alignment : Z) (is_virtual : bool) (mode : cudnnConvolutionMode_t)
    (s : State) (input_ filter_ : CuDNNTensor) (n c h w k c' kh kw : Z) :
  accepts_all syms ->
  heap s !! input = Some input_ -> heap s !! filter = Some filter_ ->
  getDim (tensor input_) = [n; c; h; w] ->
  getDim (tensor filter_) = [k; c'; kh; kw] ->
  0 <= h <= Int64.max_signed -> 0 <= w <= Int64.max_signed ->
  0 < kh <= Int64.max_signed -> 0 < kw <= Int64.max_signed ->
  exists s' y,
    CreateConvolution syms input filter uid alignment is_virtual mode s
    = (Ok (length (heap s)), s') /\
    heap s' !! length (heap s) = Some y /\
    getDim (tensor y) = [n; c; h - kh + 1; w - kw + 1] /\
    (h < kh -> h - kh + 1 <= 0).
Proof.
  intros (Htensor & _ & Hconv & Hoperation) Hin Hf Hdims Hfdims Hh Hw Hkh Hkw.
  assert (Hrun : exists p s',
             CreateConvolution syms input filter uid alignment is_virtual mode s
             = (Ok p, s')).
  { unfold CreateConvolution, TensorBuilder.build, ConvDescBuilder.build,
      OperationBuilder.build.
    rewrite (bind_Ok_intro _ _ _ _ _ (deref_run _ _ _ Hin)).
    rewrite (bind_Ok_intro _ _ _ _ _ (deref_run _ _ _ Hf)).
    rewrite Hdims, Hfdims. cbn [length Nat.eqb negb].
    rewrite bind_unfold.
    assert (Hstrides : exists output_strides,
               (if getStride (tensor input_) !!! 1%nat =? 1
                then GetChannelsLastStrides
                       (foldl
                          (fun output_dims d =>
                             output_dims ++
                             [GetFwdConvOutputDim ([n; c; h; w] !!! (d + 2)%nat)
                                ([0; 0] !!! d) ([k; c'; kh; kw] !!! (d + 2)%nat)
                                ([1; 1] !!! d) ([1; 1] !!! d)])
                          [[n; c; h; w] !!! 0%nat; [n; c; h; w] !!! 1%nat]
                          (seq 0 kSpatialDims))
                else mret
                       (GetRowMajorStrides
                          (foldl
                             (fun output_dims d =>
                                output_dims ++
                                [GetFwdConvOutputDim
                                   ([n; c; h; w] !!! (d + 2)%nat)
                                   ([0; 0] !!! d)
                                   ([k; c'; kh; kw] !!! (d + 2)%nat)
                                   ([1; 1] !!! d) ([1; 1] !!! d)])
                             [[n; c; h; w] !!! 0%nat; [n; c; h; w] !!! 1%nat]
                             (seq 0 kSpatialDims)))) s
               = (Ok output_strides, s)).
    { destruct (_ =? _); eexists; reflexivity. }
    destruct Hstrides as [output_strides ->].
    rewrite checked_build_run by apply Htensor.
    rewrite checked_build_run by apply Hconv.
    rewrite checked_build_run by apply Hoperation.
    rewrite new_run. eexists _, _. reflexivity. }
  destruct Hrun as (p & s' & Hrun).
  destruct (CreateConvolution_output_dims syms input filter uid alignment
              is_virtual mode s p s' input_ filter_ n c h w k c' kh kw
              Hrun Hin Hf Hdims Hfdims Hh Hw Hkh Hkw) as (y & Hy & Hydims).
  destruct (CreateConvolution_Ok_inv syms input filter uid alignment
              is_virtual mode s p s' Hrun)
    as (i_ & f_ & n0 & c0 & h0 & w0 & k0 & c0' & kh0 & kw0 & op & y0 &
        _ & _ & _ & _ & Hp & _).
  subst p. exists s', y. split; [exact Hrun|]. split; [exact Hy|].
  split; [exact Hydims | lia].
Qed.

Lemma CreateConvolution_checks_ranks_only_witness :
  exists s' y,
    CreateConvolution accepting_backend 0 1 3 32 false CUDNN_CROSS_CORRELATION
      misfit_state
    = (Ok 2%nat, s') /\
    heap s' !! 2%nat = Some y /\
    getDim (tensor y) = [1; 3; 0; 0].
Proof.
  destruct (CreateConvolution_checks_ranks_only accepting_backend 0 1 3 32
              false CUDNN_CROSS_CORRELATION misfit_state
              (CuDNNArgTensor (mkTensor [1; 3; 2; 2] [12; 4; 2; 1] 1 32
                                 CUDNN_DATA_FLOAT false))
              (CuDNNArgTensor (mkTensor [4; 5; 3; 3] [45; 9; 3; 1] 2 32
                                 CUDNN_DATA_FLOAT false))
              1 3 2 2 4 5 3 3)
    as (s' & y & Hrun & Hy & Hdims & _);
    try reflexivity;
    try (unfold Int64.max_signed, Int64.half_modulus; lia).
  - repeat split; intros; reflexivity.
  - exists s', y. split; [exact Hrun|]. split; [exact Hy | exact Hdims].
Defined.

(** ** Ids that repeat *)

(** X17: the id sequence of a graph is not free of repetitions. An
    argument tensor that is itself returned is both an argument and a
    return of the graph, and its id stands in the id sequence twice: at its
    place among the arguments and at its place among the returns, so that
    [Execute] asks for two buffers for it. *)
Theorem CreateOperationGraph_returned_argument_twice
    (order : unordered_set_order) (fuel : nat)
    (syms : openxla_cudnn_dynamic_symbols_t) (handle : cudnnHandle_t)
    (rets : list ptr) (s s' : State) (graph : CuDNNOperationGraph)
    (p : ptr) (i : nat) :
  CreateOperationGraph order fuel syms handle rets s = (Ok graph, s') ->
  rets !! i = Some p -> is_arg (heap s) p ->
  exists j,
    (j < length (args_ graph))%nat /\
    args_ graph !! j = Some p /\
    rets_ graph !! i = Some p /\
    uids_ graph !! j = Some (tensor_id (heap s) p) /\
    uids_ graph !! (length (args_ graph) + i)%nat
      = Some (tensor_id (heap s) p).
Proof.
  intros Hrun Hi Harg.
  apply CreateOperationGraph_Ok_inv in Hrun
    as (args & ops & Hloop & _ & Hargs & Hrets & Huids & _).
  assert (Hp : p ∈ args_ graph).
  { rewrite Hargs, std_sort_perm, iterate_perm, elem_of_elements.
    apply (worklist_loop_args _ _ _ _ _ _ _ Hloop). right.
    split; [|exact Harg]. apply reachable_root.
    apply list_elem_of_lookup. eauto. }
  apply list_elem_of_lookup in Hp as [j Hj].
  exists j. split; [eapply lookup_lt_Some; exact Hj|].
  split; [exact Hj|]. split; [rewrite Hrets; exact Hi|].
  rewrite Huids. split.
  - rewrite lookup_app_l
      by (rewrite length_fmap; eapply lookup_lt_Some; exact Hj).
    rewrite list_lookup_fmap, Hj. reflexivity.
  - rewrite lookup_app_r by (rewrite length_fmap; lia).
    rewrite length_fmap.
    replace (length (args_ graph) + i - length (args_ graph))%nat with i
      by lia.
    rewrite list_lookup_fmap, Hi. reflexivity.
Qed.

Lemma CreateOperationGraph_returned_argument_twice_witness :
  match fst (CreateOperationGraph hash_order 16 accepting_backend 1
               [4%nat; 0%nat] diamond_state) with
  | Ok graph =>
      exists j,
        (j < length (args_ graph))%nat /\
        uids_ graph !! j = Some 11 /\
        uids_ graph !! (length (args_ graph) + 1)%nat = Some 11
  | _ => False
  end.
Proof.
  destruct (CreateOperationGraph hash_order 16 accepting_backend 1
              [4%nat; 0%nat] diamond_state) as [[graph| | | |] s'] eqn:Hrun;
    try (vm_compute in Hrun; discriminate).
  destruct (CreateOperationGraph_returned_argument_twice hash_order 16
              accepting_backend 1 [4%nat; 0%nat] diamond_state s' graph
              0%nat 1%nat Hrun eq_refl) as (j & Hj & _ & _ & Hfirst & Hsecond).
  - eexists. reflexivity.
  - exists j. split; [exact Hj|]. split; [exact Hfirst | exact Hsecond].
Defined.

(** ** The layout of a convolution output *)



(** ** Graphs and later constructions *)

Lemma worklist_loop_heap_app (h more : list CuDNNTensor) (fuel : nat) :
  forall (worklist : list ptr) (args : gset ptr) (ops : list operation_ptr)
         (r : gset ptr * list operation_ptr),
    worklist_loop fuel h worklist args ops = Ok r ->
    worklist_loop fuel (h ++ more) worklist args ops = Ok r.
Proof.
  induction fuel as [|fuel IH]; intros worklist args ops r Hrun;
    destruct worklist as [|t worklist _] using rev_ind.
  - rewrite worklist_loop_nil in Hrun |- *. exact Hrun.
  - rewrite worklist_loop_no_fuel in Hrun. discriminate.
  - rewrite worklist_loop_nil in Hrun |- *. exact Hrun.
  - rewrite worklist_loop_snoc in Hrun |- *.
    destruct (h !! t) as [c|] eqn:Ht; [|discriminate].
    rewrite (lookup_app_l_Some _ more _ _ Ht).
    destruct c; apply IH; exact Hrun.
Qed.

Lemma tensor_id_app (h more : list CuDNNTensor) (p : ptr) :
  is_Some (h !! p) -> tensor_id (h ++ more) p = tensor_id h p.
Proof.
  intros [t Ht]. unfold tensor_id.
  rewrite (lookup_app_l_Some _ more _ _ Ht), Ht. reflexivity.
Qed.

Lemma owns_app (h more : list CuDNNTensor) (p : operation_ptr) (o : Operation) :
  owns h p o -> owns (h ++ more) p o.
Proof.
  intros (inputs_ & tensor_ & Hp). exists inputs_, tensor_.
  apply lookup_app_l_Some. exact Hp.
Qed.

Lemma sort_insert_ext {A : Type} (key key' : A -> Z) (x : A) (l : list A) :
  key x = key' x -> (forall y, y ∈ l -> key y = key' y) ->
  sort_insert (fun a b => key a <? key b) x l
  = sort_insert (fun a b => key' a <? key' b) x l.
Proof.
  intros Hx. induction l as [|y l IH]; intros Hl; cbn [sort_insert];
    [reflexivity|].
  rewrite Hx, (Hl y) by constructor.
  destruct (key' x <? key' y); [reflexivity|]. f_equal. apply IH.
  intros z Hz. apply Hl. constructor. exact Hz.
Qed.

Lemma std_sort_ext {A : Type} (key key' : A -> Z) (l : list A) :
  (forall x, x ∈ l -> key x = key' x) ->
  std_sort (fun a b => key a <? key b) l
  = std_sort (fun a b => key' a <? key' b) l.
Proof.
  induction l as [|x l IH]; intros Hl; [reflexivity|].
  cbn [std_sort foldr].
  fold (std_sort (fun a b => key a <? key b) l).
  fold (std_sort (fun a b => key' a <? key' b) l).
  rewrite IH by (intros y Hy; apply Hl; constructor; exact Hy).
  apply sort_insert_ext; [apply Hl; constructor|].
  intros y Hy. rewrite std_sort_perm in Hy. apply Hl. constructor. exact Hy.
Qed.

Lemma mapM_operation_at_owns (ops : list operation_ptr) (s : State)
    (operations : list Operation) :
  Forall2 (owns (heap s)) ops operations ->
  mapM operation_at ops s = (Ok operations, s).
Proof.
  induction 1 as [|p o ops operations (inputs_ & tensor_ & Hp) _ IH].
  - reflexivity.
  - rewrite mapM_cons.
    rewrite (bind_Ok_intro _ _ _ _ _ (operation_at_run _ _ _ _ _ Hp)).
    rewrite (bind_Ok_intro _ _ _ _ _ IH). reflexivity.
Qed.

(** All of what a successful [CreateOperationGraph] returns. *)
Lemma CreateOperationGraph_Ok_graph order fuel syms handle rets s graph s' :
  CreateOperationGraph order fuel syms handle rets s = (Ok graph, s') ->
  exists (args : gset ptr) (ops : list operation_ptr)
         (operations : list Operation),
    worklist_loop fuel (heap s) rets ∅ [] = Ok (args, ops) /\
    Forall2 (owns (heap s)) (reverse ops) operations /\
    operation_graph_status syms handle operations = CUDNN_STATUS_SUCCESS /\
    graph
    = mkCuDNNOperationGraph syms
        (mkOperationGraph handle operations (operation_graph_tag syms operations))
        (std_sort (fun a b => tensor_id (heap s) a <? tensor_id (heap s) b)
           (iterate order args))
        rets
        ((tensor_id (heap s)
            <$> std_sort (fun a b => tensor_id (heap s) a <? tensor_id (heap s) b)
                  (iterate order args)) ++
         (tensor_id (heap s) <$> rets)).
Proof.
  unfold CreateOperationGraph. intros H.
  apply bind_Ok_inv in H as (h & s1 & Hh & H). injection Hh as <- <-.
  apply bind_Ok_inv in H as ([args ops] & s1 & Hloop & H).
  unfold lift in Hloop. injection Hloop as Hloop <-.
  apply bind_Ok_inv in H as (operations & s1 & Hops & H).
  apply mapM_operation_at_Ok_inv in Hops as [-> Hops].
  apply bind_Ok_inv in H as (og & s1 & Hbuild & H).
  unfold OperationGraphBuilder.build in Hbuild.
  apply bind_Ok_inv in Hbuild as ([] & s2 & Hemit & Hbuild).
  rewrite emit_run in Hemit. injection Hemit as <-.
  injection Hbuild as <- <-.
  apply bind_Ok_inv in H as ([] & s1 & Hstatus & H).
  apply return_if_error_Ok_inv in Hstatus as [Hstatus ->].
  unfold new_CuDNNOperationGraph in H.
  apply bind_Ok_inv in H as ([refs1 uids1] & s1 & Hargs & H).
  apply retain_all_Ok_inv in Hargs as (-> & -> & ->).
  apply bind_Ok_inv in H as ([refs2 uids2] & s1 & Hrets & H).
  apply retain_all_Ok_inv in Hrets as (-> & -> & ->).
  injection H as <- <-.
  exists args, ops, operations. split; [exact Hloop|]. split; [exact Hops|].
  split; [|reflexivity].
  destruct (operation_graph_status syms handle operations);
    [reflexivity | discriminate].
Qed.

(** X19: a graph does not depend on tensors constructed later. When
    [CreateOperationGraph] returns a graph, the same call on any heap that
    extends the first one returns the same graph: the same operations,
    arguments, returns and ids. *)
Theorem CreateOperationGraph_stable_under_construction
    (order : unordered_set_order) (fuel : nat)
    (syms : openxla_cudnn_dynamic_symbols_t) (handle : cudnnHandle_t)
    (rets : list ptr) (s s' : State) (graph : CuDNNOperationGraph)
    (later : State) (more : list CuDNNTensor) :
  CreateOperationGraph order fuel syms handle rets s = (Ok graph, s') ->
  heap later = heap s ++ more ->
  exists later',
    CreateOperationGraph order fuel syms handle rets later = (Ok graph, later').
Proof.
  intros Hrun Hlater.
  apply CreateOperationGraph_Ok_graph in Hrun
    as (args & ops & operations & Hloop & Hops & Hstatus & ->).
  assert (Hargs_live : forall p, p ∈ iterate order args -> is_Some (heap s !! p)).
  { intros p Hp. rewrite iterate_perm in Hp. apply elem_of_elements in Hp.
    apply (worklist_loop_args _ _ _ _ _ _ _ Hloop) in Hp
      as [Hp | [_ (tensor_ & Hp)]]; [|eauto].
    rewrite elem_of_empty in Hp. destruct Hp. }
  assert (Hrets_live : forall p, p ∈ rets -> is_Some (heap s !! p)).
  { intros p Hp.
    destruct (worklist_loop_live _ _ _ _ _ _ _ Hloop p (reachable_root _ _ _ Hp))
      as [(tensor_ & Ht) | (inputs_ & operation_ & tensor_ & Ht)]; eauto. }
  assert (Hlive : forall p, is_Some (heap s !! p) -> is_Some (heap later !! p)).
  { intros p [t Ht]. exists t. rewrite Hlater. apply lookup_app_l_Some.
    exact Ht. }
  assert (Hsort :
            std_sort (fun a b => tensor_id (heap later) a <? tensor_id (heap later) b)
              (iterate order args)
            = std_sort (fun a b => tensor_id (heap s) a <? tensor_id (heap s) b)
                (iterate order args)).
  { apply (std_sort_ext (tensor_id (heap later)) (tensor_id (heap s))).
    intros p Hp. rewrite Hlater. apply tensor_id_app, Hargs_live, Hp. }
  assert (Hsorted_live :
            forall p,
              p ∈ std_sort (fun a b => tensor_id (heap s) a <? tensor_id (heap s) b)
                    (iterate order args) ->
              is_Some (heap s !! p)).
  { intros p Hp. rewrite std_sort_perm in Hp. apply Hargs_live, Hp. }
  eexists. unfold CreateOperationGraph. rewrite bind_unfold.
  unfold the_heap at 1. rewrite Hlater at 1.
  rewrite (worklist_loop_heap_app _ more _ _ _ _ _ Hloop).
  rewrite bind_unfold. unfold lift at 1.
  rewrite (bind_Ok_intro _ _ _ _ _
             (mapM_operation_at_owns (reverse ops) later operations
                ltac:(rewrite Hlater;
                      eapply Forall2_impl; [exact Hops | apply owns_app]))).
  unfold OperationGraphBuilder.build.
  rewrite bind_unfold, bind_unfold, emit_run. cbv beta iota.
  unfold mret at 1, M_ret at 1. cbv beta iota.
  rewrite bind_unfold, Hstatus. cbn [CUDNN_CONVERT_STATUS IREE_RETURN_IF_ERROR].
  unfold mret at 1, M_ret at 1. cbv beta iota.
  unfold new_CuDNNOperationGraph. rewrite bind_unfold.
  rewrite Hsort.
  rewrite retain_all_run by (cbn [heap]; intros p Hp; apply Hlive, Hsorted_live, Hp).
  rewrite bind_unfold, retain_all_run
    by (cbn [heap]; intros p Hp; apply Hlive, Hrets_live, Hp).
  cbn [heap app].
  assert (Hids1 : tensor_id (heap later)
                    <$> std_sort
                          (fun a b => tensor_id (heap s) a <? tensor_id (heap s) b)
                          (iterate order args)
                  = tensor_id (heap s)
                      <$> std_sort
                            (fun a b => tensor_id (heap s) a <? tensor_id (heap s) b)
                            (iterate order args)).
  { apply Forall_fmap_ext, Forall_forall. intros p Hp.
    rewrite Hlater. apply tensor_id_app, Hsorted_live, Hp. }
  assert (Hids2 : tensor_id (heap later) <$> rets = tensor_id (heap s) <$> rets).
  { apply Forall_fmap_ext, Forall_forall. intros p Hp.
    rewrite Hlater. apply tensor_id_app, Hrets_live, Hp. }
  rewrite Hids1, Hids2. reflexivity.
Qed.

Lemma CreateOperationGraph_stable_under_construction_witness :
  match fst (CreateOperationGraph hash_order 16 accepting_backend 1 [2%nat]
               convolution_state) with
  | Ok graph =>
      exists later',
        CreateOperationGraph hash_order 16 accepting_backend 1 [2%nat]
          diamond_state
        = (Ok graph, later')
  | _ => False
  end.
Proof.
  destruct (CreateOperationGraph hash_order 16 accepting_backend 1 [2%nat]
              convolution_state) as [[graph| | | |] s'] eqn:Hrun;
    try (vm_compute in Hrun; discriminate).
  cbn [fst].
  apply (CreateOperationGraph_stable_under_construction hash_order 16
           accepting_backend 1 [2%nat] convolution_state s' graph
           diamond_state (drop 3 (heap diamond_state)) Hrun).
  reflexivity.
Defined.

(** ** Programs of constructor calls *)

Lemma heap_consistent_nil : heap_consistent [].
Proof. intros p t Hp. rewrite lookup_nil in Hp. discriminate. Qed.

Lemma run_calls_invariants (syms : openxla_cudnn_dynamic_symbols_t)
    (calls : list ConstructorCall) :
  forall s, heap_wf (heap s) -> heap_consistent (heap s) ->
    heap_wf (heap (run_calls syms calls s)) /\
    heap_consistent (heap (run_calls syms calls s)).
Proof.
  induction calls as [|call calls IH]; intros s Hwf Hcons; [auto|].
  cbn [run_calls foldl]. fold (run_calls syms calls).
  destruct (construct_preserves_invariants syms call s _ _ Hwf Hcons
              (surjective_pairing _)) as [Hwf' Hcons'].
  apply IH; assumption.
Qed.

(** X20: every heap a program of constructor calls builds from the empty
    heap, whichever of its calls fail, has its inputs pointing to earlier
    tensors and its operations naming the descriptors of their tensors;
    on such a heap the traversal of [CreateOperationGraph] from any
    tensors of the heap ends, with a graph or with the error of the
    backend's graph build. *)
Theorem constructed_heaps_give_graphs
    (syms : openxla_cudnn_dynamic_symbols_t) (calls : list ConstructorCall)
    (order : unordered_set_order) (syms' : openxla_cudnn_dynamic_symbols_t)
    (handle : cudnnHandle_t) (rets : list ptr) :
  heap_wf (heap (run_calls syms calls empty_state)) /\
  heap_consistent (heap (run_calls syms calls empty_state)) /\
  ((forall p, p ∈ rets ->
      (p < length (heap (run_calls syms calls empty_state)))%nat) ->
   exists k, forall fuel, (k <= fuel)%nat ->
     exists r s',
       CreateOperationGraph order fuel syms' handle rets
         (run_calls syms calls empty_state) = (r, s') /\
       ((exists graph, r = Ok graph) \/ (exists e, r = Failed e))).
Proof.
  destruct (run_calls_invariants syms calls empty_state heap_wf_nil
              heap_consistent_nil) as [Hwf Hcons].
  split; [exact Hwf|]. split; [exact Hcons|]. intros Hrets.
  apply CreateOperationGraph_total; assumption.
Qed.

Lemma constructed_heaps_give_graphs_witness :
  exists k, forall fuel, (k <= fuel)%nat ->
    exists r s',
      CreateOperationGraph hash_order fuel accepting_backend 1 [4%nat; 2%nat]
        (run_calls accepting_backend diamond_calls empty_state) = (r, s') /\
      ((exists graph, r = Ok graph) \/ (exists e, r = Failed e)).
Proof.
  destruct (constructed_heaps_give_graphs accepting_backend diamond_calls
              hash_order accepting_backend 1 [4%nat; 2%nat])
    as (_ & _ & Hgraphs).
  apply Hgraphs. intros p Hp.
  repeat (apply elem_of_cons in Hp as [-> | Hp]; [vm_compute; lia|]).
  inversion Hp.
Defined.
